(** * SecureStego: the steganographic codec and the cryptographic pipeline

    A shallow embedding of [js/steganography.js], [js/crypto.js],
    [js/validation.js] and of the two handlers of [js/app.js], with the
    properties of the specification stated and proved over it; then more
    of the same files, the ZIP writer of [js/app.js] and the file helpers
    of [js/fileHandler.js], with properties read off the code. *)

From Stdlib Require Import ZArith QArith Qround Lia ZifyNat Bool Ascii String
  DecimalString.
From stdpp Require Import base list sets.

Local Open Scope Z_scope.

(** ** JavaScript values

    Numbers that the modelled code handles are integers far below 2^53, so
    they are [Z]; the 32-bit bitwise operators wrap as ECMAScript's ToInt32
    does.  A typed array is a [list Z]; reading past its end gives
    [undefined] ([None]), which the bitwise operators turn into 0, and
    writing past its end does nothing. *)

Module Js.

Definition toInt32 (z : Z) : Z :=
  let m := z mod 2 ^ 32 in
  if m <? 2 ^ 31 then m else m - 2 ^ 32.

(** [a << n], [a >> n], [a & b], [a | b] *)
Definition shl (a n : Z) : Z := toInt32 (Z.shiftl (toInt32 a) (n mod 32)).
Definition sar (a n : Z) : Z := Z.shiftr (toInt32 a) (n mod 32).
Definition band (a b : Z) : Z := Z.land (toInt32 a) (toInt32 b).
Definition bor (a b : Z) : Z := Z.lor (toInt32 a) (toInt32 b).

(** ToInt32 of an array read: [undefined] becomes 0. *)
Definition num (o : option Z) : Z := default 0 o.

(** Stores into a [Uint8Array] wrap, stores into a [Uint8ClampedArray]
    clamp. *)
Definition toUint8 (z : Z) : Z := z mod 256.
Definition toUint8Clamp (z : Z) : Z := Z.max 0 (Z.min 255 z).

(** [new Uint8Array(n)] *)
Definition zeros (n : nat) : list Z := replicate n 0.

(** [dst.set(src, offset)]: a RangeError when [src] does not fit. *)
Definition set (dst src : list Z) (offset : nat) : option (list Z) :=
  if (offset + length src <=? length dst)%nat
  then Some (take offset dst ++ src ++ drop (offset + length src) dst)
  else None.

(** [a.slice(from, to)] for [0 <= from <= to] *)
Definition slice (a : list Z) (from to : nat) : list Z :=
  take (to - from) (drop from a).

(** An [Error] is its message. *)
Definition Error := string.

Definition is_byte (z : Z) : Prop := 0 <= z < 256.
Definition bytes (l : list Z) : Prop := Forall is_byte l.

(** *** Strings

    Messages, file names and MIME types are strings of ASCII characters.
    A PIN is typed by the user, so it is kept as the sequence of its
    UTF-16 code units. *)

(** The code units of an ASCII string. *)
Definition str (s : string) : list Z :=
  map (fun a => Z.of_N (N_of_ascii a)) (list_ascii_of_string s).

(** [new TextEncoder().encode(s)]: UTF-8, a lone surrogate becoming
    U+FFFD. *)
Fixpoint encodeUtf8 (s : list Z) : list Z :=
  match s with
  | [] => []
  | c :: rest =>
      if c <? 0x80 then c :: encodeUtf8 rest
      else if c <? 0x800
      then Z.lor 0xC0 (Z.shiftr c 6) :: Z.lor 0x80 (Z.land c 0x3F)
             :: encodeUtf8 rest
      else if (0xD800 <=? c) && (c <? 0xDC00)
      then match rest with
           | c2 :: rest' =>
               if (0xDC00 <=? c2) && (c2 <? 0xE000)
               then
                 let cp := 0x10000 + Z.shiftl (c - 0xD800) 10
                           + (c2 - 0xDC00) in
                 Z.lor 0xF0 (Z.shiftr cp 18)
                   :: Z.lor 0x80 (Z.land (Z.shiftr cp 12) 0x3F)
                   :: Z.lor 0x80 (Z.land (Z.shiftr cp 6) 0x3F)
                   :: Z.lor 0x80 (Z.land cp 0x3F)
                   :: encodeUtf8 rest'
               else 0xEF :: 0xBF :: 0xBD :: encodeUtf8 rest
           | [] => [0xEF; 0xBF; 0xBD]
           end
      else if (0xDC00 <=? c) && (c <? 0xE000)
      then 0xEF :: 0xBF :: 0xBD :: encodeUtf8 rest
      else Z.lor 0xE0 (Z.shiftr c 12)
             :: Z.lor 0x80 (Z.land (Z.shiftr c 6) 0x3F)
             :: Z.lor 0x80 (Z.land c 0x3F)
             :: encodeUtf8 rest
  end.

Definition lowerAscii (a : ascii) : ascii :=
  let n := N_of_ascii a in
  if ((65 <=? n) && (n <=? 90))%N then ascii_of_N (n + 32) else a.

(** [s.toLowerCase()] *)
Fixpoint toLowerCase (s : string) : string :=
  match s with
  | EmptyString => EmptyString
  | String a s' => String (lowerAscii a) (toLowerCase s')
  end.

(** [s.includes(sub)] *)
Fixpoint includes (sub s : string) : bool :=
  String.prefix sub s
  || match s with
     | EmptyString => false
     | String _ s' => includes sub s'
     end.

(** [s.endsWith(suffix)] *)
Definition endsWith (s suffix : string) : bool :=
  let n := String.length s in
  let m := String.length suffix in
  (m <=? n)%nat && String.eqb (substring (n - m) m s) suffix.

(** [s.replace(pattern, replacement)] with a string pattern: the first
    occurrence only. *)
Definition replace (s pattern replacement : string) : string :=
  match index 0 pattern s with
  | None => s
  | Some i =>
      (substring 0 i s ++ replacement
         ++ substring (i + String.length pattern)
              (String.length s - (i + String.length pattern)) s)%string
  end.

Definition newline : string := String (ascii_of_nat 10) EmptyString.

(** [parts.join(separator)] *)
Definition join (separator : string) (parts : list string) : string :=
  String.concat separator parts.

(** A number in a template literal *)
Definition ofNat (n : nat) : string :=
  DecimalString.NilEmpty.string_of_uint (Nat.to_uint n).

End Js.

(** ** js/steganography.js *)

Module Stego.

Definition HEADER_SIZE : nat := 4.
Definition SALT_SIZE : nat := 16.
Definition IV_SIZE : nat := 12.
Definition HMAC_SIZE : nat := 32.
Definition KEY_SIZE : nat := 32.

(** Lines 20-27 *)
Definition numberToBytes (n : Z) : list Z :=
  [ Js.band (Js.sar n 24) 0xFF;
    Js.band (Js.sar n 16) 0xFF;
    Js.band (Js.sar n 8) 0xFF;
    Js.band n 0xFF ].

(** Lines 34-36 *)
Definition bytesToNumber (b : list Z) : Z :=
  Js.bor (Js.bor (Js.bor (Js.shl (Js.num (b !! 0%nat)) 24)
                         (Js.shl (Js.num (b !! 1%nat)) 16))
                 (Js.shl (Js.num (b !! 2%nat)) 8))
         (Js.num (b !! 3%nat)).

(** A canvas is its size and the RGBA bytes that [getImageData] copies
    out. *)
Record Canvas := { width : nat; height : nat; data : list Z }.

(** Four bytes for each of the [width * height] pixels, row after row. *)
Definition pixelCount (c : Canvas) : nat := (width c * height c)%nat.
Definition wellFormed (c : Canvas) : Prop :=
  length (data c) = (4 * pixelCount c)%nat.

(** The bitmap behind a 2D context is not code of the repository, and it is
    not a byte store: it keeps colour multiplied by alpha, so the R, G and B
    bytes that [putImageData] is given come back from [getImageData] as
    written only where the pixel is opaque.  [stored pixels] is what
    [getImageData] copies out after [putImageData] wrote [pixels]. *)
Class Context2D := { stored : list Z -> list Z }.

(** What the platform promises of it: the size, every alpha byte and every
    byte of an opaque pixel are kept.  Nothing is promised of the colour of
    a pixel whose alpha is below 255. *)
Class Context2DLaws (K : Context2D) : Prop := {
  stored_length : forall pixels, length (stored pixels) = length pixels;
  stored_alpha : forall pixels p,
    stored pixels !! (4 * p + 3)%nat = pixels !! (4 * p + 3)%nat;
  stored_opaque : forall pixels p channel,
    (channel < 4)%nat ->
    pixels !! (4 * p + 3)%nat = Some 255 ->
    stored pixels !! (4 * p + channel)%nat
    = pixels !! (4 * p + channel)%nat;
}.

(** Pixel [p] is opaque; the first [n] pixels are. *)
Definition opaqueAt (pixels : list Z) (p : nat) : Prop :=
  pixels !! (4 * p + 3)%nat = Some 255.
Definition opaqueUpTo (n : nat) (c : Canvas) : Prop :=
  forall p, (p < n)%nat -> opaqueAt (data c) p.

Definition getImageData (c : Canvas) : list Z := data c.
Definition putImageData {K : Context2D} (c : Canvas) (pixels : list Z)
  : Canvas :=
  {| width := width c; height := height c; data := stored pixels |}.

(** *** embedDataInImage *)

(** Lines 53-68: the bytes that are embedded. *)
Definition dataToEmbed (salt iv hmac keyBytes : list Z) : option (list Z) :=
  let totalDataSize := (SALT_SIZE + IV_SIZE + KEY_SIZE + HMAC_SIZE)%nat in
  let d := Js.zeros (HEADER_SIZE + totalDataSize) in
  d ← Js.set d (numberToBytes (Z.of_nat totalDataSize)) 0;
  let offset := HEADER_SIZE in
  d ← Js.set d salt offset;
  let offset := (offset + SALT_SIZE)%nat in
  d ← Js.set d iv offset;
  let offset := (offset + IV_SIZE)%nat in
  d ← Js.set d keyBytes offset;
  let offset := (offset + KEY_SIZE)%nat in
  Js.set d hmac offset.

(** Lines 71-74: [requiredPixels > availablePixels], the two quotients
    being exact. *)
Definition tooSmall (dataLength pixelsLength : nat) : bool :=
  let requiredPixels := (inject_Z (Z.of_nat dataLength * 8) / 3)%Q in
  let availablePixels := (inject_Z (Z.of_nat pixelsLength) / 4)%Q in
  negb (Qle_bool requiredPixels availablePixels).

(** The variables of the two loops. *)
Record EmbedState := { pixels : list Z; dataIndex : nat; bitIndex : nat }.

(** Lines 85-99: the body of the channel loop. *)
Definition embedBit (d : list Z) (pixelIndex : nat) (s : EmbedState)
  : EmbedState :=
  let dataByte := Js.num (d !! dataIndex s) in
  let bit := Z.land (Z.shiftr dataByte (7 - Z.of_nat (bitIndex s))) 1 in
  let pixels' :=
    <[pixelIndex :=
        Js.toUint8Clamp
          (Z.lor (Z.land (Js.num (pixels s !! pixelIndex)) 0xFE) bit)]>
      (pixels s) in
  let bitIndex' := S (bitIndex s) in
  if (bitIndex' =? 8)%nat
  then {| pixels := pixels'; dataIndex := S (dataIndex s); bitIndex := 0 |}
  else {| pixels := pixels'; dataIndex := dataIndex s;
          bitIndex := bitIndex' |}.

(** Line 84: [for (channel; channel < 3 && dataIndex < length; channel++)] *)
Fixpoint embedChannels (fuel : nat) (d : list Z) (i channel : nat)
    (s : EmbedState) : EmbedState :=
  match fuel with
  | O => s
  | S fuel' =>
      if (channel <? 3)%nat && (dataIndex s <? length d)%nat
      then embedChannels fuel' d i (S channel)
             (embedBit d (i + channel) s)
      else s
  end.

(** Line 82: [for (i; i < pixels.length && dataIndex < length; i += 4)] *)
Fixpoint embedPixels (fuel : nat) (d : list Z) (i : nat) (s : EmbedState)
  : EmbedState :=
  match fuel with
  | O => s
  | S fuel' =>
      if (i <? length (pixels s))%nat && (dataIndex s <? length d)%nat
      then embedPixels fuel' d (i + 4) (embedChannels 3 d i 0 s)
      else s
  end.

(** The outer loop adds 4 to [i] each round, so [length pixels] rounds are
    more than it can make. *)
Definition embedLoop (d : list Z) (px : list Z) : EmbedState :=
  embedPixels (length px) d 0
    {| pixels := px; dataIndex := 0; bitIndex := 0 |}.

Definition capacityMessage : Js.Error :=
  "Image is too small to embed the encryption data"%string.
(** The wording of the engine's RangeError; nothing below depends on it. *)
Definition rangeMessage : Js.Error := "offset is out of bounds"%string.
Definition embedPrefix : string := "Failed to embed data in image: "%string.

(** Lines 47-111.  The result, and the canvas as the call leaves it.  The
    loop works on the bytes that [getImageData] copied out; the canvas
    changes with [putImageData] only.  The [catch] block throws every error
    again under its prefix (what it prints on the console is left out). *)
Definition embedDataInImage {K : Context2D} (canvas : Canvas)
    (salt iv hmac keyBytes : list Z) : (Js.Error + Canvas) * Canvas :=
  let px := getImageData canvas in
  match dataToEmbed salt iv hmac keyBytes with
  | None => (inl (embedPrefix ++ rangeMessage)%string, canvas)
  | Some d =>
      if tooSmall (length d) (length px)
      then (inl (embedPrefix ++ capacityMessage)%string, canvas)
      else
        let canvas' := putImageData canvas (pixels (embedLoop d px)) in
        (inr canvas', canvas')
  end.

(** *** extractDataFromImage *)

Record ExtractState :=
  { allBytes : list Z; xDataIndex : nat; xBitIndex : nat }.

(** Lines 132-139 *)
Definition extractBit (px : list Z) (pixelIndex : nat) (s : ExtractState)
  : ExtractState :=
  let bit := Z.land (Js.num (px !! pixelIndex)) 1 in
  let allBytes' :=
    <[xDataIndex s :=
        Js.toUint8
          (Z.lor (Js.num (allBytes s !! xDataIndex s))
                 (Z.shiftl bit (7 - Z.of_nat (xBitIndex s))))]>
      (allBytes s) in
  let bitIndex' := S (xBitIndex s) in
  if (bitIndex' =? 8)%nat
  then {| allBytes := allBytes'; xDataIndex := S (xDataIndex s);
          xBitIndex := 0 |}
  else {| allBytes := allBytes'; xDataIndex := xDataIndex s;
          xBitIndex := bitIndex' |}.

(** Line 131 *)
Fixpoint extractChannels (fuel : nat) (px : list Z) (totalBytes : nat)
    (i channel : nat) (s : ExtractState) : ExtractState :=
  match fuel with
  | O => s
  | S fuel' =>
      if (channel <? 3)%nat && (xDataIndex s <? totalBytes)%nat
      then extractChannels fuel' px totalBytes i (S channel)
             (extractBit px (i + channel) s)
      else s
  end.

(** Line 130 *)
Fixpoint extractPixels (fuel : nat) (px : list Z) (totalBytes : nat)
    (i : nat) (s : ExtractState) : ExtractState :=
  match fuel with
  | O => s
  | S fuel' =>
      if (i <? length px)%nat && (xDataIndex s <? totalBytes)%nat
      then extractPixels fuel' px totalBytes (i + 4)
             (extractChannels 3 px totalBytes i 0 s)
      else s
  end.

Definition extractLoop (px : list Z) (totalBytes : nat) : ExtractState :=
  extractPixels (length px) px totalBytes 0
    {| allBytes := Js.zeros totalBytes; xDataIndex := 0; xBitIndex := 0 |}.

Record Extracted :=
  { salt : list Z; iv : list Z; keyBytes : list Z; hmac : list Z }.

Definition formatMessage : Js.Error :=
  "Invalid data length - image may not contain valid encryption data"%string.
Definition extractPrefix : string := "Failed to extract data from image: "%string.

(** Lines 118-164 *)
Definition extractDataFromImage (canvas : Canvas) : Js.Error + Extracted :=
  let px := getImageData canvas in
  let expectedDataLength := (SALT_SIZE + IV_SIZE + KEY_SIZE + HMAC_SIZE)%nat in
  let totalBytes := (HEADER_SIZE + expectedDataLength)%nat in
  let all := allBytes (extractLoop px totalBytes) in
  let dataLength := bytesToNumber (Js.slice all 0 HEADER_SIZE) in
  if negb (dataLength =? Z.of_nat expectedDataLength)
  then inl (extractPrefix ++ formatMessage)%string
  else
    let offset := HEADER_SIZE in
    let salt := Js.slice all offset (offset + SALT_SIZE) in
    let offset := (offset + SALT_SIZE)%nat in
    let iv := Js.slice all offset (offset + IV_SIZE) in
    let offset := (offset + IV_SIZE)%nat in
    let keyBytes := Js.slice all offset (offset + KEY_SIZE) in
    let offset := (offset + KEY_SIZE)%nat in
    let hmac := Js.slice all offset (offset + HMAC_SIZE) in
    inr {| salt := salt; iv := iv; keyBytes := keyBytes; hmac := hmac |}.

(** Lines 239-245 *)
Definition validateImageCapacity (width height : nat) : bool :=
  let totalPixels := Z.of_nat (width * height) in
  let totalDataSize :=
    (HEADER_SIZE + SALT_SIZE + IV_SIZE + KEY_SIZE + HMAC_SIZE)%nat in
  let requiredPixels :=
    Qceiling (inject_Z (Z.of_nat totalDataSize * 8) / 3)%Q in
  requiredPixels <=? totalPixels.

(** [getRequiredImageSize().minPixels] *)
Definition minPixels : Z :=
  let totalDataSize :=
    (HEADER_SIZE + SALT_SIZE + IV_SIZE + KEY_SIZE + HMAC_SIZE)%nat in
  Qceiling (inject_Z (Z.of_nat totalDataSize * 8) / 3)%Q.

End Stego.

Import Stego.

(** ** js/validation.js *)

Module Validation.

Record File := { name : string; type : string; content : list Z }.
Definition size (f : File) : Z := Z.of_nat (length (content f)).

Record Result :=
  { valid : bool; error : option string; warning : option string }.

Definition ok : Result :=
  {| valid := true; error := None; warning := None |}.
Definition fails (e : string) : Result :=
  {| valid := false; error := Some e; warning := None |}.
Definition warns (w : string) : Result :=
  {| valid := true; error := None; warning := Some w |}.

Definition isDigit (c : Z) : bool := (48 <=? c) && (c <=? 57).

(** [/^\d{6}$/.test(pin)] *)
Definition sixDigits (pin : list Z) : bool :=
  (length pin =? 6)%nat && forallb isDigit pin.

Definition weakPatterns : list (list Z) :=
  map Js.str
    [ "000000"; "111111"; "222222"; "333333"; "444444";
      "555555"; "666666"; "777777"; "888888"; "999999";
      "123456"; "654321"; "012345"; "543210";
      "111222"; "222333"; "333444" ]%string.

(** Lines 13-46.  The argument is a string, so [typeof pin !== 'string']
    never holds; [!pin] holds for the empty string. *)
Definition validatePIN (pin : list Z) : Result :=
  if (length pin =? 0)%nat then fails "PIN is required"
  else if negb (length pin =? 6)%nat then fails "PIN must be exactly 6 digits"
  else if negb (sixDigits pin) then fails "PIN must contain only numbers"
  else if existsb (fun p => bool_decide (p = pin)) weakPatterns
  then warns "This PIN is weak. Consider using a more random combination."
  else ok.

(** Lines 92-110; [file] is [None] when nothing was selected. *)
Definition validateEncryptionFile (file : option File) : Result :=
  match file with
  | None => fails "No file selected"
  | Some f =>
      if size f =? 0 then fails "File is empty"
      else
        let maxSize := 1024 * 1024 * 1024 in
        if maxSize <? size f
        then fails "File is too large. Maximum size is 1GB (1.0GB)"
        else ok
  end.

(** Lines 117-135 *)
Definition validateEncryptedFile (file : option File) : Result :=
  match file with
  | None => fails "No encrypted file selected"
  | Some f =>
      if size f =? 0 then fails "Encrypted file is empty"
      else if negb (Js.endsWith (name f) ".encrypted")
              && String.eqb (type f) ""
      then warns "File does not have .encrypted extension. Make sure this is the correct encrypted file."
      else ok
  end.

(** Lines 142-174 *)
Definition validateKeyImage (file : option File) : Result :=
  match file with
  | None => fails "No key image selected"
  | Some f =>
      if size f =? 0 then fails "Key image is empty"
      else if negb (String.prefix "image/" (type f))
      then fails "Selected file is not an image"
      else if negb (String.eqb (type f) "image/png")
      then fails "Key image must be PNG format. JPEG and other formats will not work."
      else
        let minSize := 1200 * 1200 * 4 in
        if size f <? minSize / 10
        then warns "Image seems small. Make sure this is the correct key image."
        else ok
  end.

Record Results := { allValid : bool; errors : list string }.

(** [errors.push(v.error)] when [v] is not valid *)
Definition push (v : Result) (errors : list string) : list string :=
  if valid v then errors else errors ++ [default ""%string (error v)].

(** Lines 245-267 *)
Definition validateDecryptionInputs
    (encryptedFile keyImage : option File) (pin : list Z) : Results :=
  let errors := [] in
  let errors := push (validateEncryptedFile encryptedFile) errors in
  let errors := push (validateKeyImage keyImage) errors in
  let errors := push (validatePIN pin) errors in
  {| allValid := (length errors =? 0)%nat; errors := errors |}.

(** Lines 275-292 *)
Definition validateEncryptionInputs (file : option File) (pin : list Z)
  : Results :=
  let errors := [] in
  let errors := push (validateEncryptionFile file) errors in
  let errors := push (validatePIN pin) errors in
  {| allValid := (length errors =? 0)%nat; errors := errors |}.

(** Lines 313-323 *)
Definition formatValidationErrors (errors : list string) : string :=
  match errors with
  | [] => ""
  | [e] => e
  | _ =>
      "Multiple errors:" ++ Js.newline
      ++ Js.join Js.newline
           (imap (fun i err => Js.ofNat (i + 1) ++ ". " ++ err) errors)
  end%string.

End Validation.

(** ** The platform

    [crypto.subtle], [crypto.getRandomValues], the console and the page are
    not code of the repository.  The algorithms are a parameter; what the
    code does with them is recorded, call by call, in a trace. *)

Module Platform.

Inductive Algorithm := PBKDF2 | AES_GCM | HMAC.

(** A [CryptoKey] handle: what it is for, whether [exportKey] may read it,
    and the key bytes it stands for. *)
Record CryptoKey :=
  { algorithm : Algorithm; extractable : bool; raw : list Z }.

(** The algorithms of [crypto.subtle]; [None] is a thrown error. *)
Class Subtle := {
  (** password, salt, iterations, hash, length in bits *)
  pbkdf2 : list Z -> list Z -> Z -> string -> Z -> option (list Z);
  (** key, iv, tag length in bits, data *)
  aesGcmEncrypt : list Z -> list Z -> Z -> list Z -> option (list Z);
  aesGcmDecrypt : list Z -> list Z -> Z -> list Z -> option (list Z);
  (** key, data *)
  hmacSha256 : list Z -> list Z -> option (list Z);
}.

(** What Web Crypto promises about them. *)
Class SubtleLaws (S : Subtle) : Prop := {
  pbkdf2_key : forall password salt iterations,
    0 < iterations ->
    exists k, pbkdf2 password salt iterations "SHA-256" 256 = Some k
              /\ length k = 32%nat;
  encrypt_total : forall k iv data,
    length k = 32%nat -> length iv = 12%nat ->
    is_Some (aesGcmEncrypt k iv 128 data);
  decrypt_encrypt : forall k iv data c,
    aesGcmEncrypt k iv 128 data = Some c ->
    aesGcmDecrypt k iv 128 c = Some data;
  hmac_total : forall k data,
    length k = 32%nat -> is_Some (hmacSha256 k data);
}.

(** The rest of the browser: the PNG decoder behind [loadImageToCanvas]
    and the encoder behind [canvas.toBlob]; and the picture that
    [generateAbstractImage] (imageGenerator.js) draws with the drawing
    calls of the 2D context and its random choices, which is a parameter
    here: one of six patterns, 1200 x 1200, not always opaque. *)
Class Browser := {
  generateAbstractImage : Stego.Canvas;
  loadImageToCanvas : Validation.File -> Js.Error + Stego.Canvas;
  canvasToBlob : Stego.Canvas -> Js.Error + list Z;
}.

Inductive UiCall :=
| SetProcessing (on : bool)
| SetButtonLoading (mode : string) (on : bool)
| UpdateButtonStates
| UpdateProgress (mode : string)
| HideProgress (mode : string)
| Announce (message : string)
| ShowSuccessModal (filename : string)
| ShowErrorModal (message : string)
| ShowPINError (mode : string)
| ShowToast (message : string)
| DownloadBlob (blob : list Z) (filename : string)
| ResetFormLater.

Inductive Event :=
| Progress (percent : Z)
| ConsoleError (label : string) (message : Js.Error)
| GetRandomValues (n : nat)
| ImportKey (a : Algorithm) (keyData : list Z)
| DeriveKey (password salt : list Z) (iterations : Z) (hash : string)
    (length : Z)
| ExportKey (key : CryptoKey)
| Encrypt (key iv data : list Z)
| Decrypt (key iv data : list Z)
| Sign (key data : list Z)
| Verify (key signature data : list Z)
| Ui (call : UiCall).

(** [window.encryptedFileData] *)
Record Saved :=
  { savedEncrypted : list Z; savedImage : list Z;
    originalFilename : string }.

Record World := {
  (** the bytes that [getRandomValues] hands out, and how many it did *)
  entropy : nat -> Z;
  drawn : nat;
  (** the byte arrays that are overwritten in place, by address *)
  heap : list (list Z);
  encryptedFileData : option Saved;
  (** what was called so far, oldest first *)
  trace : list Event;
}.

(** A computation runs in a world and returns or throws. *)
Definition M (A : Type) : Type := World -> (Js.Error + A) * World.

Definition ret {A} (a : A) : M A := fun w => (inr a, w).
Definition bind {A B} (m : M A) (k : A -> M B) : M B :=
  fun w => match m w with
           | (inr a, w') => k a w'
           | (inl e, w') => (inl e, w')
           end.
Definition throw {A} (e : Js.Error) : M A := fun w => (inl e, w).
Definition tryCatch {A} (m : M A) (handler : Js.Error -> M A) : M A :=
  fun w => match m w with
           | (inl e, w') => handler e w'
           | r => r
           end.
(** [try { m } catch (e) { handler } finally { final }] *)
Definition tryCatchFinally {A} (m : M A) (handler : Js.Error -> M A)
    (final : M unit) : M A :=
  fun w => match tryCatch m handler w with
           | (r, w') => match final w' with
                        | (inl e, w'') => (inl e, w'')
                        | (inr _, w'') => (r, w'')
                        end
           end.

(** The world after some more calls. *)
Definition logged (w : World) (events : list Event) : World :=
  {| entropy := entropy w; drawn := drawn w; heap := heap w;
     encryptedFileData := encryptedFileData w;
     trace := trace w ++ events |}.

Definition emit (e : Event) : M unit := fun w => (inr tt, logged w [e]).

(** A call of ui.js.  Its functions find the elements of the page with
    [document.getElementById]; the page itself (index.html) is not among
    the sources.  The calls are taken on a page that has the elements they
    look up, where each of them returns; what a handler does on a page that
    lacks one (there [showErrorModal] and [showSuccessModal] throw) is
    outside this model. *)
Definition ui (c : UiCall) : M unit := emit (Ui c).
Definition consoleError (label : string) (e : Js.Error) : M unit :=
  emit (ConsoleError label e).
(** [progressCallback?.(percent)]; the callback of the two handlers moves
    the progress bar. *)
Definition progress (percent : Z) : M unit := emit (Progress percent).

Definition ofOption {A} (o : option A) (e : Js.Error) : M A :=
  match o with Some a => ret a | None => throw e end.
Definition ofResult {A} (r : Js.Error + A) : M A :=
  match r with inr a => ret a | inl e => throw e end.

Declare Scope js_scope.
Delimit Scope js_scope with js.
Notation "x <- m ;; k" := (bind m (fun x => k))
  (at level 62, m at level 61, right associativity,
   format "'[v' x  <-  m  ;; '/' k ']'") : js_scope.
Notation "m ;;; k" := (bind m (fun _ => k))
  (at level 62, right associativity,
   format "'[v' m  ;;; '/' k ']'") : js_scope.

(** *** The heap *)

Definition allocated (w : World) (bytes : list Z) : World :=
  {| entropy := entropy w; drawn := drawn w; heap := heap w ++ [bytes];
     encryptedFileData := encryptedFileData w; trace := trace w |}.
Definition cleared (w : World) (address : nat) : World :=
  {| entropy := entropy w; drawn := drawn w;
     heap := alter (fun a => replicate (length a) 0) address (heap w);
     encryptedFileData := encryptedFileData w; trace := trace w |}.
Definition saved (w : World) (s : Saved) : World :=
  {| entropy := entropy w; drawn := drawn w; heap := heap w;
     encryptedFileData := Some s; trace := trace w |}.

(** [new Uint8Array(bytes)]: a fresh array, known by its address *)
Definition alloc (bytes : list Z) : M nat :=
  fun w => (inr (length (heap w)), allocated w bytes).
Definition load (address : nat) : M (list Z) :=
  fun w => (inr (default [] (heap w !! address)), w).
(** [array.fill(0)] *)
Definition fill0 (address : nat) : M unit :=
  fun w => (inr tt, cleared w address).
Definition save (s : Saved) : M unit := fun w => (inr tt, saved w s).

(** *** crypto.getRandomValues and crypto.subtle *)

Definition operationError : Js.Error := "OperationError"%string.
Definition invalidAccessError : Js.Error := "InvalidAccessError"%string.
Definition dataError : Js.Error := "DataError"%string.

Section Subtle.

Context {S : Subtle}.
Local Open Scope js_scope.

Definition randomBytes (w : World) (n : nat) : list Z :=
  map (fun i => entropy w i mod 256) (seq (drawn w) n).
Definition draw (w : World) (n : nat) : World :=
  {| entropy := entropy w; drawn := (drawn w + n)%nat; heap := heap w;
     encryptedFileData := encryptedFileData w; trace := trace w |}.

(** [crypto.getRandomValues(new Uint8Array(n))] *)
Definition getRandomValues (n : nat) : M (list Z) :=
  fun w => (inr (randomBytes w n), logged (draw w n) [GetRandomValues n]).

(** [importKey('raw', keyData, algorithm, extractable, usages)] *)
Definition importKey (keyData : list Z) (a : Algorithm)
    (extractable : bool) : M CryptoKey :=
  emit (ImportKey a keyData) ;;;
  match a with
  | PBKDF2 => ret {| algorithm := a; extractable := false; raw := keyData |}
  | HMAC =>
      if (length keyData =? 0)%nat then throw dataError
      else ret {| algorithm := a; extractable := extractable;
                  raw := keyData |}
  | AES_GCM =>
      if (length keyData =? 16)%nat || (length keyData =? 24)%nat
         || (length keyData =? 32)%nat
      then ret {| algorithm := a; extractable := extractable;
                  raw := keyData |}
      else throw dataError
  end.

(** [deriveKey({name: 'PBKDF2', salt, iterations, hash}, baseKey,
    {name: 'AES-GCM', length}, extractable, usages)] *)
Definition deriveKey (salt : list Z) (iterations : Z) (hash : string)
    (baseKey : CryptoKey) (length : Z) (extractable : bool)
  : M CryptoKey :=
  emit (DeriveKey (raw baseKey) salt iterations hash length) ;;;
  match algorithm baseKey with
  | PBKDF2 =>
      k <- ofOption (pbkdf2 (raw baseKey) salt iterations hash length)
             operationError ;;
      ret {| algorithm := AES_GCM; extractable := extractable; raw := k |}
  | _ => throw invalidAccessError
  end.

(** [exportKey('raw', key)] *)
Definition exportKey (key : CryptoKey) : M (list Z) :=
  emit (ExportKey key) ;;;
  if extractable key then ret (raw key) else throw invalidAccessError.

(** [encrypt({name: 'AES-GCM', iv, tagLength}, key, data)] *)
Definition encrypt (iv : list Z) (tagLength : Z) (key : CryptoKey)
    (data : list Z) : M (list Z) :=
  emit (Encrypt (raw key) iv data) ;;;
  match algorithm key with
  | AES_GCM =>
      ofOption (aesGcmEncrypt (raw key) iv tagLength data) operationError
  | _ => throw invalidAccessError
  end.

Definition decrypt (iv : list Z) (tagLength : Z) (key : CryptoKey)
    (data : list Z) : M (list Z) :=
  emit (Decrypt (raw key) iv data) ;;;
  match algorithm key with
  | AES_GCM =>
      ofOption (aesGcmDecrypt (raw key) iv tagLength data) operationError
  | _ => throw invalidAccessError
  end.

(** [sign('HMAC', key, data)] *)
Definition sign (key : CryptoKey) (data : list Z) : M (list Z) :=
  emit (Sign (raw key) data) ;;;
  match algorithm key with
  | HMAC => ofOption (hmacSha256 (raw key) data) operationError
  | _ => throw invalidAccessError
  end.

(** [verify('HMAC', key, signature, data)]: the MAC is computed again
    and compared. *)
Definition verify (key : CryptoKey) (signature data : list Z) : M bool :=
  emit (Verify (raw key) signature data) ;;;
  match algorithm key with
  | HMAC =>
      mac <- ofOption (hmacSha256 (raw key) data) operationError ;;
      ret (bool_decide (mac = signature))
  | _ => throw invalidAccessError
  end.

End Subtle.

End Platform.

(** ** js/crypto.js

    In the sources this module follows app.js in one file; the line numbers
    are those of that file. *)

Module Crypto.

Import Platform.
Local Open Scope js_scope.
Local Open Scope string_scope.

Definition PBKDF2_ITERATIONS : Z := 100000.
Definition SALT_LENGTH : nat := 16.
Definition IV_LENGTH : nat := 12.
Definition KEY_LENGTH : Z := 256.

Definition deriveMessage : Js.Error :=
  "Failed to derive encryption key from PIN".
Definition exportMessage : Js.Error := "Failed to export key".
Definition encryptMessage : Js.Error := "Failed to encrypt data".
Definition decryptMessage : Js.Error :=
  "Decryption failed - incorrect PIN or corrupted data".
Definition hmacMessage : Js.Error := "Failed to compute HMAC".
Definition hmacFailedMessage : Js.Error :=
  "HMAC verification failed - data may be corrupted".
Definition encryptFilePrefix : string := "Failed to encrypt file: ".
Definition decryptFilePrefix : string := "Failed to decrypt file: ".

Section WithSubtle.

Context {S : Subtle}.

(** Lines 667-671 *)
Definition generateRandomBytes (length : nat) : M (list Z) :=
  getRandomValues length.

(** Lines 679-713 *)
Definition deriveKeyFromPIN (pin : list Z) (salt : list Z) : M CryptoKey :=
  tryCatch
    (let pinBuffer := Js.encodeUtf8 pin in
     baseKey <- importKey pinBuffer PBKDF2 false ;;
     derivedKey <- deriveKey salt PBKDF2_ITERATIONS "SHA-256" baseKey
                     KEY_LENGTH true ;;
     ret derivedKey)
    (fun error =>
       consoleError "Key derivation error:" error ;;;
       throw deriveMessage).

(** Lines 720-728 *)
Definition exportKey (key : CryptoKey) : M (list Z) :=
  tryCatch
    (exported <- Platform.exportKey key ;;
     ret exported)
    (fun error =>
       consoleError "Key export error:" error ;;;
       throw exportMessage).

(** Lines 758-774 *)
Definition encryptData (data : list Z) (key : CryptoKey) (iv : list Z)
  : M (list Z) :=
  tryCatch
    (encrypted <- encrypt iv 128 key data ;;
     ret encrypted)
    (fun error =>
       consoleError "Encryption error:" error ;;;
       throw encryptMessage).

(** Lines 783-799 *)
Definition decryptData (encryptedData : list Z) (key : CryptoKey)
    (iv : list Z) : M (list Z) :=
  tryCatch
    (decrypted <- decrypt iv 128 key encryptedData ;;
     ret decrypted)
    (fun error =>
       consoleError "Decryption error:" error ;;;
       throw decryptMessage).

(** Lines 807-831 *)
Definition computeHMAC (data : list Z) (key : CryptoKey) : M (list Z) :=
  tryCatch
    (exportedKey <- Platform.exportKey key ;;
     hmacKey <- importKey exportedKey HMAC false ;;
     signature <- sign hmacKey data ;;
     ret signature)
    (fun error =>
       consoleError "HMAC computation error:" error ;;;
       throw hmacMessage).

(** Lines 840-865 *)
Definition verifyHMAC (data signature : list Z) (key : CryptoKey)
  : M bool :=
  tryCatch
    (exportedKey <- Platform.exportKey key ;;
     hmacKey <- importKey exportedKey HMAC false ;;
     isValid <- verify hmacKey signature data ;;
     ret isValid)
    (fun error =>
       consoleError "HMAC verification error:" error ;;;
       ret false).

Record EncryptResult := {
  encrypted : list Z;
  salt : list Z;
  iv : list Z;
  key : CryptoKey;
  hmac : list Z;
}.

(** Lines 874-912 *)
Definition encryptFile (file : Validation.File) (pin : list Z)
  : M EncryptResult :=
  tryCatch
    (salt <- generateRandomBytes SALT_LENGTH ;;
     iv <- generateRandomBytes IV_LENGTH ;;
     progress 5 ;;;
     key <- deriveKeyFromPIN pin salt ;;
     progress 10 ;;;
     let fileData := Validation.content file in
     progress 30 ;;;
     encryptedData <- encryptData fileData key iv ;;
     progress 80 ;;;
     hmac <- computeHMAC encryptedData key ;;
     progress 90 ;;;
     let encryptedBlob := encryptedData in
     progress 100 ;;;
     ret {| encrypted := encryptedBlob; salt := salt; iv := iv;
            key := key; hmac := hmac |})
    (fun error =>
       consoleError "File encryption error:" error ;;;
       throw (encryptFilePrefix ++ error)).

(** Lines 924-955 *)
Definition decryptFile (encryptedBlob : list Z) (pin : list Z)
    (salt iv expectedHMAC : list Z) : M (list Z) :=
  tryCatch
    (progress 5 ;;;
     key <- deriveKeyFromPIN pin salt ;;
     progress 15 ;;;
     let encryptedData := encryptedBlob in
     progress 30 ;;;
     isValid <- verifyHMAC encryptedData expectedHMAC key ;;
     (if negb isValid then throw hmacFailedMessage else ret tt) ;;;
     progress 50 ;;;
     decryptedData <- decryptData encryptedData key iv ;;
     progress 90 ;;;
     let decryptedBlob := decryptedData in
     progress 100 ;;;
     ret decryptedBlob)
    (fun error =>
       consoleError "File decryption error:" error ;;;
       throw (decryptFilePrefix ++ error)).

End WithSubtle.

(** Lines 961-972; the argument is the address of a [Uint8Array]. *)
Definition clearSensitiveData (address : nat) : M unit := fill0 address.

(** Lines 989-1006 *)
Definition getCryptoErrorMessage (error : Js.Error) : string :=
  let message := Js.toLowerCase error in
  if Js.includes "secure context" message
  then "This app requires HTTPS. Please access via https:// or localhost"
  else if Js.includes "not supported" message
  then "Your browser does not support the required encryption features"
  else if Js.includes "decrypt" message
  then "Decryption failed - incorrect PIN or corrupted files"
  else if Js.includes "hmac" message
  then "File integrity check failed - the file may have been tampered with"
  else "An encryption error occurred. Please try again.".

End Crypto.

(** ** js/app.js: the two handlers *)

Module App.

Import Platform.
Local Open Scope js_scope.
Local Open Scope string_scope.

Section WithPlatform.

Context {S : Subtle} {B : Browser} {K : Stego.Context2D}.

(** Lines 329-395.  [file] and [pin] are what the page holds:
    [ui.uiState.encryptFile] and [ui.getPIN('encrypt')]. *)
Definition handleEncrypt (file : option Validation.File) (pin : list Z)
  : M unit :=
  tryCatchFinally
    (ui (SetProcessing true) ;;;
     ui (SetButtonLoading "encrypt" true) ;;;
     ui UpdateButtonStates ;;;
     let inputValidation := Validation.validateEncryptionInputs file pin in
     (if negb (Validation.allValid inputValidation)
      then throw (Validation.formatValidationErrors
                    (Validation.errors inputValidation))
      else ret tt) ;;;
     match file with
     | None => throw "Cannot read properties of null"
     | Some file =>
         ui (UpdateProgress "encrypt") ;;;
         ui (Announce "Encrypting file...") ;;;
         encryptResult <- Crypto.encryptFile file pin ;;
         ui (Announce "Generating key image...") ;;;
         let canvas := generateAbstractImage in
         exported <- Crypto.exportKey (Crypto.key encryptResult) ;;
         keyBytes <- alloc exported ;;
         ui (Announce "Embedding encryption key...") ;;;
         bytes <- load keyBytes ;;
         canvas <- ofResult
                     (fst (Stego.embedDataInImage canvas
                             (Crypto.salt encryptResult)
                             (Crypto.iv encryptResult)
                             (Crypto.hmac encryptResult) bytes)) ;;
         imageBlob <- ofResult (canvasToBlob canvas) ;;
         save {| savedEncrypted := Crypto.encrypted encryptResult;
                 savedImage := imageBlob;
                 originalFilename := Validation.name file |} ;;;
         ui (HideProgress "encrypt") ;;;
         ui (ShowSuccessModal (Validation.name file ++ ".encrypted")) ;;;
         ui (Announce "Encryption complete!") ;;;
         Crypto.clearSensitiveData keyBytes
     end)
    (fun error =>
       consoleError "Encryption error:" error ;;;
       ui (HideProgress "encrypt") ;;;
       ui (ShowErrorModal (Crypto.getCryptoErrorMessage error)) ;;;
       ui (ShowPINError "encrypt"))
    (ui (SetProcessing false) ;;;
     ui (SetButtonLoading "encrypt" false) ;;;
     ui UpdateButtonStates).

(** Lines 400-471 *)
Definition handleDecrypt (encryptedFile keyImage : option Validation.File)
    (pin : list Z) : M unit :=
  tryCatchFinally
    (ui (SetProcessing true) ;;;
     ui (SetButtonLoading "decrypt" true) ;;;
     ui UpdateButtonStates ;;;
     let inputValidation :=
       Validation.validateDecryptionInputs encryptedFile keyImage pin in
     (if negb (Validation.allValid inputValidation)
      then throw (Validation.formatValidationErrors
                    (Validation.errors inputValidation))
      else ret tt) ;;;
     match encryptedFile, keyImage with
     | Some encryptedFile, Some keyImage =>
         ui (UpdateProgress "decrypt") ;;;
         ui (Announce "Extracting encryption key from image...") ;;;
         canvas <- ofResult (loadImageToCanvas keyImage) ;;
         extractedData <- ofResult (Stego.extractDataFromImage canvas) ;;
         keyBytes <- alloc (Stego.keyBytes extractedData) ;;
         ui (Announce "Decrypting file...") ;;;
         decryptedBlob <- Crypto.decryptFile
                            (Validation.content encryptedFile) pin
                            (Stego.salt extractedData)
                            (Stego.iv extractedData)
                            (Stego.hmac extractedData) ;;
         let originalFilename :=
           Js.replace (Validation.name encryptedFile) ".encrypted" "" in
         ui (DownloadBlob decryptedBlob originalFilename) ;;;
         ui (HideProgress "decrypt") ;;;
         ui (Announce "Decryption complete! File downloaded.") ;;;
         ui (ShowToast "File decrypted successfully!") ;;;
         ui ResetFormLater ;;;
         Crypto.clearSensitiveData keyBytes
     | _, _ => throw "Cannot read properties of null"
     end)
    (fun error =>
       consoleError "Decryption error:" error ;;;
       ui (HideProgress "decrypt") ;;;
       ui (ShowErrorModal (Crypto.getCryptoErrorMessage error)) ;;;
       ui (ShowPINError "decrypt"))
    (ui (SetProcessing false) ;;;
     ui (SetButtonLoading "decrypt" false) ;;;
     ui UpdateButtonStates).

End WithPlatform.

End App.

(** ** A bitmap that keeps premultiplied colour

    A stand-in for the bitmap of a 2D context, with the laws of the real
    one: a colour byte is multiplied by alpha when it is written and divided
    by it when it is read, both rounded; at alpha 0 nothing of it is left,
    at alpha 255 all of it. *)

Module Premultiplied.

Definition keep (alpha colour : Z) : Z :=
  if alpha =? 0 then 0
  else ((colour * alpha + 127) / 255 * 255 + alpha / 2) / alpha.

Fixpoint premultiplied (pixels : list Z) : list Z :=
  match pixels with
  | r :: g :: b :: a :: rest =>
      keep a r :: keep a g :: keep a b :: a :: premultiplied rest
  | _ => pixels
  end.

#[global] Instance context2d : Context2D := {| stored := premultiplied |}.

End Premultiplied.

(** ** Sample inputs *)

Module Sample.

Definition bytesFrom (start n : nat) : list Z :=
  map (fun i => Z.of_nat (i * 37 mod 256)) (seq start n).

Definition salt : list Z := bytesFrom 1 16.
Definition iv : list Z := bytesFrom 17 12.
Definition keyBytes : list Z := bytesFrom 29 32.
Definition hmac : list Z := bytesFrom 61 32.

(** [n] opaque pixels of changing colour. *)
Definition opaquePixels (n : nat) : list Z :=
  mjoin (map (fun i => [Z.of_nat (i * 37 mod 256);
                        Z.of_nat (i * 11 mod 256);
                        Z.of_nat (i * 5 mod 256); 255])
             (seq 0 n)).

(** 16 x 16 = 256 pixels, the least that can carry the payload. *)
Definition canvas : Canvas :=
  {| width := 16; height := 16; data := opaquePixels 256 |}.


(** 15 x 17 = 255 pixels. *)
Definition smallCanvas : Canvas :=
  {| width := 15; height := 17; data := bytesFrom 100 1020 |}.

(** 64 x 64, every byte 0: black and transparent. *)
Definition blackCanvas : Canvas :=
  {| width := 64; height := 64; data := replicate (64 * 64 * 4) 0 |}.

(** 64 x 64, black and opaque. *)
Definition opaqueBlackCanvas : Canvas :=
  {| width := 64; height := 64;
     data := mjoin (replicate (64 * 64) [0; 0; 0; 255]) |}.

End Sample.

(** ** A small platform to run the code on

    Stand-ins for the algorithms with the interface and the laws of the real
    ones; they make the laws inhabited and let the handlers run on
    examples. *)

Module Toy.

Definition mix (l : list Z) : Z :=
  fold_left (fun a x => (a * 257 + x + 1) mod 65521) l 5381.

Definition stretch (seed : Z) (n : nat) : list Z :=
  map (fun i => (seed + Z.of_nat i * 13) mod 256) (seq 0 n).

Definition tag (k iv data : list Z) : list Z :=
  stretch (mix (k ++ iv ++ data)) 16.

Definition seal (k iv : list Z) (tagLength : Z) (data : list Z)
  : option (list Z) :=
  Some (map (Z.lxor (mix (k ++ iv) mod 256)) data ++ tag k iv data).

Definition unseal (k iv : list Z) (tagLength : Z) (c : list Z)
  : option (list Z) :=
  if (length c <? 16)%nat then None
  else
    let n := (length c - 16)%nat in
    let data := map (Z.lxor (mix (k ++ iv) mod 256)) (take n c) in
    if bool_decide (drop n c = tag k iv data) then Some data else None.

#[export] Instance subtle : Platform.Subtle := {|
  Platform.pbkdf2 password salt iterations hash bits :=
    Some (stretch (mix (password ++ salt) + iterations)
            (Z.to_nat (bits / 8)));
  Platform.aesGcmEncrypt := seal;
  Platform.aesGcmDecrypt := unseal;
  Platform.hmacSha256 k data := Some (stretch (mix (k ++ data)) 32);
|}.

(** A picture file is its width, its height and its RGBA bytes. *)
Definition decode (f : Validation.File) : Js.Error + Canvas :=
  match Validation.content f with
  | w :: h :: px =>
      if (length px =? 4 * (Z.to_nat w * Z.to_nat h))%nat
      then inr {| width := Z.to_nat w; height := Z.to_nat h; data := px |}
      else inl "Failed to load image"%string
  | _ => inl "Failed to load image"%string
  end.

Definition encode (c : Canvas) : Js.Error + list Z :=
  inr (Z.of_nat (width c) :: Z.of_nat (height c) :: data c).

#[export] Instance browser : Platform.Browser := {|
  Platform.generateAbstractImage := Sample.canvas;
  Platform.loadImageToCanvas := decode;
  Platform.canvasToBlob := encode;
|}.

(** A world to start from. *)
Definition world : Platform.World :=
  {| Platform.entropy := fun i => Z.of_nat (i * 101 + 17);
     Platform.drawn := 0; Platform.heap := [];
     Platform.encryptedFileData := None; Platform.trace := [] |}.

Definition pin : list Z := Js.str "493817".
Definition otherPin : list Z := Js.str "493818".

Definition file : Validation.File :=
  {| Validation.name := "notes.txt"; Validation.type := "text/plain";
     Validation.content := Js.str "attack at dawn" |}.

Definition emptyFile : Validation.File :=
  {| Validation.name := "empty.bin"; Validation.type := "";
     Validation.content := [] |}.

(** A browser whose [canvas.toBlob] gives no blob. *)
Definition brokenBrowser : Platform.Browser := {|
  Platform.generateAbstractImage := Sample.canvas;
  Platform.loadImageToCanvas := decode;
  Platform.canvasToBlob _ := inl "Failed to create blob from canvas"%string;
|}.

(** The world after [file] was encrypted with [pin], and the two files
    that the page then offers for download. *)
Definition afterEncrypt : Platform.World :=
  snd (App.handleEncrypt (Some file) pin world).

Definition encryptedFile : Validation.File :=
  {| Validation.name := "notes.txt.encrypted"; Validation.type := "";
     Validation.content :=
       from_option Platform.savedEncrypted []
         (Platform.encryptedFileData afterEncrypt) |}.

Definition keyImage : Validation.File :=
  {| Validation.name := "key-image.png"; Validation.type := "image/png";
     Validation.content :=
       from_option Platform.savedImage []
         (Platform.encryptedFileData afterEncrypt) |}.

(** What [encryptFile] makes of [file] and [pin] in [world]. *)
Definition sealed : Crypto.EncryptResult :=
  match fst (Crypto.encryptFile file pin world) with
  | inr r => r
  | inl _ =>
      {| Crypto.encrypted := []; Crypto.salt := []; Crypto.iv := [];
         Crypto.key := {| Platform.algorithm := Platform.AES_GCM;
                          Platform.extractable := true;
                          Platform.raw := [] |};
         Crypto.hmac := [] |}
  end.

End Toy.

(** ** What the two loops compute

    Payload bit [k] (most significant bit of byte 0 first) travels in the
    byte [chanIndex k] of the pixel buffer: pixel [k / 3], channel
    [k mod 3]. *)

Module StegoSpec.

Definition stegoBit (d : list Z) (k : nat) : Z :=
  Z.land (Z.shiftr (Js.num (d !! (k / 8)%nat)) (7 - Z.of_nat (k mod 8))) 1.

Definition chanIndex (k : nat) : nat := (4 * (k / 3) + k mod 3)%nat.

(** The payload bit that buffer index [j] carries, when [j] is not an
    alpha byte. *)
Definition slot (j : nat) : nat := (3 * (j / 4) + j mod 4)%nat.

Definition setLsb (v bit : Z) : Z := Z.lor (Z.land v 0xFE) bit.

(** The buffer after the first [k] payload bits were written. *)
Definition written (d : list Z) (k : nat) (px : list Z) : list Z :=
  imap (fun j v =>
          if (j mod 4 <? 3)%nat && (slot j <? k)%nat
          then setLsb v (stegoBit d (slot j))
          else v) px.

Definition embedAt (d px : list Z) (k : nat) : EmbedState :=
  {| pixels := written d k px;
     dataIndex := (k / 8)%nat; bitIndex := (k mod 8)%nat |}.

(** Byte [j] of the extracted array after its first [m] bits were read. *)
Fixpoint partialByte (px : list Z) (j m : nat) : Z :=
  match m with
  | O => 0
  | S m' =>
      Z.lor (partialByte px j m')
            (Z.shiftl (Z.land (Js.num (px !! chanIndex (8 * j + m'))) 1)
                      (7 - Z.of_nat m'))
  end.

Definition readAt (px : list Z) (total k : nat) : ExtractState :=
  {| allBytes :=
       map (fun j => partialByte px j (Nat.min 8 (k - 8 * j))) (seq 0 total);
     xDataIndex := (k / 8)%nat; xBitIndex := (k mod 8)%nat |}.

(** A byte put together again from its eight bits. *)
Fixpoint bitsOf (x : Z) (m : nat) : Z :=
  match m with
  | O => 0
  | S m' =>
      Z.lor (bitsOf x m')
            (Z.shiftl (Z.land (Z.shiftr x (7 - Z.of_nat m')) 1)
                      (7 - Z.of_nat m'))
  end.

End StegoSpec.

Import StegoSpec.

(** ** What the pipeline does, as results and lists of calls *)

Module Outcome.

Import Platform.

(** The extracted array has its size and holds bytes. *)
Definition shaped (total : nat) (s : ExtractState) : Prop :=
  length (allBytes s) = total /\ Js.bytes (allBytes s).

(** The six ASCII digits of a PIN *)
Definition digits (pin : list Z) : Prop :=
  length pin = 6%nat /\ Forall (fun c => 48 <= c <= 57) pin.

(** What a handler does once its [try] block has thrown. *)
Definition caught (mode label : string) (e : Js.Error) : list Event :=
  [ConsoleError label e; Ui (HideProgress mode);
   Ui (ShowErrorModal (Crypto.getCryptoErrorMessage e));
   Ui (ShowPINError mode);
   Ui (SetProcessing false); Ui (SetButtonLoading mode false);
   Ui UpdateButtonStates].

Definition entered (mode : string) : list Event :=
  [Ui (SetProcessing true); Ui (SetButtonLoading mode true);
   Ui UpdateButtonStates].

(** The messages of the error dialogs that were shown. *)
Definition shownErrors (t : list Event) : list string :=
  omap (fun e => match e with
                 | Ui (ShowErrorModal message) => Some message
                 | _ => None
                 end) t.

Section WithSubtle.

Context {S : Subtle}.

Definition derivedKey (k : list Z) : CryptoKey :=
  {| algorithm := AES_GCM; extractable := true; raw := k |}.

Definition deriveCalls (pin salt : list Z) : list Event :=
  [ImportKey PBKDF2 (Js.encodeUtf8 pin);
   DeriveKey (Js.encodeUtf8 pin) salt 100000 "SHA-256" 256].

(** What [computeHMAC] returns and what it calls after importing the
    key. *)
Definition signed (k data : list Z) : option (list Z) * list Event :=
  if (length k =? 0)%nat
  then (None, [ConsoleError "HMAC computation error:" dataError])
  else match hmacSha256 k data with
       | Some m => (Some m, [Sign k data])
       | None =>
           (None, [Sign k data;
                   ConsoleError "HMAC computation error:" operationError])
       end.

(** What [verifyHMAC] answers and what it calls. *)
Definition verified (k data signature : list Z) : bool * list Event :=
  if (length k =? 0)%nat
  then (false, [ConsoleError "HMAC verification error:" dataError])
  else match hmacSha256 k data with
       | Some m => (bool_decide (m = signature), [Verify k signature data])
       | None =>
           (false, [Verify k signature data;
                    ConsoleError "HMAC verification error:" operationError])
       end.

(** The result of [decryptFile] and the calls it makes, in order. *)
Definition decryptFileOutcome (blob pin salt iv mac : list Z)
  : (Js.Error + list Z) * list Event :=
  match pbkdf2 (Js.encodeUtf8 pin) salt 100000 "SHA-256" 256 with
  | None =>
      (inl (Crypto.decryptFilePrefix ++ Crypto.deriveMessage)%string,
       [Progress 5] ++ deriveCalls pin salt
         ++ [ConsoleError "Key derivation error:" operationError;
             ConsoleError "File decryption error:" Crypto.deriveMessage])
  | Some k =>
      let before :=
        [Progress 5] ++ deriveCalls pin salt
          ++ [Progress 15; Progress 30;
              ExportKey (derivedKey k); ImportKey HMAC k]
          ++ snd (verified k blob mac) in
      if fst (verified k blob mac)
      then match aesGcmDecrypt k iv 128 blob with
           | Some d =>
               (inr d,
                before ++ [Progress 50; Decrypt k iv blob;
                           Progress 90; Progress 100])
           | None =>
               (inl (Crypto.decryptFilePrefix ++ Crypto.decryptMessage)%string,
                before
                  ++ [Progress 50; Decrypt k iv blob;
                      ConsoleError "Decryption error:" operationError;
                      ConsoleError "File decryption error:"
                        Crypto.decryptMessage])
           end
      else
        (inl (Crypto.decryptFilePrefix ++ Crypto.hmacFailedMessage)%string,
         before ++ [ConsoleError "File decryption error:"
                      Crypto.hmacFailedMessage])
  end.

(** The result of [encryptFile] and the calls it makes, for the salt and
    the iv that were drawn. *)
Definition encryptFileOutcome (content pin salt iv : list Z)
  : (Js.Error + Crypto.EncryptResult) * list Event :=
  let start :=
    [GetRandomValues 16; GetRandomValues 12; Progress 5]
      ++ deriveCalls pin salt in
  match pbkdf2 (Js.encodeUtf8 pin) salt 100000 "SHA-256" 256 with
  | None =>
      (inl (Crypto.encryptFilePrefix ++ Crypto.deriveMessage)%string,
       start ++ [ConsoleError "Key derivation error:" operationError;
                 ConsoleError "File encryption error:" Crypto.deriveMessage])
  | Some k =>
      match aesGcmEncrypt k iv 128 content with
      | None =>
          (inl (Crypto.encryptFilePrefix ++ Crypto.encryptMessage)%string,
           start ++ [Progress 10; Progress 30; Encrypt k iv content;
                     ConsoleError "Encryption error:" operationError;
                     ConsoleError "File encryption error:"
                       Crypto.encryptMessage])
      | Some c =>
          let calls :=
            start ++ [Progress 10; Progress 30; Encrypt k iv content;
                      Progress 80;
                      ExportKey (derivedKey k); ImportKey HMAC k]
              ++ snd (signed k c) in
          match fst (signed k c) with
          | Some m =>
              (inr {| Crypto.encrypted := c; Crypto.salt := salt;
                      Crypto.iv := iv; Crypto.key := derivedKey k;
                      Crypto.hmac := m |},
               calls ++ [Progress 90; Progress 100])
          | None =>
              (inl (Crypto.encryptFilePrefix ++ Crypto.hmacMessage)%string,
               calls ++ [ConsoleError "File encryption error:"
                           Crypto.hmacMessage])
          end
      end
  end.

End WithSubtle.

End Outcome.

Import Outcome.

(** ** Unsigned words, [DataView] and array helpers *)

Module JsWords.

Definition toUint32 (z : Z) : Z := z mod 2 ^ 32.

(** [a ^ b], [a >>> n] *)
Definition bxor (a b : Z) : Z := Z.lxor (Js.toInt32 a) (Js.toInt32 b).
Definition shr (a n : Z) : Z := Z.shiftr (toUint32 a) (n mod 32).

(** The bytes of [value], least significant first. *)
Definition littleEndian (width : nat) (value : Z) : list Z :=
  map (fun i => (value / 256 ^ Z.of_nat i) mod 256) (seq 0 width).

(** [view.setUint16(byteOffset, value, true)] and
    [view.setUint32(byteOffset, value, true)]: a RangeError when the field
    does not fit. *)
Definition setUint16 (view : list Z) (byteOffset : nat) (value : Z)
  : option (list Z) :=
  Js.set view (littleEndian 2 (value mod 2 ^ 16)) byteOffset.
Definition setUint32 (view : list Z) (byteOffset : nat) (value : Z)
  : option (list Z) :=
  Js.set view (littleEndian 4 (toUint32 value)) byteOffset.

(** [a.every((val, idx) => val === b[idx])] *)
Definition everyEqual (a b : list Z) : bool :=
  forallb id (imap (fun idx val => bool_decide (b !! idx = Some val)) a).

(** [s.lastIndexOf(c)] for one code unit [c]; [None] is -1. *)
Fixpoint lastIndexOf (s : list Z) (c : Z) : option nat :=
  match s with
  | [] => None
  | x :: rest =>
      match lastIndexOf rest c with
      | Some i => Some (S i)
      | None => if x =? c then Some 0%nat else None
      end
  end.

(** The double quote, as a string. *)
Definition quote : string := String (ascii_of_nat 34) EmptyString.

End JsWords.

(** ** js/steganography.js: the self-test and the format check *)

Module StegoCheck.

(** Lines 271-290, for a file whose bytes can be read. *)
Definition verifyImageFormat (imageFile : Validation.File) : bool :=
  if String.eqb (Validation.type imageFile) EmptyString
     || negb (String.eqb (Validation.type imageFile) "image/png")
  then false
  else
    let bytes := Js.slice (Validation.content imageFile) 0 8 in
    bool_decide (bytes !! 0%nat = Some 0x89)
    && bool_decide (bytes !! 1%nat = Some 0x50)
    && bool_decide (bytes !! 2%nat = Some 0x4E)
    && bool_decide (bytes !! 3%nat = Some 0x47).

(** Lines 297-320: the answer, and the canvas as the call leaves it. *)
Definition testSteganography {K : Context2D} (canvas : Canvas)
  : bool * Canvas :=
  let testSalt := replicate SALT_SIZE 1 in
  let testIV := replicate IV_SIZE 2 in
  let testKey := replicate KEY_SIZE 3 in
  let testHMAC := replicate HMAC_SIZE 4 in
  match embedDataInImage canvas testSalt testIV testHMAC testKey with
  | (inl _, canvas) => (false, canvas)
  | (inr _, canvas) =>
      match extractDataFromImage canvas with
      | inl _ => (false, canvas)
      | inr extracted =>
          (JsWords.everyEqual (salt extracted) testSalt
           && JsWords.everyEqual (iv extracted) testIV
           && JsWords.everyEqual (keyBytes extracted) testKey
           && JsWords.everyEqual (hmac extracted) testHMAC,
           canvas)
      end
  end.

End StegoCheck.

(** ** js/fileHandler.js

    A file name is given by the user, so it is kept as the sequence of its
    UTF-16 code units, as a PIN is. *)

Module FileHandler.

Definition MAX_FILE_SIZE : Z := 1024 * 1024 * 1024.
Definition CHUNK_SIZE : nat := (10 * 1024 * 1024)%nat.

(** Lines 32-34 *)
Definition validateFileSize (file : Validation.File) : bool :=
  (0 <? Validation.size file) && (Validation.size file <=? MAX_FILE_SIZE).

(** Lines 41-44 *)
Definition getFileExtension (filename : list Z) : list Z :=
  match JsWords.lastIndexOf filename 46 with
  | Some lastDot => drop lastDot filename
  | None => []
  end.

(** The character class of the two regular expressions: the nine
    characters that no file name may hold, and the control characters
    0x00 to 0x1F. *)
Definition unsafeChar (c : Z) : bool :=
  (c =? 60) || (c =? 62) || (c =? 58) || (c =? 34) || (c =? 47)
  || (c =? 92) || (c =? 124) || (c =? 63) || (c =? 42)
  || ((0 <=? c) && (c <=? 0x1F)).

(** Lines 51-56 *)
Definition sanitizeFilename (filename : list Z) : list Z :=
  take 255 (map (fun c => if unsafeChar c then 95 else c) filename).

(** Lines 85-125.  [reader.onload] and [readNextChunk] call each other;
    every round but the last reads at least one byte, so one round more
    than the file has bytes is all there can be.  The result is the chunks
    and the calls of the progress callback. *)
Fixpoint readNextChunk (fuel : nat) (content : list Z) (offset : nat)
    (chunks : list (list Z)) (calls : list (nat * nat))
  : list (list Z) * list (nat * nat) :=
  match fuel with
  | O => (chunks, calls)
  | S fuel' =>
      let result := Js.slice content offset (offset + CHUNK_SIZE) in
      let chunks := chunks ++ [result] in
      let offset := (offset + length result)%nat in
      let calls := calls ++ [(offset, length content)] in
      if (offset <? length content)%nat
      then readNextChunk fuel' content offset chunks calls
      else (chunks, calls)
  end.

(** [for (const chunk of chunks) { combined.set(chunk, position); ... }] *)
Fixpoint combine (chunks : list (list Z)) (combined : list Z)
    (position : nat) : option (list Z) :=
  match chunks with
  | [] => Some combined
  | chunk :: rest =>
      combined ← Js.set combined chunk position;
      combine rest combined (position + length chunk)
  end.

Definition readFileInChunks (file : Validation.File)
  : option (list Z) * list (nat * nat) :=
  let (chunks, calls) :=
    readNextChunk (S (length (Validation.content file)))
      (Validation.content file) 0 [] [] in
  let totalLength :=
    fold_left (fun acc chunk => (acc + length chunk)%nat) chunks 0%nat in
  (combine chunks (Js.zeros totalLength) 0, calls).

End FileHandler.

(** ** js/validation.js: file names and the PIN generator *)

Module ValidationTools.

Import Validation.
Import Platform.
Local Open Scope js_scope.

(** Lines 197-216 *)
Definition validateFilename (filename : list Z) : Result :=
  if (length filename =? 0)%nat then fails "Filename is empty"
  else if (255 <? length filename)%nat
  then fails "Filename is too long (max 255 characters)"
  else if existsb FileHandler.unsafeChar filename
  then fails ("Filename contains invalid characters: < > : "
                ++ JsWords.quote ++ " / \ | ? *")%string
  else ok.

(** Lines 298-306: each of six random bytes, modulo 10, as a decimal
    number; the six of them joined. *)
Definition generateRandomPIN : M (list Z) :=
  array <- getRandomValues 6 ;;
  ret (mjoin (map (fun n => Js.str (Js.ofNat (Z.to_nat (Z.rem n 10))))
                array)).

End ValidationTools.

(** ** js/crypto.js: importKey *)

Module CryptoKeys.

Import Platform.
Local Open Scope js_scope.

Definition importMessage : Js.Error := "Failed to import key"%string.

(** Lines 735-749 *)
Definition importKey (keyBytes : list Z) : M CryptoKey :=
  tryCatch
    (key <- Platform.importKey keyBytes AES_GCM false ;;
     ret key)
    (fun error =>
       consoleError "Key import error:" error ;;;
       throw importMessage).

End CryptoKeys.

(** ** js/app.js: the ZIP archive of the two downloads *)

Module Zip.

Import JsWords.

(** Line 598: one round of the inner loop. *)
Definition crcShift (crc : Z) : Z :=
  bxor (shr crc 1) (if Js.band crc 1 =? 0 then 0 else 0xEDB88320).

(** Lines 596-599: the body of the outer loop. *)
Definition crcByte (crc byte : Z) : Z :=
  Nat.iter 8 crcShift (bxor crc byte).

(** Lines 593-602 *)
Definition crc32 (data : list Z) : Z :=
  let crc := fold_left crcByte data 0xFFFFFFFF in
  shr (bxor crc 0xFFFFFFFF) 0.

(** An element of [files]: the name, as code units, and the bytes. *)
Record ZipFile := { name : list Z; data : list Z }.

(** Lines 533-546 *)
Definition localHeader (nameBytes : list Z) (crc : Z) (dataLength : nat)
  : option (list Z) :=
  let localHeader := Js.zeros (30 + length nameBytes) in
  h ← setUint32 localHeader 0 0x04034b50;
  h ← setUint16 h 4 20;
  h ← setUint16 h 6 0;
  h ← setUint16 h 8 0;
  h ← setUint16 h 10 0;
  h ← setUint16 h 12 0;
  h ← setUint32 h 14 crc;
  h ← setUint32 h 18 (Z.of_nat dataLength);
  h ← setUint32 h 22 (Z.of_nat dataLength);
  h ← setUint16 h 26 (Z.of_nat (length nameBytes));
  h ← setUint16 h 28 0;
  Js.set h nameBytes 30.

(** Lines 551-570 *)
Definition cdEntry (nameBytes : list Z) (crc : Z) (dataLength offset : nat)
  : option (list Z) :=
  let cdEntry := Js.zeros (46 + length nameBytes) in
  e ← setUint32 cdEntry 0 0x02014b50;
  e ← setUint16 e 4 20;
  e ← setUint16 e 6 20;
  e ← setUint16 e 8 0;
  e ← setUint16 e 10 0;
  e ← setUint16 e 12 0;
  e ← setUint16 e 14 0;
  e ← setUint32 e 16 crc;
  e ← setUint32 e 20 (Z.of_nat dataLength);
  e ← setUint32 e 24 (Z.of_nat dataLength);
  e ← setUint16 e 28 (Z.of_nat (length nameBytes));
  e ← setUint16 e 30 0;
  e ← setUint16 e 32 0;
  e ← setUint16 e 34 0;
  e ← setUint16 e 36 0;
  e ← setUint32 e 38 0;
  e ← setUint32 e 42 (Z.of_nat offset);
  Js.set e nameBytes 46.

(** The variables of the loop over [files]. *)
Record ZipState :=
  { parts : list (list Z); centralDir : list (list Z); offset : nat }.

(** Lines 528-574 *)
Fixpoint addFiles (files : list ZipFile) (s : ZipState) : option ZipState :=
  match files with
  | [] => Some s
  | file :: rest =>
      let nameBytes := Js.encodeUtf8 (name file) in
      let crc := crc32 (data file) in
      h ← localHeader nameBytes crc (length (data file));
      e ← cdEntry nameBytes crc (length (data file)) (offset s);
      addFiles rest
        {| parts := parts s ++ [h; data file];
           centralDir := centralDir s ++ [e];
           offset := (offset s + (length h + length (data file)))%nat |}
  end.

(** Lines 579-588 *)
Definition endOfCentralDirectory (count cdSize offset : nat)
  : option (list Z) :=
  let eocd := Js.zeros 22 in
  e ← setUint32 eocd 0 0x06054b50;
  e ← setUint16 e 4 0;
  e ← setUint16 e 6 0;
  e ← setUint16 e 8 (Z.of_nat count);
  e ← setUint16 e 10 (Z.of_nat count);
  e ← setUint32 e 12 (Z.of_nat cdSize);
  e ← setUint32 e 16 (Z.of_nat offset);
  setUint16 e 20 0.

(** Lines 523-591: the bytes of the blob. *)
Definition createZip (files : list ZipFile) : option (list Z) :=
  s ← addFiles files {| parts := []; centralDir := []; offset := 0 |};
  let cdSize :=
    fold_left (fun sum e => (sum + length e)%nat) (centralDir s) 0%nat in
  eocd ← endOfCentralDirectory (length files) cdSize (offset s);
  Some (concat (parts s ++ centralDir s ++ [eocd])).

End Zip.

(** ** The archive, field by field *)

Module ZipSpec.

Import JsWords.

Definition nameBytes (f : Zip.ZipFile) : list Z :=
  Js.encodeUtf8 (Zip.name f).

(** The local header of a file, without the name. *)
Definition localFields (f : Zip.ZipFile) : list Z :=
  [0x50; 0x4B; 0x03; 0x04; 20; 0; 0; 0; 0; 0; 0; 0; 0; 0]
    ++ littleEndian 4 (Zip.crc32 (Zip.data f))
    ++ littleEndian 4 (toUint32 (Z.of_nat (length (Zip.data f))))
    ++ littleEndian 4 (toUint32 (Z.of_nat (length (Zip.data f))))
    ++ littleEndian 2 (Z.of_nat (length (nameBytes f)) mod 2 ^ 16)
    ++ [0; 0].

Definition localPart (f : Zip.ZipFile) : list Z :=
  localFields f ++ nameBytes f ++ Zip.data f.

(** The entry of a file in the central directory, without the name;
    [offset] is where its local header starts. *)
Definition centralFields (f : Zip.ZipFile) (offset : nat) : list Z :=
  [0x50; 0x4B; 0x01; 0x02; 20; 0; 20; 0; 0; 0; 0; 0; 0; 0; 0; 0]
    ++ littleEndian 4 (Zip.crc32 (Zip.data f))
    ++ littleEndian 4 (toUint32 (Z.of_nat (length (Zip.data f))))
    ++ littleEndian 4 (toUint32 (Z.of_nat (length (Zip.data f))))
    ++ littleEndian 2 (Z.of_nat (length (nameBytes f)) mod 2 ^ 16)
    ++ [0; 0; 0; 0; 0; 0; 0; 0; 0; 0; 0; 0]
    ++ littleEndian 4 (toUint32 (Z.of_nat offset)).

Definition centralPart (f : Zip.ZipFile) (offset : nat) : list Z :=
  centralFields f offset ++ nameBytes f.

Definition localSize (f : Zip.ZipFile) : nat :=
  (30 + length (nameBytes f) + length (Zip.data f))%nat.
Definition centralSize (f : Zip.ZipFile) : nat :=
  (46 + length (nameBytes f))%nat.

Definition total (size : Zip.ZipFile -> nat) (files : list Zip.ZipFile)
  : nat :=
  foldr (fun f n => (size f + n)%nat) 0%nat files.

(** The central directory of [files], the first local header being at
    [offset]. *)
Fixpoint centralParts (files : list Zip.ZipFile) (offset : nat) : list Z :=
  match files with
  | [] => []
  | f :: rest =>
      centralPart f offset ++ centralParts rest (offset + localSize f)
  end.

Definition endRecord (count cdSize offset : nat) : list Z :=
  [0x50; 0x4B; 0x05; 0x06; 0; 0; 0; 0]
    ++ littleEndian 2 (Z.of_nat count mod 2 ^ 16)
    ++ littleEndian 2 (Z.of_nat count mod 2 ^ 16)
    ++ littleEndian 4 (toUint32 (Z.of_nat cdSize))
    ++ littleEndian 4 (toUint32 (Z.of_nat offset))
    ++ [0; 0].

(** CRC-32 over unsigned words: the reflected polynomial 0xEDB88320, the
    register starting from and finally inverted with 0xFFFFFFFF. *)
Definition shiftWord (c : Z) : Z :=
  Z.lxor (Z.shiftr c 1) (if Z.odd c then 0xEDB88320 else 0).
Definition crcWord (data : list Z) : Z :=
  Z.lxor
    (fold_left (fun c byte => Nat.iter 8 shiftWord (Z.lxor c byte))
       data 0xFFFFFFFF)
    0xFFFFFFFF.

(** The number that little-endian bytes stand for. *)
Definition leValue (b : list Z) : Z :=
  foldr (fun x acc => x + 256 * acc) 0 b.

End ZipSpec.

(** ** More of what the platform promises *)

Module PlatformLaws.

Import Platform.

(** Keys and MACs are arrays of bytes, a MAC of SHA-256 has 32 of them,
    and an AES-GCM ciphertext is the length of the data and the 16 bytes
    of the tag. *)
Class SubtleBytes (S : Subtle) : Prop := {
  key_bytes : forall password salt iterations hash bits k,
    pbkdf2 password salt iterations hash bits = Some k -> Js.bytes k;
  mac_bytes : forall k data m,
    hmacSha256 k data = Some m -> length m = 32%nat /\ Js.bytes m;
  ciphertext_length : forall k iv data c,
    aesGcmEncrypt k iv 128 data = Some c ->
    length c = (length data + 16)%nat;
}.

(** PNG keeps every opaque pixel: what [canvas.toBlob] writes for a canvas
    that has pixels, [loadImageToCanvas] reads back, whatever the name of
    the file, as a canvas of as many bytes with the same bytes in every
    opaque pixel.  The cover art is 1200 x 1200 and has room for the
    payload.  Nothing is promised of the alpha values of the cover art:
    [generateWavePattern] leaves three pixels of four transparent. *)
Class BrowserLaws (B : Browser) : Prop := {
  art_wellFormed : wellFormed generateAbstractImage;
  art_capacity : (256 <= pixelCount generateAbstractImage)%nat;
  png_opaque : forall c,
    wellFormed c -> (0 < pixelCount c)%nat ->
    exists blob,
      canvasToBlob c = inr blob /\ blob <> []
      /\ forall name,
           exists c',
             loadImageToCanvas
               {| Validation.name := name; Validation.type := "image/png";
                  Validation.content := blob |}
             = inr c'
             /\ length (data c') = length (data c)
             /\ forall p channel,
                  (channel < 4)%nat -> opaqueAt (data c) p ->
                  data c' !! (4 * p + channel)%nat
                  = data c !! (4 * p + channel)%nat;
}.

End PlatformLaws.

(** ** A browser with an opaque cover art, and one that draws waves *)

Module ToyPage.

Definition art : Canvas :=
  {| width := 16; height := 16; data := Sample.opaquePixels 256 |}.

Definition browser : Platform.Browser := {|
  Platform.generateAbstractImage := art;
  Platform.loadImageToCanvas := Toy.decode;
  Platform.canvasToBlob := Toy.encode;
|}.

(** A picture made as [generateWavePattern] makes it (imageGenerator.js,
    lines 272-299): the image data of [createImageData] is transparent
    black, the two loops step [y] and [x] by 2 and set a colour and the
    alpha value 255 there and nowhere else, and [putImageData] replaces
    the canvas by it. *)
Definition wavePixels (width height : nat) : list Z :=
  mjoin (map (fun i =>
                let x := (i mod width)%nat in
                let y := (i / width)%nat in
                if Nat.even x && Nat.even y
                then [Z.of_nat ((x * 7 + y * 13) mod 256);
                      Z.of_nat ((x * 3 + y * 29) mod 256);
                      Z.of_nat ((x * 11 + y * 5) mod 256); 255]
                else [0; 0; 0; 0])
             (seq 0 (width * height))).

Definition waveArt : Canvas :=
  {| width := 16; height := 16; data := stored (wavePixels 16 16) |}.

Definition waveBrowser : Platform.Browser := {|
  Platform.generateAbstractImage := waveArt;
  Platform.loadImageToCanvas := Toy.decode;
  Platform.canvasToBlob := Toy.encode;
|}.

(** The ciphertext of [Toy.sealed] as a file, and a key image that
    carries its salt, iv and MAC next to the given key bytes. *)
Definition encryptedFile : Validation.File :=
  {| Validation.name := "notes.txt.encrypted"; Validation.type := "";
     Validation.content := Crypto.encrypted Toy.sealed |}.

Definition keyImage (keyBytes : list Z) : Validation.File :=
  {| Validation.name := "key-image.png"; Validation.type := "image/png";
     Validation.content :=
       match
         Toy.encode
           (snd (embedDataInImage art (Crypto.salt Toy.sealed)
                   (Crypto.iv Toy.sealed) (Crypto.hmac Toy.sealed)
                   keyBytes))
       with
       | inr blob => blob
       | inl _ => []
       end |}.

End ToyPage.

Ltac Zify.zify_post_hook ::= Z.to_euclidean_division_equations.

#[local] Arguments Nat.modulo : simpl never.
#[local] Arguments Nat.div : simpl never.
#[local] Arguments Nat.mul : simpl never.
#[local] Arguments Nat.min : simpl never.

(** ** Bytes *)

Section Bytes.

Lemma byte_cases (P : Z -> bool) :
  forallb P (map Z.of_nat (seq 0 256)) = true ->
  forall x, 0 <= x < 256 -> P x = true.
Proof.
  intros H x Hx. rewrite forallb_forall in H. apply H.
  apply in_map_iff. exists (Z.to_nat x). split; [lia|].
  apply in_seq. lia.
Qed.

Lemma bit_cases (P : Z -> bool) :
  P 0 = true -> P 1 = true -> forall w, P (Z.land w 1) = true.
Proof.
  intros H0 H1 w. change 1 with (Z.ones 1) at 1.
  rewrite Z.land_ones by lia.
  assert (w mod 2 ^ 1 = 0 \/ w mod 2 ^ 1 = 1) as [-> | ->] by lia; done.
Qed.

Lemma land_254_mod v : Z.land v 0xFE = Z.land (v mod 256) 0xFE.
Proof.
  change 256 with (2 ^ 8). rewrite <- Z.land_ones by lia.
  rewrite <- Z.land_assoc. reflexivity.
Qed.

Lemma setLsb_range v w : 0 <= setLsb v (Z.land w 1) < 256.
Proof.
  unfold setLsb. rewrite land_254_mod.
  assert (0 <= v mod 256 < 256) as Hv by (apply Z.mod_pos_bound; lia).
  revert Hv. generalize (v mod 256). intros a Ha.
  pose (P := fun b a => (0 <=? Z.lor (Z.land a 0xFE) b)
                        && (Z.lor (Z.land a 0xFE) b <? 256)).
  assert (P (Z.land w 1) a = true) as HP.
  { apply (bit_cases (fun b => P b a));
      apply (byte_cases (P _)); try done; vm_compute; reflexivity. }
  unfold P in HP. lia.
Qed.

Lemma setLsb_clamp v w :
  Js.toUint8Clamp (setLsb v (Z.land w 1)) = setLsb v (Z.land w 1).
Proof. pose proof (setLsb_range v w). unfold Js.toUint8Clamp. lia. Qed.

Lemma setLsb_lsb v w : Z.land (setLsb v (Z.land w 1)) 1 = Z.land w 1.
Proof.
  unfold setLsb. rewrite land_254_mod.
  assert (0 <= v mod 256 < 256) as Hv by (apply Z.mod_pos_bound; lia).
  revert Hv. generalize (v mod 256). intros a Ha.
  pose (P := fun b a => Z.land (Z.lor (Z.land a 0xFE) b) 1 =? b).
  assert (P (Z.land w 1) a = true) as HP.
  { apply (bit_cases (fun b => P b a));
      apply (byte_cases (P _)); try done; vm_compute; reflexivity. }
  unfold P in HP. lia.
Qed.


Lemma bitsOf_byte x : 0 <= x < 256 -> bitsOf x 8 = x.
Proof.
  intros Hx.
  assert ((bitsOf x 8 =? x) = true) as H
    by (apply (byte_cases (fun x => bitsOf x 8 =? x)); [vm_compute|]; done).
  lia.
Qed.

End Bytes.

(** ** The loops end by themselves

    The fuel of the four loop functions is never what stops them: three
    rounds are all a channel loop can make, and a pixel loop that starts at
    0 is over after as many rounds as the buffer has bytes.  More fuel
    changes nothing. *)

Section Fuel.

Lemma length_embedBit d i s :
  length (pixels (embedBit d i s)) = length (pixels s).
Proof.
  unfold embedBit. destruct (_ =? _)%nat; cbn [pixels]; apply length_insert.
Qed.

Lemma length_embedChannels fuel d i channel s :
  length (pixels (embedChannels fuel d i channel s)) = length (pixels s).
Proof.
  revert channel s. induction fuel as [|fuel IH]; intros channel s;
    cbn [embedChannels]; [done|].
  destruct (_ && _); [|done]. by rewrite IH, length_embedBit.
Qed.

Lemma embedChannels_more fuel d i channel s :
  (3 <= channel + fuel)%nat ->
  embedChannels (S fuel) d i channel s = embedChannels fuel d i channel s.
Proof.
  revert channel s. induction fuel as [|fuel IH]; intros channel s H.
  - cbn [embedChannels].
    replace (channel <? 3)%nat with false by (symmetry; apply Nat.ltb_ge; lia).
    done.
  - change (embedChannels (S (S fuel)) d i channel s)
      with (if (channel <? 3)%nat && (dataIndex s <? length d)%nat
            then embedChannels (S fuel) d i (S channel)
                   (embedBit d (i + channel) s)
            else s).
    cbn [embedChannels]. destruct (_ && _); [|done]. apply IH. lia.
Qed.

Lemma embedPixels_more fuel d i s :
  (length (pixels s) <= i + 4 * fuel)%nat ->
  embedPixels (S fuel) d i s = embedPixels fuel d i s.
Proof.
  revert i s. induction fuel as [|fuel IH]; intros i s H.
  - cbn [embedPixels].
    replace (i <? length (pixels s))%nat with false
      by (symmetry; apply Nat.ltb_ge; lia).
    done.
  - change (embedPixels (S (S fuel)) d i s)
      with (if (i <? length (pixels s))%nat && (dataIndex s <? length d)%nat
            then embedPixels (S fuel) d (i + 4) (embedChannels 3 d i 0 s)
            else s).
    cbn [embedPixels]. destruct (_ && _); [|done]. apply IH.
    rewrite length_embedChannels. lia.
Qed.

Lemma embedLoop_fuel d px extra :
  embedPixels (length px + extra) d 0
    {| pixels := px; dataIndex := 0; bitIndex := 0 |}
  = embedLoop d px.
Proof.
  induction extra as [|extra IH]; [by rewrite Nat.add_0_r|].
  rewrite Nat.add_succ_r, embedPixels_more; [done|]. cbn [pixels]. lia.
Qed.

Lemma extractChannels_more fuel px total i channel s :
  (3 <= channel + fuel)%nat ->
  extractChannels (S fuel) px total i channel s
  = extractChannels fuel px total i channel s.
Proof.
  revert channel s. induction fuel as [|fuel IH]; intros channel s H.
  - cbn [extractChannels].
    replace (channel <? 3)%nat with false by (symmetry; apply Nat.ltb_ge; lia).
    done.
  - change (extractChannels (S (S fuel)) px total i channel s)
      with (if (channel <? 3)%nat && (xDataIndex s <? total)%nat
            then extractChannels (S fuel) px total i (S channel)
                   (extractBit px (i + channel) s)
            else s).
    cbn [extractChannels]. destruct (_ && _); [|done]. apply IH. lia.
Qed.

Lemma extractPixels_more fuel px total i s :
  (length px <= i + 4 * fuel)%nat ->
  extractPixels (S fuel) px total i s = extractPixels fuel px total i s.
Proof.
  revert i s. induction fuel as [|fuel IH]; intros i s H.
  - cbn [extractPixels].
    replace (i <? length px)%nat with false
      by (symmetry; apply Nat.ltb_ge; lia).
    done.
  - change (extractPixels (S (S fuel)) px total i s)
      with (if (i <? length px)%nat && (xDataIndex s <? total)%nat
            then extractPixels (S fuel) px total (i + 4)
                   (extractChannels 3 px total i 0 s)
            else s).
    cbn [extractPixels]. destruct (_ && _); [|done]. apply IH. lia.
Qed.

Lemma extractLoop_fuel px total extra :
  extractPixels (length px + extra) px total 0
    {| allBytes := Js.zeros total; xDataIndex := 0; xBitIndex := 0 |}
  = extractLoop px total.
Proof.
  induction extra as [|extra IH]; [by rewrite Nat.add_0_r|].
  rewrite Nat.add_succ_r, extractPixels_more; [done|]. lia.
Qed.

End Fuel.

(** ** The embedding loop *)

Section EmbedLoop.

Variable d : list Z.

Lemma chanIndex_slot k : slot (chanIndex k) = k.
Proof. unfold slot, chanIndex. lia. Qed.

Lemma chanIndex_rgb k : (chanIndex k mod 4 < 3)%nat.
Proof. unfold chanIndex. lia. Qed.

Lemma slot_chanIndex j : (j mod 4 < 3)%nat -> chanIndex (slot j) = j.
Proof. unfold slot, chanIndex. lia. Qed.

Lemma chanIndex_pixel p c : (c < 3)%nat -> chanIndex (3 * p + c) = (4 * p + c)%nat.
Proof. unfold chanIndex. lia. Qed.

Lemma length_written k px : length (written d k px) = length px.
Proof. apply length_imap. Qed.

Lemma written_0 px : written d 0 px = px.
Proof.
  apply list_eq. intros j. unfold written. rewrite list_lookup_imap.
  destruct (px !! j); simpl; [|done].
  by rewrite andb_false_r.
Qed.

Lemma lookup_written k px j :
  written d k px !! j =
  (fun v => if (j mod 4 <? 3)%nat && (slot j <? k)%nat
            then setLsb v (stegoBit d (slot j)) else v) <$> px !! j.
Proof. unfold written. by rewrite list_lookup_imap. Qed.

Lemma written_step k px :
  <[chanIndex k :=
      Js.toUint8Clamp
        (Z.lor (Z.land (Js.num (written d k px !! chanIndex k)) 0xFE)
               (stegoBit d k))]> (written d k px)
  = written d (S k) px.
Proof.
  apply list_eq. intros j.
  destruct (decide (j = chanIndex k)) as [-> | Hne].
  - destruct (decide (chanIndex k < length px)%nat) as [Hin | Hout].
    + rewrite list_lookup_insert_eq by (by rewrite length_written).
      rewrite !lookup_written, chanIndex_slot.
      destruct (lookup_lt_is_Some_2 px _ Hin) as [v ->]. simpl.
      replace (k <? k)%nat with false by (symmetry; apply Nat.ltb_ge; lia).
      replace (k <? S k)%nat with true by (symmetry; apply Nat.ltb_lt; lia).
      rewrite andb_false_r.
      replace (chanIndex k mod 4 <? 3)%nat with true
        by (symmetry; apply Nat.ltb_lt, chanIndex_rgb).
      simpl. f_equal. unfold stegoBit. apply (setLsb_clamp v).
    + rewrite list_insert_ge by (rewrite length_written; lia).
      rewrite !lookup_written.
      by rewrite (lookup_ge_None_2 px) by lia.
  - rewrite list_lookup_insert_ne by done.
    rewrite !lookup_written. destruct (px !! j); simpl; [|done].
    destruct (Nat.ltb_spec (j mod 4) 3) as [Hc|]; simpl; [|done].
    assert (slot j <> k) by (intros <-; by rewrite slot_chanIndex in Hne).
    destruct (Nat.ltb_spec (slot j) k), (Nat.ltb_spec (slot j) (S k));
      done || lia.
Qed.

Lemma embedBit_step px k :
  embedBit d (chanIndex k) (embedAt d px k) = embedAt d px (S k).
Proof.
  unfold embedBit, embedAt. simpl.
  fold (stegoBit d k). rewrite written_step.
  destruct (Nat.eqb_spec (k mod 8) 7); f_equal; lia.
Qed.

Local Abbreviation K := (8 * length d)%nat.

Lemma embedChannels_run px p fuel c :
  (c <= 3)%nat -> (3 - c <= fuel)%nat -> (3 * p + c <= K)%nat ->
  embedChannels fuel d (4 * p) c (embedAt d px (3 * p + c))
  = embedAt d px (Nat.min (3 * p + 3) K).
Proof.
  revert c.
  induction fuel as [|fuel IH]; intros c Hc Hf Hk; cbn [embedChannels].
  - f_equal. lia.
  - change (dataIndex (embedAt d px (3 * p + c))) with ((3 * p + c) / 8)%nat.
    destruct (Nat.ltb_spec c 3) as [Hc3|Hc3]; cbn [andb].
    + destruct (Nat.ltb_spec ((3 * p + c) / 8) (length d)) as [Hd|Hd].
      * rewrite <- (chanIndex_pixel p c) by done.
        rewrite embedBit_step.
        replace (S (3 * p + c)) with (3 * p + S c)%nat by lia.
        apply IH; lia.
      * f_equal. lia.
    + f_equal. lia.
Qed.

Lemma embedPixels_run px fuel p :
  (K <= 3 * (length px / 4))%nat -> (K <= 3 * (p + fuel))%nat ->
  embedPixels fuel d (4 * p) (embedAt d px (Nat.min (3 * p) K))
  = embedAt d px K.
Proof.
  intros Hcap. revert p.
  induction fuel as [|fuel IH]; intros p Hf; cbn [embedPixels].
  - f_equal. lia.
  - change (pixels (embedAt d px (Nat.min (3 * p) K)))
      with (written d (Nat.min (3 * p) K) px).
    change (dataIndex (embedAt d px (Nat.min (3 * p) K)))
      with (Nat.min (3 * p) K / 8)%nat.
    rewrite length_written.
    destruct (Nat.ltb_spec (3 * p) K) as [Hlt|Hge].
    + replace (Nat.min (3 * p) K) with (3 * p + 0)%nat by lia.
      replace (4 * p <? length px)%nat with true
        by (symmetry; apply Nat.ltb_lt; lia).
      replace ((3 * p + 0) / 8 <? length d)%nat with true
        by (symmetry; apply Nat.ltb_lt; lia).
      cbn [andb]. rewrite embedChannels_run by lia.
      replace (4 * p + 4)%nat with (4 * S p)%nat by lia.
      replace (3 * p + 3)%nat with (3 * S p)%nat by lia.
      apply IH. lia.
    + replace (Nat.min (3 * p) K) with K by lia.
      replace (K / 8 <? length d)%nat with false
        by (symmetry; apply Nat.ltb_ge; lia).
      by rewrite andb_false_r.
Qed.

(** With room for every bit the loop ends because the payload is used up,
    and has then written exactly the [8 * length d] bits. *)
Lemma embedLoop_run px :
  (8 * length d <= 3 * (length px / 4))%nat ->
  embedLoop d px = embedAt d px (8 * length d).
Proof.
  intros Hcap. unfold embedLoop.
  rewrite <- (embedPixels_run px (length px) 0 Hcap) by lia.
  unfold embedAt. change (Nat.min (3 * 0) K) with 0%nat.
  by rewrite written_0.
Qed.

End EmbedLoop.

(** ** The extraction loop *)

Section ExtractLoop.

Variable px : list Z.
Variable total : nat.

Local Abbreviation K := (8 * total)%nat.

Lemma lor_bit_byte a w m :
  0 <= a < 256 -> (m < 8)%nat ->
  0 <= Z.lor a (Z.shiftl (Z.land w 1) (7 - Z.of_nat m)) < 256.
Proof.
  intros Ha Hm.
  pose (Q := fun s b a =>
               (0 <=? Z.lor a (Z.shiftl b s)) && (Z.lor a (Z.shiftl b s) <? 256)).
  assert (Q (7 - Z.of_nat m) (Z.land w 1) a = true) as HQ.
  { apply (bit_cases (fun b => Q _ b a));
      do 8 (destruct m as [|m];
            [apply (byte_cases (Q _ _)); [vm_compute|]; done|]); lia. }
  unfold Q in HQ. lia.
Qed.

Lemma partialByte_byte j m : (m <= 8)%nat -> 0 <= partialByte px j m < 256.
Proof.
  induction m as [|m IH]; intros Hm; cbn [partialByte]; [lia|].
  apply lor_bit_byte; [apply IH|]; lia.
Qed.

Lemma lookup_readAt k j :
  (j < total)%nat ->
  allBytes (readAt px total k) !! j
  = Some (partialByte px j (Nat.min 8 (k - 8 * j))).
Proof.
  intros Hj. unfold readAt. cbn [allBytes].
  by rewrite list_lookup_fmap, lookup_seq_lt.
Qed.

Lemma length_readAt k : length (allBytes (readAt px total k)) = total.
Proof. unfold readAt. cbn [allBytes]. by rewrite length_map, length_seq. Qed.

Lemma readAt_step k :
  (k < K)%nat ->
  <[(k / 8)%nat :=
      Js.toUint8
        (Z.lor (Js.num (allBytes (readAt px total k) !! (k / 8)%nat))
               (Z.shiftl (Z.land (Js.num (px !! chanIndex k)) 1)
                         (7 - Z.of_nat (k mod 8))))]>
    (allBytes (readAt px total k))
  = allBytes (readAt px total (S k)).
Proof.
  intros Hk. apply list_eq. intros j.
  destruct (decide (j = k / 8)%nat) as [-> | Hne].
  - rewrite list_lookup_insert_eq by (rewrite length_readAt; lia).
    rewrite !lookup_readAt by lia. cbn [Js.num default].
    replace (Nat.min 8 (k - 8 * (k / 8))) with (k mod 8)%nat by lia.
    replace (Nat.min 8 (S k - 8 * (k / 8))) with (S (k mod 8)) by lia.
    cbn [partialByte].
    replace (8 * (k / 8) + k mod 8)%nat with k by lia.
    f_equal. unfold Js.toUint8. apply Z.mod_small.
    apply lor_bit_byte; [apply partialByte_byte|]; lia.
  - rewrite list_lookup_insert_ne by done.
    destruct (decide (j < total)%nat).
    + rewrite !lookup_readAt by done. do 2 f_equal. lia.
    + by rewrite !lookup_ge_None_2 by (rewrite length_readAt; lia).
Qed.

Lemma extractBit_step k :
  (k < K)%nat ->
  extractBit px (chanIndex k) (readAt px total k) = readAt px total (S k).
Proof.
  intros Hk. unfold extractBit.
  change (xDataIndex (readAt px total k)) with (k / 8)%nat.
  change (xBitIndex (readAt px total k)) with (k mod 8)%nat.
  rewrite readAt_step by done.
  cbn [Nat.eqb]. unfold readAt at 3.
  destruct (Nat.eqb_spec (k mod 8) 7); f_equal; lia.
Qed.

Lemma extractChannels_run p fuel c :
  (c <= 3)%nat -> (3 - c <= fuel)%nat -> (3 * p + c <= K)%nat ->
  extractChannels fuel px total (4 * p) c (readAt px total (3 * p + c))
  = readAt px total (Nat.min (3 * p + 3) K).
Proof.
  revert c.
  induction fuel as [|fuel IH]; intros c Hc Hf Hk; cbn [extractChannels].
  - f_equal. lia.
  - change (xDataIndex (readAt px total (3 * p + c)))
      with ((3 * p + c) / 8)%nat.
    destruct (Nat.ltb_spec c 3) as [Hc3|Hc3]; cbn [andb].
    + destruct (Nat.ltb_spec ((3 * p + c) / 8) total) as [Hd|Hd].
      * rewrite <- (chanIndex_pixel p c) by done.
        rewrite extractBit_step by lia.
        replace (S (3 * p + c)) with (3 * p + S c)%nat by lia.
        apply IH; lia.
      * f_equal. lia.
    + f_equal. lia.
Qed.

Lemma extractPixels_run fuel p :
  (K <= 3 * (length px / 4))%nat -> (K <= 3 * (p + fuel))%nat ->
  extractPixels fuel px total (4 * p) (readAt px total (Nat.min (3 * p) K))
  = readAt px total K.
Proof.
  intros Hcap. revert p.
  induction fuel as [|fuel IH]; intros p Hf; cbn [extractPixels].
  - f_equal. lia.
  - change (xDataIndex (readAt px total (Nat.min (3 * p) K)))
      with (Nat.min (3 * p) K / 8)%nat.
    destruct (Nat.ltb_spec (3 * p) K) as [Hlt|Hge].
    + replace (Nat.min (3 * p) K) with (3 * p + 0)%nat by lia.
      replace (4 * p <? length px)%nat with true
        by (symmetry; apply Nat.ltb_lt; lia).
      replace ((3 * p + 0) / 8 <? total)%nat with true
        by (symmetry; apply Nat.ltb_lt; lia).
      cbn [andb]. rewrite extractChannels_run by lia.
      replace (4 * p + 4)%nat with (4 * S p)%nat by lia.
      replace (3 * p + 3)%nat with (3 * S p)%nat by lia.
      apply IH. lia.
    + replace (Nat.min (3 * p) K) with K by lia.
      replace (K / 8 <? total)%nat with false
        by (symmetry; apply Nat.ltb_ge; lia).
      by rewrite andb_false_r.
Qed.

Lemma readAt_0 :
  {| allBytes := Js.zeros total; xDataIndex := 0; xBitIndex := 0 |}
  = readAt px total 0.
Proof.
  unfold readAt. f_equal. apply list_eq. intros j.
  unfold Js.zeros. destruct (decide (j < total)%nat).
  - rewrite lookup_replicate_2 by done.
    by rewrite list_lookup_fmap, lookup_seq_lt.
  - rewrite !lookup_ge_None_2; [done| |].
    + rewrite length_map, length_seq. lia.
    + rewrite length_replicate. lia.
Qed.

(** With a buffer that holds every bit, byte [j] of the extracted array is
    put together from the eight channel bytes that carry it. *)
Lemma extractLoop_run :
  (K <= 3 * (length px / 4))%nat ->
  allBytes (extractLoop px total)
  = map (fun j => partialByte px j 8) (seq 0 total).
Proof.
  intros Hcap. unfold extractLoop. rewrite readAt_0.
  change 0%nat with (4 * 0)%nat at 1.
  change (readAt px total 0) with (readAt px total (Nat.min (3 * 0) K)).
  rewrite extractPixels_run by lia.
  unfold readAt. cbn [allBytes]. apply map_ext_in.
  intros j Hj. apply in_seq in Hj. f_equal. lia.
Qed.

End ExtractLoop.

(** ** The payload and the capacity check *)

Section Payload.

Lemma set_app (pre mid post src : list Z) (offset : nat) :
  offset = length pre -> length mid = length src ->
  Js.set (pre ++ mid ++ post) src offset = Some (pre ++ src ++ post).
Proof.
  intros -> Hlen. unfold Js.set.
  replace (length pre + length src <=? length (pre ++ mid ++ post))%nat
    with true by (symmetry; apply Nat.leb_le; rewrite !length_app; lia).
  rewrite take_app_length, drop_app_add, <- Hlen, drop_app_length.
  reflexivity.
Qed.

Lemma length_set (dst src r : list Z) (offset : nat) :
  Js.set dst src offset = Some r -> length r = length dst.
Proof.
  unfold Js.set. destruct (Nat.leb_spec (offset + length src) (length dst));
    [|done].
  intros [= <-]. rewrite !length_app, length_take, length_drop. lia.
Qed.

Lemma length_dataToEmbed salt iv hmac keyBytes d :
  dataToEmbed salt iv hmac keyBytes = Some d -> length d = 96%nat.
Proof.
  unfold dataToEmbed. intros H.
  repeat match type of H with
         | mbind _ ?m = Some _ =>
             let E := fresh "E" in
             destruct m eqn:E; [apply length_set in E | discriminate];
             cbn [mbind option_bind] in H
         end.
  apply length_set in H. unfold Js.zeros in *.
  rewrite length_replicate in *.
  unfold HEADER_SIZE, SALT_SIZE, IV_SIZE, KEY_SIZE, HMAC_SIZE in E. lia.
Qed.

Lemma dataToEmbed_layout salt iv hmac keyBytes :
  length salt = 16%nat -> length iv = 12%nat ->
  length keyBytes = 32%nat -> length hmac = 32%nat ->
  dataToEmbed salt iv hmac keyBytes
  = Some ([0; 0; 0; 92] ++ salt ++ iv ++ keyBytes ++ hmac).
Proof.
  intros Hs Hi Hk Hh. unfold dataToEmbed.
  change (numberToBytes _) with [0; 0; 0; 92].
  change (Js.zeros _)
    with ([] ++ replicate 4 0 ++ replicate 16 0 ++ replicate 12 0
             ++ replicate 32 0 ++ replicate 32 0 ++ []).
  rewrite set_app by done. cbn [mbind option_bind].
  change ([] ++ [0; 0; 0; 92] ++ ?l) with ([0; 0; 0; 92] ++ l).
  rewrite (set_app [0; 0; 0; 92]) by (by rewrite ?length_replicate).
  cbn [mbind option_bind].
  rewrite (app_assoc [0; 0; 0; 92] salt).
  rewrite (set_app ([0; 0; 0; 92] ++ salt))
    by (rewrite ?length_app, ?length_replicate, ?Hs; done).
  cbn [mbind option_bind].
  rewrite (app_assoc _ iv).
  rewrite (set_app (([0; 0; 0; 92] ++ salt) ++ iv))
    by (rewrite ?length_app, ?length_replicate, ?Hs, ?Hi; done).
  cbn [mbind option_bind].
  rewrite (app_assoc _ keyBytes).
  rewrite (set_app ((([0; 0; 0; 92] ++ salt) ++ iv) ++ keyBytes))
    by (rewrite ?length_app, ?length_replicate, ?Hs, ?Hi, ?Hk; done).
  by rewrite app_nil_r, <- !app_assoc.
Qed.

Lemma tooSmall_spec (dataLength pixelsLength : nat) :
  tooSmall dataLength pixelsLength = true
  <-> (3 * pixelsLength < 32 * dataLength)%nat.
Proof.
  unfold tooSmall. rewrite negb_true_iff, <- not_true_iff_false, Qle_bool_iff.
  unfold Qle. cbn [Qnum Qden Qdiv Qmult Qinv inject_Z]. lia.
Qed.

Lemma tooSmall_payload (n : nat) :
  tooSmall 96 n = false <-> (1024 <= n)%nat.
Proof.
  rewrite <- not_true_iff_false, tooSmall_spec. lia.
Qed.

End Payload.

(** ** Embedding, then extracting *)

Section Codec.

Context {K : Context2D}.

Lemma embed_inv c salt iv hmac keyBytes c' c'' :
  embedDataInImage c salt iv hmac keyBytes = (inr c', c'') ->
  exists d,
    dataToEmbed salt iv hmac keyBytes = Some d /\ length d = 96%nat
    /\ (1024 <= length (data c))%nat
    /\ c'' = c'
    /\ c' = putImageData c (written d 768 (data c)).
Proof.
  unfold embedDataInImage, getImageData.
  destruct (dataToEmbed salt iv hmac keyBytes) as [d|] eqn:Hd; [|done].
  pose proof (length_dataToEmbed _ _ _ _ _ Hd) as Hlen. rewrite Hlen.
  destruct (tooSmall 96 (length (data c))) eqn:Hcap; [done|].
  apply tooSmall_payload in Hcap.
  rewrite embedLoop_run by lia. rewrite Hlen.
  intros [= <- <-]. exists d. by repeat split.
Qed.

Lemma embed_enough c salt iv hmac keyBytes d :
  dataToEmbed salt iv hmac keyBytes = Some d ->
  (1024 <= length (data c))%nat ->
  embedDataInImage c salt iv hmac keyBytes
  = (inr (putImageData c (written d 768 (data c))),
     putImageData c (written d 768 (data c))).
Proof.
  intros Hd Hcap. unfold embedDataInImage, getImageData. rewrite Hd.
  pose proof (length_dataToEmbed _ _ _ _ _ Hd) as Hlen. rewrite Hlen.
  apply tooSmall_payload in Hcap. rewrite Hcap.
  rewrite embedLoop_run by (apply tooSmall_payload in Hcap; lia).
  by rewrite Hlen.
Qed.

Lemma embed_short c salt iv hmac keyBytes d :
  dataToEmbed salt iv hmac keyBytes = Some d ->
  (length (data c) < 1024)%nat ->
  embedDataInImage c salt iv hmac keyBytes
  = (inl (embedPrefix ++ capacityMessage)%string, c).
Proof.
  intros Hd Hcap. unfold embedDataInImage, getImageData. rewrite Hd.
  rewrite (length_dataToEmbed _ _ _ _ _ Hd).
  destruct (tooSmall 96 (length (data c))) eqn:E; [done|].
  apply tooSmall_payload in E. lia.
Qed.

(** Reading back what [written] put there. *)
Lemma partialByte_written d px j m :
  (1024 <= length px)%nat -> (j < 96)%nat -> (m <= 8)%nat ->
  partialByte (written d 768 px) j m = bitsOf (Js.num (d !! j)) m.
Proof.
  intros Hpx Hj. induction m as [|m IH]; intros Hm; [done|].
  cbn [partialByte bitsOf]. rewrite IH by lia. do 2 f_equal.
  rewrite lookup_written, chanIndex_slot.
  destruct (lookup_lt_is_Some_2 px (chanIndex (8 * j + m))) as [v ->];
    [unfold chanIndex; lia|].
  replace (chanIndex (8 * j + m) mod 4 <? 3)%nat with true
    by (symmetry; apply Nat.ltb_lt, chanIndex_rgb).
  replace (8 * j + m <? 768)%nat with true
    by (symmetry; apply Nat.ltb_lt; lia).
  cbn [andb fmap option_fmap option_map Js.num default id].
  unfold stegoBit. rewrite setLsb_lsb.
  replace ((8 * j + m) / 8)%nat with j by lia.
  replace ((8 * j + m) mod 8)%nat with m by lia.
  reflexivity.
Qed.

Lemma extractLoop_written d px :
  Js.bytes d -> length d = 96%nat -> (1024 <= length px)%nat ->
  allBytes (extractLoop (written d 768 px) 96) = d.
Proof.
  intros Hb Hlen Hpx.
  rewrite extractLoop_run by (rewrite length_written; lia).
  apply list_eq. intros j. rewrite list_lookup_fmap.
  destruct (decide (j < 96)%nat) as [Hj|Hj].
  - rewrite lookup_seq_lt by done.
    cbn [fmap option_fmap option_map Nat.add].
    rewrite partialByte_written by lia.
    destruct (lookup_lt_is_Some_2 d j) as [x Hx]; [lia|]. rewrite Hx.
    f_equal. apply bitsOf_byte.
    eapply (Forall_lookup_1 _ _ _ _ Hb Hx).
  - rewrite lookup_seq_ge by lia. by rewrite lookup_ge_None_2 by lia.
Qed.

Lemma slice_app (pre x post : list Z) (a b : nat) :
  a = length pre -> b = (a + length x)%nat ->
  Js.slice (pre ++ x ++ post) a b = x.
Proof.
  intros -> ->. unfold Js.slice. rewrite drop_app_length.
  apply take_app_length'. lia.
Qed.

Lemma extract_fields c salt iv hmac keyBytes :
  length salt = 16%nat -> length iv = 12%nat ->
  length keyBytes = 32%nat -> length hmac = 32%nat ->
  allBytes (extractLoop (data c) 96)
  = [0; 0; 0; 92] ++ salt ++ iv ++ keyBytes ++ hmac ->
  extractDataFromImage c
  = inr {| Stego.salt := salt; Stego.iv := iv;
           Stego.keyBytes := keyBytes; Stego.hmac := hmac |}.
Proof.
  intros Hs Hi Hk Hh Hall. unfold extractDataFromImage, getImageData.
  cbv [HEADER_SIZE SALT_SIZE IV_SIZE KEY_SIZE HMAC_SIZE]. cbn [Nat.add].
  rewrite Hall.
  change (Js.slice ([0; 0; 0; 92] ++ ?l) 0 4) with [0; 0; 0; 92].
  replace (negb (bytesToNumber [0; 0; 0; 92] =? Z.of_nat 92)) with false
    by reflexivity.
  rewrite (slice_app [0; 0; 0; 92] salt _ 4 20) by (rewrite ?Hs; done).
  pose proof (slice_app ([0; 0; 0; 92] ++ salt) iv (keyBytes ++ hmac) 20 32)
    as Hiv.
  rewrite <- !app_assoc in Hiv.
  rewrite Hiv by (rewrite ?length_app, ?Hs, ?Hi; done).
  pose proof (slice_app ([0; 0; 0; 92] ++ salt ++ iv) keyBytes hmac 32 64)
    as Hkey.
  rewrite <- !app_assoc in Hkey.
  rewrite Hkey by (rewrite ?length_app, ?Hs, ?Hi, ?Hk; done).
  pose proof (slice_app ([0; 0; 0; 92] ++ salt ++ iv ++ keyBytes) hmac []
                64 96) as Hmac.
  rewrite <- !app_assoc, app_nil_r in Hmac.
  rewrite Hmac by (rewrite ?length_app, ?Hs, ?Hi, ?Hk, ?Hh; done).
  reflexivity.
Qed.

(** The loop reads the colour bytes of the first pixels and nothing else. *)
Lemma partialByte_ext px px' j m :
  (forall k, (k < 8 * j + m)%nat -> px' !! chanIndex k = px !! chanIndex k) ->
  partialByte px' j m = partialByte px j m.
Proof.
  induction m as [|m IH]; intros H; [done|].
  cbn [partialByte]. rewrite IH by (intros k Hk; apply H; lia).
  by rewrite H by lia.
Qed.

Lemma extractLoop_ext px px' total :
  (8 * total <= 3 * (length px / 4))%nat ->
  length px' = length px ->
  (forall k, (k < 8 * total)%nat -> px' !! chanIndex k = px !! chanIndex k) ->
  allBytes (extractLoop px' total) = allBytes (extractLoop px total).
Proof.
  intros Hcap Hlen H.
  rewrite !extractLoop_run by (rewrite ?Hlen; lia).
  apply map_ext_in. intros j Hj. apply in_seq in Hj.
  apply partialByte_ext. intros k Hk. apply H. lia.
Qed.

Context {KL : Context2DLaws K}.

(** The alpha bytes pass through [written] and through the bitmap. *)
Lemma written_alpha d k px p :
  written d k px !! (4 * p + 3)%nat = px !! (4 * p + 3)%nat.
Proof.
  rewrite lookup_written.
  replace ((4 * p + 3) mod 4 <? 3)%nat with false
    by (symmetry; apply Nat.ltb_ge; lia).
  by destruct (px !! _).
Qed.

(** Where a pixel is opaque the canvas holds what the loop wrote. *)
Lemma stored_written d k px p channel :
  (channel < 4)%nat -> opaqueAt px p ->
  stored (written d k px) !! (4 * p + channel)%nat
  = written d k px !! (4 * p + channel)%nat.
Proof.
  intros Hch Hp. apply stored_opaque; [done|]. by rewrite written_alpha.
Qed.

Lemma extractLoop_stored d c :
  Js.bytes d -> length d = 96%nat -> (1024 <= length (data c))%nat ->
  opaqueUpTo 256 c ->
  allBytes (extractLoop (stored (written d 768 (data c))) 96) = d.
Proof.
  intros Hb Hlen Hcap Hop.
  rewrite (extractLoop_ext (written d 768 (data c))).
  - by apply extractLoop_written.
  - rewrite length_written. lia.
  - by rewrite stored_length.
  - intros k Hk. unfold chanIndex. apply stored_written; [lia|].
    apply Hop. lia.
Qed.

(** A canvas whose pixels are all opaque is kept byte for byte. *)
Lemma stored_all_opaque px n :
  length px = (4 * n)%nat -> (forall p, (p < n)%nat -> opaqueAt px p) ->
  stored px = px.
Proof.
  intros Hlen Hop. apply list_eq. intros j.
  destruct (decide (j < length px)%nat) as [Hj|Hj].
  - replace j with (4 * (j / 4) + j mod 4)%nat by lia.
    apply stored_opaque; [lia|]. apply Hop. lia.
  - rewrite !lookup_ge_None_2; [done|lia|rewrite stored_length; lia].
Qed.

End Codec.

(** ** The premultiplied bitmap keeps what a 2D context promises to keep *)

Section Bitmap.

Import Premultiplied.

Lemma keep_opaque colour : keep 255 colour = colour.
Proof. unfold keep. cbn [Z.eqb]. lia. Qed.

Lemma premultiplied_length px : length (premultiplied px) = length px.
Proof.
  assert (forall n px, (length px <= n)%nat ->
                       length (premultiplied px) = length px) as H.
  { clear px. induction n as [|n IH]; intros px Hn.
    - destruct px; [done|cbn [length] in Hn; lia].
    - destruct px as [|r [|g [|b [|a rest]]]]; try done.
      cbn [premultiplied length] in *. rewrite IH; [done|lia]. }
  by apply (H (length px)).
Qed.

Lemma premultiplied_next (r g b a : Z) (rest : list Z) (j : nat) :
  (r :: g :: b :: a :: rest) !! (4 + j)%nat = rest !! j.
Proof. reflexivity. Qed.

Lemma premultiplied_alpha px p :
  premultiplied px !! (4 * p + 3)%nat = px !! (4 * p + 3)%nat.
Proof.
  revert px. induction p as [|p IH]; intros px.
  - by destruct px as [|r [|g [|b [|a rest]]]].
  - destruct px as [|r [|g [|b [|a rest]]]]; try done.
    cbn [premultiplied].
    replace (4 * S p + 3)%nat with (4 + (4 * p + 3))%nat by lia.
    rewrite !premultiplied_next. apply IH.
Qed.

Lemma premultiplied_opaque px p channel :
  (channel < 4)%nat -> px !! (4 * p + 3)%nat = Some 255 ->
  premultiplied px !! (4 * p + channel)%nat = px !! (4 * p + channel)%nat.
Proof.
  intros Hch. revert px. induction p as [|p IH]; intros px H.
  - destruct px as [|r [|g [|b [|a rest]]]]; try done.
    cbn in H. injection H as ->. cbn [premultiplied].
    rewrite !keep_opaque.
    destruct channel as [|[|[|[|]]]]; try done. lia.
  - destruct px as [|r [|g [|b [|a rest]]]]; try done.
    cbn [premultiplied].
    replace (4 * S p + channel)%nat with (4 + (4 * p + channel))%nat by lia.
    replace (4 * S p + 3)%nat with (4 + (4 * p + 3))%nat in H by lia.
    rewrite premultiplied_next in H. rewrite !premultiplied_next.
    by apply IH.
Qed.

End Bitmap.

#[export] Instance premultiplied_laws :
  Context2DLaws Premultiplied.context2d.
Proof.
  constructor.
  - apply premultiplied_length.
  - apply premultiplied_alpha.
  - apply premultiplied_opaque.
Qed.

(** An alpha test that runs. *)
Lemma opaqueUpTo_check n c :
  forallb (fun p => bool_decide (data c !! (4 * p + 3)%nat = Some 255))
          (seq 0 n) = true ->
  opaqueUpTo n c.
Proof.
  intros H p Hp. rewrite forallb_forall in H. specialize (H p).
  rewrite bool_decide_eq_true in H. apply H, in_seq. lia.
Qed.

(** ** The codec: the properties of the specification *)

Lemma bytes_check (l : list Z) :
  forallb (fun z => (0 <=? z) && (z <? 256)) l = true -> Js.bytes l.
Proof.
  intros H. apply Forall_forall. intros z Hz.
  rewrite forallb_forall in H. apply list_elem_of_In, H in Hz.
  unfold Js.is_byte. lia.
Qed.

Lemma bytes_app (l k : list Z) : Js.bytes l -> Js.bytes k -> Js.bytes (l ++ k).
Proof. intros. by apply Forall_app. Qed.

(** C5: the embedded payload is the header 0,0,0,92 (the number 92 written
    with its most significant byte first) followed by salt, iv, key bytes and
    mac, 96 bytes in all. *)
Theorem C5_payload_layout (salt iv hmac keyBytes : list Z) :
  length salt = 16%nat -> length iv = 12%nat ->
  length keyBytes = 32%nat -> length hmac = 32%nat ->
  dataToEmbed salt iv hmac keyBytes
  = Some (numberToBytes 92 ++ salt ++ iv ++ keyBytes ++ hmac)
  /\ numberToBytes 92 = [0; 0; 0; 92]
  /\ bytesToNumber (numberToBytes 92) = 92
  /\ length (numberToBytes 92 ++ salt ++ iv ++ keyBytes ++ hmac) = 96%nat.
Proof.
  intros Hs Hi Hk Hh. repeat split.
  - by apply dataToEmbed_layout.
  - rewrite !length_app, Hs, Hi, Hk, Hh. reflexivity.
Qed.

Lemma C5_payload_layout_witness :
  dataToEmbed Sample.salt Sample.iv Sample.hmac Sample.keyBytes
  = Some (numberToBytes 92 ++ Sample.salt ++ Sample.iv ++ Sample.keyBytes
            ++ Sample.hmac)
  /\ numberToBytes 92 = [0; 0; 0; 92]
  /\ bytesToNumber (numberToBytes 92) = 92
  /\ length (numberToBytes 92 ++ Sample.salt ++ Sample.iv ++ Sample.keyBytes
               ++ Sample.hmac) = 96%nat.
Proof.
  apply (C5_payload_layout Sample.salt Sample.iv Sample.hmac Sample.keyBytes);
    reflexivity.
Defined.

Section Capacity.

Context {K : Context2D}.

(** C4: with exactly 256 pixels the embedding succeeds; with 255 pixels or
    fewer it fails with the capacity message and the canvas is left as it
    was. *)
Theorem C4_capacity_boundary (c : Canvas) (salt iv hmac keyBytes : list Z) :
  length salt = 16%nat -> length iv = 12%nat ->
  length keyBytes = 32%nat -> length hmac = 32%nat ->
  wellFormed c ->
  minPixels = 256
  /\ (validateImageCapacity (width c) (height c) = true
      <-> (256 <= pixelCount c)%nat)
  /\ (pixelCount c = 256%nat ->
      exists c', embedDataInImage c salt iv hmac keyBytes = (inr c', c'))
  /\ ((pixelCount c <= 255)%nat ->
      embedDataInImage c salt iv hmac keyBytes
      = (inl (embedPrefix ++ capacityMessage)%string, c)).
Proof.
  intros Hs Hi Hk Hh Hwf. unfold wellFormed in Hwf.
  pose proof (dataToEmbed_layout _ _ _ _ Hs Hi Hk Hh) as Hd.
  split; [reflexivity|]. split; [|split].
  - unfold validateImageCapacity, pixelCount.
    change (Qceiling _) with 256. rewrite Z.leb_le. lia.
  - intros Hn. eexists. apply (embed_enough _ _ _ _ _ _ Hd). lia.
  - intros Hn. apply (embed_short _ _ _ _ _ _ Hd). lia.
Qed.

End Capacity.

Lemma C4_capacity_boundary_witness :
  (exists c', embedDataInImage Sample.canvas Sample.salt Sample.iv Sample.hmac
                Sample.keyBytes = (inr c', c'))
  /\ embedDataInImage Sample.smallCanvas Sample.salt Sample.iv Sample.hmac
       Sample.keyBytes
     = (inl (embedPrefix ++ capacityMessage)%string, Sample.smallCanvas).
Proof.
  split.
  - apply (C4_capacity_boundary Sample.canvas Sample.salt Sample.iv
             Sample.hmac Sample.keyBytes); reflexivity.
  - apply (C4_capacity_boundary Sample.smallCanvas Sample.salt Sample.iv
             Sample.hmac Sample.keyBytes); reflexivity.
Defined.


Section RoundTrip.

Context {K : Context2D} {KL : Context2DLaws K}.


End RoundTrip.


(** ** 32-bit integers *)

Section Int32.

Local Open Scope Z_scope.

Lemma toInt32_range z : - 2 ^ 31 <= Js.toInt32 z < 2 ^ 31.
Proof.
  unfold Js.toInt32.
  pose proof (Z.mod_pos_bound z (2 ^ 32) ltac:(lia)).
  destruct (Z.ltb_spec (z mod 2 ^ 32) (2 ^ 31)); lia.
Qed.

Lemma toInt32_small z : - 2 ^ 31 <= z < 2 ^ 31 -> Js.toInt32 z = z.
Proof.
  intros Hz. unfold Js.toInt32.
  change (2 ^ 32) with 4294967296 in *. change (2 ^ 31) with 2147483648 in *.
  destruct (Z.ltb_spec (z mod 4294967296) 2147483648); lia.
Qed.

(** ToInt32 keeps the low 31 bits and repeats bit 31 above them. *)
Lemma toInt32_testbit z n :
  0 <= n -> Z.testbit (Js.toInt32 z) n = Z.testbit z (Z.min n 31).
Proof.
  intros Hn. unfold Js.toInt32.
  pose proof (Z.mod_pos_bound z (2 ^ 32) ltac:(lia)) as Hm.
  assert (forall k, k < 32 -> Z.testbit z k = Z.testbit (z mod 2 ^ 32) k)
    as Hlow by (intros; by rewrite Z.mod_pow2_bits_low).
  rewrite (Hlow (Z.min n 31)) by lia.
  set (m := z mod 2 ^ 32) in *. clearbody m. clear Hlow.
  destruct (Z.ltb_spec m (2 ^ 31)) as [Hlt|Hge].
  - destruct (Z.lt_ge_cases n 31) as [H|H].
    + by rewrite Z.min_l by lia.
    + rewrite Z.min_r by lia.
      rewrite <- (Z.mod_small m (2 ^ 31)) by lia.
      by rewrite !Z.mod_pow2_bits_high by lia.
  - assert (Z.testbit m 31 = true) as H31.
    { apply Z.testbit_true; [lia|].
      change (2 ^ 31) with 2147483648 in *.
      change (2 ^ 32) with 4294967296 in *. lia. }
    destruct (Z.lt_ge_cases n 32) as [H|H].
    + rewrite <- (Z.mod_pow2_bits_low (m - 2 ^ 32) 32 n) by lia.
      replace ((m - 2 ^ 32) mod 2 ^ 32) with m.
      * destruct (Z.lt_ge_cases n 31); [by rewrite Z.min_l by lia|].
        rewrite Z.min_r by lia. by replace n with 31 by lia.
      * change (2 ^ 31) with 2147483648 in *.
        change (2 ^ 32) with 4294967296 in *. lia.
    + rewrite Z.min_r, H31 by lia.
      apply Z.bits_above_log2_neg; [lia|].
      destruct (Z.eq_dec (Z.pred (- (m - 2 ^ 32))) 0) as [->|Hne];
        [simpl; lia|].
      assert (Z.log2 (Z.pred (- (m - 2 ^ 32))) < 31); [|lia].
      apply Z.log2_lt_pow2; lia.
Qed.

Lemma toInt32_lor x y :
  Js.toInt32 (Z.lor x y) = Z.lor (Js.toInt32 x) (Js.toInt32 y).
Proof.
  apply Z.bits_inj'. intros n Hn.
  by rewrite Z.lor_spec, !toInt32_testbit, Z.lor_spec.
Qed.

Lemma toInt32_idem z : Js.toInt32 (Js.toInt32 z) = Js.toInt32 z.
Proof. apply toInt32_small, toInt32_range. Qed.

Lemma bor_toInt32 x y : Js.bor x y = Js.toInt32 (Z.lor x y).
Proof. unfold Js.bor. by rewrite toInt32_lor. Qed.

(** Bits that do not overlap add up. *)
Lemma lor_disjoint_add hi lo k :
  0 <= k -> hi mod 2 ^ k = 0 -> 0 <= lo < 2 ^ k -> Z.lor hi lo = hi + lo.
Proof.
  intros Hk Hhi Hlo. symmetry. apply Z.add_nocarry_lor.
  apply Z.bits_inj'. intros n Hn. rewrite Z.land_spec, Z.bits_0.
  destruct (Z.lt_ge_cases n k).
  - rewrite <- (Z.mod_pow2_bits_low hi k n), Hhi, Z.bits_0 by lia. done.
  - rewrite <- (Z.mod_small lo (2 ^ k)) by lia.
    rewrite Z.mod_pow2_bits_high by lia. by rewrite andb_false_r.
Qed.

(** [bytesToNumber] reads four bytes with the most significant first, as
    a signed 32-bit number. *)
Lemma bytesToNumber_big_endian b0 b1 b2 b3 :
  Js.is_byte b0 -> Js.is_byte b1 -> Js.is_byte b2 -> Js.is_byte b3 ->
  bytesToNumber [b0; b1; b2; b3]
  = Js.toInt32 (b0 * 2 ^ 24 + b1 * 2 ^ 16 + b2 * 2 ^ 8 + b3).
Proof.
  unfold Js.is_byte. intros H0 H1 H2 H3.
  unfold bytesToNumber. cbn [lookup list_lookup Js.num default id].
  rewrite !bor_toInt32. unfold Js.shl.
  rewrite !(toInt32_small b0), !(toInt32_small b1), !(toInt32_small b2)
    by lia.
  change (24 mod 32) with 24. change (16 mod 32) with 16.
  change (8 mod 32) with 8.
  rewrite !Z.shiftl_mul_pow2 by lia.
  rewrite !toInt32_lor, !toInt32_idem, <- !toInt32_lor. f_equal.
  change (2 ^ 24) with 16777216. change (2 ^ 16) with 65536.
  change (2 ^ 8) with 256.
  rewrite (lor_disjoint_add (b0 * 16777216) (b1 * 65536) 24);
    [|lia|change (2 ^ 24) with 16777216; lia..].
  rewrite (lor_disjoint_add _ (b2 * 256) 16);
    [|lia|change (2 ^ 16) with 65536; lia..].
  rewrite (lor_disjoint_add _ b3 8);
    [|lia|change (2 ^ 8) with 256; lia..].
  reflexivity.
Qed.

Lemma bytesToNumber_92 b0 b1 b2 b3 :
  Js.is_byte b0 -> Js.is_byte b1 -> Js.is_byte b2 -> Js.is_byte b3 ->
  bytesToNumber [b0; b1; b2; b3] = 92
  <-> b0 = 0 /\ b1 = 0 /\ b2 = 0 /\ b3 = 92.
Proof.
  intros H0 H1 H2 H3. rewrite bytesToNumber_big_endian by done.
  unfold Js.is_byte in *. unfold Js.toInt32.
  change (2 ^ 32) with 4294967296. change (2 ^ 31) with 2147483648.
  change (2 ^ 24) with 16777216. change (2 ^ 16) with 65536.
  change (2 ^ 8) with 256.
  rewrite Z.mod_small by lia.
  destruct (Z.ltb_spec (b0 * 16777216 + b1 * 65536 + b2 * 256 + b3)
              2147483648); lia.
Qed.

End Int32.

(** ** What extraction keeps whatever the buffer *)

Section ExtractShape.

Variable px : list Z.
Variable total : nat.

Lemma extractBit_shaped i s : shaped total s -> shaped total (extractBit px i s).
Proof.
  intros [Hlen Hb]. unfold extractBit.
  destruct (S (xBitIndex s) =? 8)%nat; split; cbn [allBytes];
    rewrite ?length_insert; try done;
    (apply Forall_insert; [done|]);
    unfold Js.is_byte, Js.toUint8; apply Z.mod_pos_bound; lia.
Qed.

Lemma extractChannels_shaped fuel i channel s :
  shaped total s -> shaped total (extractChannels fuel px total i channel s).
Proof.
  revert channel s. induction fuel as [|fuel IH]; intros channel s Hs;
    cbn [extractChannels]; [done|].
  destruct (_ && _); [|done]. by apply IH, extractBit_shaped.
Qed.

Lemma extractPixels_shaped fuel i s :
  shaped total s -> shaped total (extractPixels fuel px total i s).
Proof.
  revert i s. induction fuel as [|fuel IH]; intros i s Hs;
    cbn [extractPixels]; [done|].
  destruct (_ && _); [|done]. by apply IH, extractChannels_shaped.
Qed.

Lemma extractLoop_shaped : shaped total (extractLoop px total).
Proof.
  apply extractPixels_shaped. split; cbn [allBytes]; unfold Js.zeros.
  - apply length_replicate.
  - apply Forall_replicate. unfold Js.is_byte. lia.
Qed.

End ExtractShape.

Lemma slice_slice (l : list Z) (a b c : nat) :
  (a <= b <= c)%nat -> Js.slice l a b ++ Js.slice l b c = Js.slice l a c.
Proof.
  intros H. unfold Js.slice.
  replace (drop b l) with (drop (b - a) (drop a l))
    by (rewrite drop_drop; f_equal; lia).
  rewrite take_take_drop. f_equal. lia.
Qed.


Section Frame.

Context {K : Context2D} {KL : Context2DLaws K}.


End Frame.


(** C6: extraction decodes the first four recovered bytes, most significant
    first, and fails with the format message exactly when the number is not
    92; when it is 92 the 92 bytes after the header come back as salt, iv,
    key bytes and mac. *)
Theorem C6_extract_header (c : Canvas) :
  let all := allBytes (extractLoop (data c) 96) in
  let dataLength := bytesToNumber (Js.slice all 0 4) in
  length all = 96%nat
  /\ (exists b0 b1 b2 b3,
        Js.slice all 0 4 = [b0; b1; b2; b3]
        /\ dataLength
           = Js.toInt32 (b0 * 2 ^ 24 + b1 * 2 ^ 16 + b2 * 2 ^ 8 + b3)
        /\ (dataLength = 92 <-> b0 = 0 /\ b1 = 0 /\ b2 = 0 /\ b3 = 92))
  /\ ((exists e, extractDataFromImage c = inl e) <-> dataLength <> 92)
  /\ (dataLength <> 92 ->
      extractDataFromImage c = inl (extractPrefix ++ formatMessage)%string)
  /\ (dataLength = 92 ->
      extractDataFromImage c
      = inr {| Stego.salt := Js.slice all 4 20; Stego.iv := Js.slice all 20 32;
               Stego.keyBytes := Js.slice all 32 64;
               Stego.hmac := Js.slice all 64 96 |}
      /\ Js.slice all 4 20 ++ Js.slice all 20 32 ++ Js.slice all 32 64
           ++ Js.slice all 64 96 = drop 4 all
      /\ length (drop 4 all) = 92%nat
      /\ length (Js.slice all 4 20) = 16%nat
      /\ length (Js.slice all 20 32) = 12%nat
      /\ length (Js.slice all 32 64) = 32%nat
      /\ length (Js.slice all 64 96) = 32%nat).
Proof.
  intros all dataLength.
  destruct (extractLoop_shaped (data c) 96) as [Hlen Hb].
  fold all in Hlen, Hb.
  assert (extractDataFromImage c
          = if negb (dataLength =? 92)
            then inl (extractPrefix ++ formatMessage)%string
            else inr {| Stego.salt := Js.slice all 4 20;
                        Stego.iv := Js.slice all 20 32;
                        Stego.keyBytes := Js.slice all 32 64;
                        Stego.hmac := Js.slice all 64 96 |}) as Hx
    by reflexivity.
  split; [done|]. split; [|split; [|split]].
  - subst dataLength. revert Hlen Hb. generalize all. clear. intros all Hlen Hb.
    do 4 (destruct all as [|? all]; [done|]).
    do 4 (apply Forall_cons in Hb as [? Hb]).
    eexists _, _, _, _. split; [reflexivity|].
    change (Js.slice (?a :: ?b :: ?c :: ?d :: all) 0 4) with [a; b; c; d].
    split; [by apply bytesToNumber_big_endian | by apply bytesToNumber_92].
  - rewrite Hx. destruct (Z.eqb_spec dataLength 92); cbn [negb].
    + split; [by intros [? ?] | done].
    + split; [done | by eexists].
  - intros Hne. rewrite Hx.
    by destruct (Z.eqb_spec dataLength 92).
  - intros Heq. rewrite Hx, Heq. cbn [negb Z.eqb Pos.eqb].
    split; [done|].
    rewrite !slice_slice by lia. unfold Js.slice.
    rewrite !length_take, !length_drop, Hlen. split_and!; try done.
    apply take_ge. rewrite length_drop, Hlen. done.
Qed.

(** ** The pipeline, call by call *)

Lemma logged_logged w a b :
  Platform.logged (Platform.logged w a) b = Platform.logged w (a ++ b).
Proof. unfold Platform.logged. cbn. by rewrite app_assoc. Qed.

(** Unfolds the control operators and normalises the world. *)
Ltac run :=
  repeat (progress
            (unfold Platform.bind, Platform.tryCatchFinally,
               Platform.tryCatch, Platform.ret,
               Platform.throw, Platform.ofOption, Platform.ofResult,
               Platform.emit, Platform.ui, Platform.consoleError,
               Platform.progress;
             cbn [Platform.raw Platform.algorithm Platform.extractable
                    fst snd negb];
             rewrite ?logged_logged; cbn [app])).

Ltac same_trace :=
  repeat (progress (rewrite <- ?app_assoc; cbn [app])); reflexivity.

Section Runs.

Import Platform.
Context {S : Subtle}.

Lemma deriveKeyFromPIN_run pin salt w :
  Crypto.deriveKeyFromPIN pin salt w
  = match pbkdf2 (Js.encodeUtf8 pin) salt 100000 "SHA-256" 256 with
    | Some k => (inr (derivedKey k), logged w (deriveCalls pin salt))
    | None =>
        (inl Crypto.deriveMessage,
         logged w (deriveCalls pin salt
                     ++ [ConsoleError "Key derivation error:"
                           operationError]))
    end.
Proof.
  unfold Crypto.deriveKeyFromPIN, importKey, deriveKey. run.
  cbn [algorithm raw]. unfold Crypto.PBKDF2_ITERATIONS, Crypto.KEY_LENGTH.
  destruct (pbkdf2 _ _ _ _ _); run; reflexivity.
Qed.

Lemma encryptData_run data k iv w :
  Crypto.encryptData data (derivedKey k) iv w
  = match aesGcmEncrypt k iv 128 data with
    | Some c => (inr c, logged w [Encrypt k iv data])
    | None =>
        (inl Crypto.encryptMessage,
         logged w [Encrypt k iv data;
                   ConsoleError "Encryption error:" operationError])
    end.
Proof.
  unfold Crypto.encryptData, encrypt. run. cbn [algorithm raw derivedKey].
  destruct (aesGcmEncrypt _ _ _ _); run; reflexivity.
Qed.

Lemma decryptData_run data k iv w :
  Crypto.decryptData data (derivedKey k) iv w
  = match aesGcmDecrypt k iv 128 data with
    | Some d => (inr d, logged w [Decrypt k iv data])
    | None =>
        (inl Crypto.decryptMessage,
         logged w [Decrypt k iv data;
                   ConsoleError "Decryption error:" operationError])
    end.
Proof.
  unfold Crypto.decryptData, decrypt. run. cbn [algorithm raw derivedKey].
  destruct (aesGcmDecrypt _ _ _ _); run; reflexivity.
Qed.

Lemma computeHMAC_run data k w :
  Crypto.computeHMAC data (derivedKey k) w
  = (match fst (signed k data) with
     | Some m => inr m
     | None => inl Crypto.hmacMessage
     end,
     logged w ([ExportKey (derivedKey k); ImportKey HMAC k]
                 ++ snd (signed k data))).
Proof.
  unfold Crypto.computeHMAC, Platform.exportKey, importKey, sign, signed.
  run. cbn [algorithm raw extractable derivedKey]. run.
  destruct (length k =? 0)%nat; run; [reflexivity|]. cbn [algorithm raw].
  destruct (hmacSha256 _ _); run; reflexivity.
Qed.

Lemma verifyHMAC_run data signature k w :
  Crypto.verifyHMAC data signature (derivedKey k) w
  = (inr (fst (verified k data signature)),
     logged w ([ExportKey (derivedKey k); ImportKey HMAC k]
                 ++ snd (verified k data signature))).
Proof.
  unfold Crypto.verifyHMAC, Platform.exportKey, importKey, verify, verified.
  run. cbn [algorithm raw extractable derivedKey]. run.
  destruct (length k =? 0)%nat; run; [reflexivity|]. cbn [algorithm raw].
  destruct (hmacSha256 _ _); run; reflexivity.
Qed.

Lemma decryptFile_run blob pin salt iv mac w :
  Crypto.decryptFile blob pin salt iv mac w
  = (fst (decryptFileOutcome blob pin salt iv mac),
     logged w (snd (decryptFileOutcome blob pin salt iv mac))).
Proof.
  unfold Crypto.decryptFile, decryptFileOutcome. run.
  rewrite deriveKeyFromPIN_run.
  destruct (pbkdf2 _ _ _ _ _) as [k|]; run; [|reflexivity].
  rewrite verifyHMAC_run.
  destruct (verified k blob mac) as [[|] calls]; run; cbn [fst snd negb].
  - run. rewrite decryptData_run.
    destruct (aesGcmDecrypt _ _ _ _); run; unfold deriveCalls; same_trace.
  - run. unfold deriveCalls. same_trace.
Qed.

Lemma draw_logged w a n : draw (logged w a) n = logged (draw w n) a.
Proof. reflexivity. Qed.

Lemma draw_draw w n m : draw (draw w n) m = draw w (n + m).
Proof. unfold draw. cbn. by rewrite Nat.add_assoc. Qed.

Lemma encryptFile_run file pin w :
  let outcome :=
    encryptFileOutcome (Validation.content file) pin
      (randomBytes w 16) (randomBytes (draw w 16) 12) in
  Crypto.encryptFile file pin w
  = (fst outcome, logged (draw w 28) (snd outcome)).
Proof.
  unfold Crypto.encryptFile, encryptFileOutcome, Crypto.generateRandomBytes,
    getRandomValues, Crypto.SALT_LENGTH, Crypto.IV_LENGTH.
  run. rewrite deriveKeyFromPIN_run.
  change (randomBytes (logged (draw w 16) ?a) 12)
    with (randomBytes (draw w 16) 12).
  rewrite draw_logged, draw_draw. change (16 + 12)%nat with 28%nat.
  destruct (pbkdf2 _ _ _ _ _) as [k|]; run; [|reflexivity].
  rewrite encryptData_run.
  destruct (aesGcmEncrypt _ _ _ _) as [c|]; run; [|reflexivity].
  rewrite computeHMAC_run.
  destruct (signed k c) as [[m|] calls]; run; unfold deriveCalls;
    same_trace.
Qed.

End Runs.

(** ** The sample algorithms keep the laws *)

Section ToyLaws.

Lemma length_stretch seed n : length (Toy.stretch seed n) = n.
Proof. unfold Toy.stretch. by rewrite length_map, length_seq. Qed.

Lemma lxor_twice (a : Z) (l : list Z) : map (Z.lxor a) (map (Z.lxor a) l) = l.
Proof.
  induction l as [|x l IH]; [done|]. cbn [map]. rewrite IH. f_equal.
  by rewrite <- Z.lxor_assoc, Z.lxor_nilpotent, Z.lxor_0_l.
Qed.

Lemma unseal_seal k iv bits data c :
  Toy.seal k iv bits data = Some c -> Toy.unseal k iv bits c = Some data.
Proof.
  unfold Toy.seal, Toy.unseal. intros [= <-].
  set (body := map (Z.lxor (Toy.mix (k ++ iv) mod 256)) data).
  assert (length (body ++ Toy.tag k iv data) = (length body + 16)%nat) as Hl
    by (rewrite length_app; unfold Toy.tag; by rewrite length_stretch).
  rewrite Hl.
  replace (length body + 16 <? 16)%nat with false
    by (symmetry; apply Nat.ltb_ge; lia).
  replace (length body + 16 - 16)%nat with (length body) by lia.
  rewrite take_app_length, drop_app_length. subst body.
  rewrite lxor_twice. by rewrite bool_decide_eq_true_2.
Qed.

End ToyLaws.

#[export] Instance toy_laws : Platform.SubtleLaws Toy.subtle.
Proof.
  split.
  - intros password salt iterations _. eexists. split; [reflexivity|].
    apply length_stretch.
  - intros k iv data _ _. by eexists.
  - intros k iv data c. apply unseal_seal.
  - intros k data _. by eexists.
Qed.

(** ** The pipeline: the properties of the specification *)

Section Pipeline.

Import Platform.
Context {S : Subtle}.

Lemma length_randomBytes w n : length (randomBytes w n) = n.
Proof. unfold randomBytes. by rewrite length_map, length_seq. Qed.

Lemma encryptFile_succeeds {L : SubtleLaws S} file pin w :
  exists k c m,
    let salt := randomBytes w 16 in
    let iv := randomBytes (draw w 16) 12 in
    pbkdf2 (Js.encodeUtf8 pin) salt 100000 "SHA-256" 256 = Some k
    /\ length k = 32%nat
    /\ aesGcmEncrypt k iv 128 (Validation.content file) = Some c
    /\ hmacSha256 k c = Some m
    /\ fst (Crypto.encryptFile file pin w)
       = inr {| Crypto.encrypted := c; Crypto.salt := salt; Crypto.iv := iv;
                Crypto.key := derivedKey k; Crypto.hmac := m |}.
Proof.
  destruct (pbkdf2_key (Js.encodeUtf8 pin) (randomBytes w 16) 100000)
    as (k & Hk & Hlen); [lia|].
  destruct (encrypt_total k (randomBytes (draw w 16) 12)
              (Validation.content file) Hlen (length_randomBytes _ _))
    as [c Hc].
  destruct (hmac_total k c Hlen) as [m Hm].
  exists k, c, m. cbn zeta. split_and!; try done.
  rewrite encryptFile_run. cbn [fst]. unfold encryptFileOutcome, signed.
  rewrite Hk, Hc, Hm, Hlen. reflexivity.
Qed.

(** C1: what [encryptFile] produced for a file and a PIN, [decryptFile]
    turns back into the bytes of the file, given the same PIN and the salt,
    iv and mac of the result. *)
Theorem C1_encrypt_decrypt_round_trip {L : SubtleLaws S}
    (file : Validation.File) (pin : list Z) (w : World) :
  Validation.valid (Validation.validatePIN pin) = true ->
  exists result w',
    Crypto.encryptFile file pin w = (inr result, w')
    /\ forall w2,
         fst (Crypto.decryptFile (Crypto.encrypted result) pin
                (Crypto.salt result) (Crypto.iv result)
                (Crypto.hmac result) w2)
         = inr (Validation.content file).
Proof.
  intros _.
  destruct (encryptFile_succeeds file pin w) as (k & c & m & H).
  cbn zeta in H. destruct H as (Hk & Hlen & Hc & Hm & Hrun).
  destruct (Crypto.encryptFile file pin w) as [r w'] eqn:E.
  cbn [fst] in Hrun. subst r. eexists _, w'. split; [reflexivity|].
  intros w2. cbn [Crypto.encrypted Crypto.salt Crypto.iv Crypto.hmac].
  rewrite decryptFile_run. cbn [fst].
  unfold decryptFileOutcome, verified. rewrite Hk, Hlen, Hm.
  cbn [Nat.eqb fst snd]. rewrite bool_decide_eq_true_2 by done.
  by rewrite (decrypt_encrypt _ _ _ _ Hc).
Qed.

(** The three ways in which [decryptFile] fails. *)
Lemma decryptFile_failures blob pin salt iv mac w e w' :
  Crypto.decryptFile blob pin salt iv mac w = (inl e, w') ->
  e = (Crypto.decryptFilePrefix ++ Crypto.deriveMessage)%string
  \/ e = (Crypto.decryptFilePrefix ++ Crypto.hmacFailedMessage)%string
  \/ e = (Crypto.decryptFilePrefix ++ Crypto.decryptMessage)%string.
Proof.
  rewrite decryptFile_run. unfold decryptFileOutcome.
  destruct (pbkdf2 _ _ _ _ _); [|intros [= <- _]; auto].
  destruct (fst (verified _ _ _)); [|intros [= <- _]; auto].
  destruct (aesGcmDecrypt _ _ _ _); intros [= <- _]; auto.
Qed.

End Pipeline.

Lemma C1_encrypt_decrypt_round_trip_witness :
  exists result w',
    Crypto.encryptFile (S := Toy.subtle) Toy.file Toy.pin Toy.world
    = (inr result, w')
    /\ forall w2,
         fst (Crypto.decryptFile (S := Toy.subtle)
                (Crypto.encrypted result) Toy.pin
                (Crypto.salt result) (Crypto.iv result)
                (Crypto.hmac result) w2)
         = inr (Validation.content Toy.file).
Proof.
  apply (C1_encrypt_decrypt_round_trip (S := Toy.subtle) Toy.file Toy.pin
           Toy.world).
  reflexivity.
Defined.


Section Order.

#[local] Set Warnings "-clear-no-such-hyp".

Import Platform.
Context {S : Subtle}.


End Order.

(** ** PIN validation and the handlers *)

Section Validation.

Import Platform.

Lemma sixDigits_spec pin : Validation.sixDigits pin = true <-> digits pin.
Proof.
  unfold Validation.sixDigits, digits.
  rewrite andb_true_iff, Nat.eqb_eq, forallb_forall, Forall_forall.
  unfold Validation.isDigit.
  split; intros [Hl Hd]; (split; [done|]); intros c Hc.
  - apply list_elem_of_In, Hd in Hc. lia.
  - apply list_elem_of_In, Hd in Hc. lia.
Qed.

Lemma validatePIN_spec pin :
  Validation.valid (Validation.validatePIN pin) = true <-> digits pin.
Proof.
  unfold Validation.validatePIN. rewrite <- sixDigits_spec.
  unfold Validation.sixDigits.
  destruct (Nat.eqb_spec (length pin) 0) as [H0|H0]; cbn [negb].
  { rewrite H0. cbn. split; discriminate. }
  destruct (Nat.eqb_spec (length pin) 6) as [H6|H6]; cbn [negb andb].
  2: { cbn. split; discriminate. }
  destruct (forallb Validation.isDigit pin); cbn [negb];
    [|cbn; split; discriminate].
  by destruct (existsb _ _).
Qed.

(** A string of digits is its own UTF-8 encoding. *)
Lemma encodeUtf8_digits pin :
  Forall (fun c => 48 <= c <= 57) pin -> Js.encodeUtf8 pin = pin.
Proof.
  induction 1 as [|c pin Hc _ IH]; [done|]. cbn [Js.encodeUtf8].
  replace (c <? 128) with true by lia. by rewrite IH.
Qed.

Lemma push_invalid v errors :
  Validation.valid v = false ->
  (length (Validation.push v errors) =? 0)%nat = false.
Proof.
  intros H. unfold Validation.push. rewrite H, length_app. cbn.
  apply Nat.eqb_neq. lia.
Qed.

(** A PIN that is rejected is rejected with one of three messages, which
    is pushed to the end of the list of errors. *)
Lemma validatePIN_message pin :
  Validation.valid (Validation.validatePIN pin) = false ->
  exists e,
    Validation.error (Validation.validatePIN pin) = Some e
    /\ e ∈ ["PIN is required"; "PIN must be exactly 6 digits";
            "PIN must contain only numbers"]%string
    /\ forall errors,
         Validation.push (Validation.validatePIN pin) errors = errors ++ [e].
Proof.
  unfold Validation.push, Validation.validatePIN.
  destruct (length pin =? 0)%nat.
  { intros _. eexists. split; [reflexivity|]. split; [|done].
    apply list_elem_of_here. }
  destruct (negb (length pin =? 6)%nat).
  { intros _. eexists. split; [reflexivity|]. split; [|done].
    apply list_elem_of_further, list_elem_of_here. }
  destruct (negb (Validation.sixDigits pin)).
  { intros _. eexists. split; [reflexivity|]. split; [|done].
    do 2 apply list_elem_of_further. apply list_elem_of_here. }
  by destruct (existsb _ _).
Qed.

Context {S : Subtle} {B : Browser} {K : Context2D}.

Lemma handleEncrypt_rejects file pin w :
  Validation.valid (Validation.validatePIN pin) = false ->
  App.handleEncrypt file pin w
  = (inr tt,
     logged w
       (entered "encrypt"
          ++ caught "encrypt" "Encryption error:"
               (Validation.formatValidationErrors
                  (Validation.errors
                     (Validation.validateEncryptionInputs file pin))))).
Proof.
  intros Hpin. unfold App.handleEncrypt. run.
  replace (Validation.allValid
             (Validation.validateEncryptionInputs file pin)) with false
    by (symmetry; by apply push_invalid).
  run. reflexivity.
Qed.

Lemma handleDecrypt_rejects encryptedFile keyImage pin w :
  Validation.valid (Validation.validatePIN pin) = false ->
  App.handleDecrypt encryptedFile keyImage pin w
  = (inr tt,
     logged w
       (entered "decrypt"
          ++ caught "decrypt" "Decryption error:"
               (Validation.formatValidationErrors
                  (Validation.errors
                     (Validation.validateDecryptionInputs encryptedFile
                        keyImage pin))))).
Proof.
  intros Hpin. unfold App.handleDecrypt. run.
  replace (Validation.allValid
             (Validation.validateDecryptionInputs encryptedFile keyImage
                pin)) with false
    by (symmetry; by apply push_invalid).
  run. reflexivity.
Qed.

(** When [decryptFile] fails the handler shows the message that
    [getCryptoErrorMessage] makes of the error, and the array with the
    extracted key bytes is left as it is. *)
Lemma handleDecrypt_failed file image pin w c x e :
  Validation.allValid
    (Validation.validateDecryptionInputs (Some file) (Some image) pin)
  = true ->
  loadImageToCanvas image = inr c ->
  extractDataFromImage c = inr x ->
  fst (decryptFileOutcome (Validation.content file) pin (Stego.salt x)
         (Stego.iv x) (Stego.hmac x)) = inl e ->
  App.handleDecrypt (Some file) (Some image) pin w
  = (inr tt,
     allocated
       (logged w
          (entered "decrypt"
             ++ [Ui (UpdateProgress "decrypt");
                 Ui (Announce "Extracting encryption key from image...");
                 Ui (Announce "Decrypting file...")]
             ++ snd (decryptFileOutcome (Validation.content file) pin
                       (Stego.salt x) (Stego.iv x) (Stego.hmac x))
             ++ caught "decrypt" "Decryption error:" e))
       (Stego.keyBytes x)).
Proof.
  intros Hvalid Himg Hx He. unfold App.handleDecrypt. run.
  rewrite Hvalid. run. rewrite Himg. run. rewrite Hx. run.
  unfold alloc. run. rewrite decryptFile_run, He. run.
  unfold allocated, logged, entered, caught. cbn. f_equal. f_equal.
  same_trace.
Qed.

End Validation.

(** C9, as stated, fails: "12" is no 6-digit PIN, and [deriveKeyFromPIN]
    derives a key from it all the same. *)
Lemma C9_derivation_does_not_validate :
  Validation.valid (Validation.validatePIN (Js.str "12")) = false
  /\ exists k,
       fst (Crypto.deriveKeyFromPIN (S := Toy.subtle) (Js.str "12")
              Sample.salt Toy.world)
       = inr k.
Proof. split; [reflexivity|]. eexists. vm_compute. reflexivity. Qed.

Section Derivation.

Import Platform.
Context {S : Subtle} {B : Browser} {K : Context2D}.

(** C9, amended: [validatePIN] accepts exactly the strings of 6 ASCII
    digits, and both handlers stop on any other PIN before a random byte is
    drawn or [crypto.subtle] is called: the error they catch is the
    validation message, made by [formatValidationErrors] of the errors
    found, the last of which is the one of the PIN; it goes to the console,
    and the calls of a run that was stopped are those of the page and that
    one, no other.  [deriveKeyFromPIN] itself checks
    nothing: whatever the PIN, it asks PBKDF2 with SHA-256 and 100,000
    iterations for a 256-bit AES-GCM key from the UTF-8 bytes of the PIN,
    and fails only if that call fails; for a valid PIN it returns a key of
    32 bytes. *)
Theorem C9_validation_before_derivation {L : SubtleLaws S} :
  (forall pin,
      Validation.valid (Validation.validatePIN pin) = true
      <-> length pin = 6%nat /\ Forall (fun c => 48 <= c <= 57) pin)
  /\ (forall file pin w,
        Validation.valid (Validation.validatePIN pin) = false ->
        exists e,
          Validation.error (Validation.validatePIN pin) = Some e
          /\ e ∈ ["PIN is required"; "PIN must be exactly 6 digits";
                  "PIN must contain only numbers"]%string
          /\ Validation.errors (Validation.validateEncryptionInputs file pin)
             = Validation.push (Validation.validateEncryptionFile file) []
                 ++ [e]
          /\ App.handleEncrypt file pin w
             = (inr tt,
                logged w
                  (entered "encrypt"
                     ++ caught "encrypt" "Encryption error:"
                          (Validation.formatValidationErrors
                             (Validation.push
                                (Validation.validateEncryptionFile file) []
                                ++ [e])))))
  /\ (forall encryptedFile keyImage pin w,
        Validation.valid (Validation.validatePIN pin) = false ->
        exists e,
          Validation.error (Validation.validatePIN pin) = Some e
          /\ e ∈ ["PIN is required"; "PIN must be exactly 6 digits";
                  "PIN must contain only numbers"]%string
          /\ Validation.errors
               (Validation.validateDecryptionInputs encryptedFile keyImage
                  pin)
             = Validation.push (Validation.validateKeyImage keyImage)
                 (Validation.push
                    (Validation.validateEncryptedFile encryptedFile) [])
                 ++ [e]
          /\ App.handleDecrypt encryptedFile keyImage pin w
             = (inr tt,
                logged w
                  (entered "decrypt"
                     ++ caught "decrypt" "Decryption error:"
                          (Validation.formatValidationErrors
                             (Validation.push
                                (Validation.validateKeyImage keyImage)
                                (Validation.push
                                   (Validation.validateEncryptedFile
                                      encryptedFile) [])
                                ++ [e])))))
  /\ (forall pin salt w,
        Crypto.deriveKeyFromPIN pin salt w
        = match pbkdf2 (Js.encodeUtf8 pin) salt 100000 "SHA-256" 256 with
          | Some k =>
              (inr {| algorithm := AES_GCM; extractable := true; raw := k |},
               logged w
                 [ImportKey PBKDF2 (Js.encodeUtf8 pin);
                  DeriveKey (Js.encodeUtf8 pin) salt 100000 "SHA-256" 256])
          | None =>
              (inl Crypto.deriveMessage,
               logged w
                 [ImportKey PBKDF2 (Js.encodeUtf8 pin);
                  DeriveKey (Js.encodeUtf8 pin) salt 100000 "SHA-256" 256;
                  ConsoleError "Key derivation error:" operationError])
          end)
  /\ (forall pin salt w,
        Validation.valid (Validation.validatePIN pin) = true ->
        length salt = 16%nat ->
        exists k,
          length k = 32%nat
          /\ pbkdf2 pin salt 100000 "SHA-256" 256 = Some k
          /\ Crypto.deriveKeyFromPIN pin salt w
             = (inr {| algorithm := AES_GCM; extractable := true; raw := k |},
                logged w
                  [ImportKey PBKDF2 pin;
                   DeriveKey pin salt 100000 "SHA-256" 256])).
Proof.
  split_and!.
  - apply validatePIN_spec.
  - intros file pin w H.
    destruct (validatePIN_message pin H) as (e & He & Hin & Hpush).
    exists e. rewrite (handleEncrypt_rejects file pin w H).
    unfold Validation.validateEncryptionInputs.
    cbn [Validation.errors]. by rewrite Hpush.
  - intros ef ki pin w H.
    destruct (validatePIN_message pin H) as (e & He & Hin & Hpush).
    exists e. rewrite (handleDecrypt_rejects ef ki pin w H).
    unfold Validation.validateDecryptionInputs.
    cbn [Validation.errors]. by rewrite Hpush.
  - intros pin salt w. apply deriveKeyFromPIN_run.
  - intros pin salt w Hpin _. apply validatePIN_spec in Hpin as [_ Hd].
    destruct (pbkdf2_key pin salt 100000) as (k & Hk & Hlen); [lia|].
    exists k. split_and!; try done.
    rewrite deriveKeyFromPIN_run. unfold deriveCalls.
    by rewrite (encodeUtf8_digits _ Hd), Hk.
Qed.

End Derivation.

Lemma C9_validation_before_derivation_witness :
  (exists k,
      length k = 32%nat
      /\ Platform.pbkdf2 (Subtle := Toy.subtle) Toy.pin Sample.salt 100000
           "SHA-256" 256 = Some k
      /\ Crypto.deriveKeyFromPIN (S := Toy.subtle) Toy.pin Sample.salt
           Toy.world
         = (inr {| Platform.algorithm := Platform.AES_GCM;
                   Platform.extractable := true; Platform.raw := k |},
            Platform.logged Toy.world
              [Platform.ImportKey Platform.PBKDF2 Toy.pin;
               Platform.DeriveKey Toy.pin Sample.salt 100000 "SHA-256" 256]))
  /\ App.handleEncrypt (S := Toy.subtle) (B := Toy.browser)
       (Some Toy.file) (Js.str "12") Toy.world
     = (inr tt,
        Platform.logged Toy.world
          (entered "encrypt"
             ++ caught "encrypt" "Encryption error:"
                  "PIN must be exactly 6 digits"%string)).
Proof.
  destruct (C9_validation_before_derivation (S := Toy.subtle)
              (B := Toy.browser) (K := Premultiplied.context2d))
    as (_ & Hstop & _ & _ & Hkey).
  split.
  - apply Hkey; reflexivity.
  - destruct (Hstop (Some Toy.file) (Js.str "12") Toy.world)
      as (e & He & _ & _ & Hrun); [reflexivity|].
    vm_compute in He. injection He as <-. exact Hrun.
Defined.

(** C10: the array with the key bytes is zero-filled when a handler
    succeeds, and only then.  After a decryption with a wrong PIN the
    extracted key bytes are still in the array; so are the exported key
    bytes after an encryption whose [canvas.toBlob] gave no blob. *)
Theorem C10_key_bytes_left_on_error :
  let key := Platform.raw (Crypto.key Toy.sealed) in
  let decrypted pin :=
    snd (App.handleDecrypt (S := Toy.subtle) (B := Toy.browser)
           (Some Toy.encryptedFile) (Some Toy.keyImage) pin
           Toy.afterEncrypt) in
  key <> replicate 32 0
  (* encryption, then decryption with the PIN: both arrays are cleared *)
  /\ Platform.heap Toy.afterEncrypt = [replicate 32 0]
  /\ Platform.heap (decrypted Toy.pin) = [replicate 32 0; replicate 32 0]
  (* decryption with another PIN: the error is shown, the key stays *)
  /\ Platform.Ui (Platform.ShowErrorModal
                    "Decryption failed - incorrect PIN or corrupted files")
     ∈ Platform.trace (decrypted Toy.otherPin)
  /\ Platform.heap (decrypted Toy.otherPin) = [replicate 32 0; key]
  (* encryption that fails after the key was exported: the key stays *)
  /\ Platform.heap
       (snd (App.handleEncrypt (S := Toy.subtle) (B := Toy.brokenBrowser)
               (Some Toy.file) Toy.pin Toy.world))
     = [key].
Proof.
  cbn zeta. split_and!; try (vm_compute; reflexivity).
  - vm_compute. discriminate.
  - apply list_elem_of_In. vm_compute. tauto.
Qed.

(** ** What a failed decryption tells *)

Ltac in_trace :=
  first [ apply list_elem_of_here
        | apply list_elem_of_further; in_trace
        | apply elem_of_app; left; in_trace
        | apply elem_of_app; right; in_trace ].

(** C8, as stated, fails: the causes are told apart.  With the wrong PIN
    [decryptFile] throws the message of a failed MAC check; with the right
    PIN and an iv whose first byte was changed it throws the message of a
    failed decryption, a different one.  In the dialog of [handleDecrypt]
    the wrong PIN reads as a failed decryption, while a key image whose
    header was damaged (the bit that makes the length 93) reads as a
    general error. *)
Lemma C8_causes_are_told_apart :
  let result pin iv :=
    fst (Crypto.decryptFile (S := Toy.subtle) (Crypto.encrypted Toy.sealed)
           pin (Crypto.salt Toy.sealed) iv (Crypto.hmac Toy.sealed)
           Toy.world) in
  let shown image pin :=
    shownErrors
      (Platform.trace
         (snd (App.handleDecrypt (S := Toy.subtle) (B := Toy.browser)
                 (Some Toy.encryptedFile) (Some image) pin Toy.world))) in
  let damaged :=
    {| Validation.name := "key-image.png"; Validation.type := "image/png";
       Validation.content :=
         alter (Z.lxor 1) 43%nat (Validation.content Toy.keyImage) |} in
  result Toy.otherPin (Crypto.iv Toy.sealed)
  = inl "Failed to decrypt file: HMAC verification failed - data may be corrupted"%string
  /\ result Toy.pin (<[0%nat := 0]> (Crypto.iv Toy.sealed))
     = inl "Failed to decrypt file: Decryption failed - incorrect PIN or corrupted data"%string
  /\ result Toy.otherPin (Crypto.iv Toy.sealed)
     <> result Toy.pin (<[0%nat := 0]> (Crypto.iv Toy.sealed))
  /\ shown Toy.keyImage Toy.otherPin
     = ["Decryption failed - incorrect PIN or corrupted files"%string]
  /\ shown damaged Toy.pin
     = ["An encryption error occurred. Please try again."%string]
  /\ shown Toy.keyImage Toy.otherPin <> shown damaged Toy.pin.
Proof.
  cbv zeta. split_and!; try (vm_compute; reflexivity);
    vm_compute; discriminate.
Qed.

Section Indistinguishable.

Import Platform.
Context {S : Subtle} {B : Browser}.

Lemma shownErrors_app t1 t2 :
  shownErrors (t1 ++ t2) = shownErrors t1 ++ shownErrors t2.
Proof. apply omap_app. Qed.

(** [decryptFile] opens no dialog itself. *)
Lemma shownErrors_decryptFile blob pin salt iv mac :
  shownErrors (snd (decryptFileOutcome blob pin salt iv mac)) = [].
Proof.
  unfold decryptFileOutcome, verified, deriveCalls.
  destruct (pbkdf2 _ _ _ _ _) as [k|]; [|reflexivity].
  destruct (length k =? 0)%nat; [reflexivity|].
  destruct (hmacSha256 _ _); cbn [fst snd];
    [destruct (bool_decide _)|]; try reflexivity;
    destruct (aesGcmDecrypt _ _ _ _); reflexivity.
Qed.

(** The message of a failed [decryptFile] names the step that failed. *)
Lemma decryptFile_causes blob pin salt iv mac w e w' :
  Crypto.decryptFile blob pin salt iv mac w = (inl e, w') ->
  (e = (Crypto.decryptFilePrefix ++ Crypto.deriveMessage)%string
   /\ pbkdf2 (Js.encodeUtf8 pin) salt 100000 "SHA-256" 256 = None)
  \/ (e = (Crypto.decryptFilePrefix ++ Crypto.hmacFailedMessage)%string
      /\ exists k,
           pbkdf2 (Js.encodeUtf8 pin) salt 100000 "SHA-256" 256 = Some k
           /\ (length k = 0%nat \/ hmacSha256 k blob <> Some mac))
  \/ (e = (Crypto.decryptFilePrefix ++ Crypto.decryptMessage)%string
      /\ exists k,
           pbkdf2 (Js.encodeUtf8 pin) salt 100000 "SHA-256" 256 = Some k
           /\ hmacSha256 k blob = Some mac
           /\ aesGcmDecrypt k iv 128 blob = None).
Proof.
  rewrite decryptFile_run. unfold decryptFileOutcome, verified.
  destruct (pbkdf2 _ _ _ _ _) as [k|]; [|intros [= <- _]; auto].
  destruct (Nat.eqb_spec (length k) 0) as [Hk|Hk]; cbn [fst snd].
  { intros [= <- _]. right. left. split; [done|]. exists k. auto. }
  destruct (hmacSha256 k blob) as [m|] eqn:Hm; cbn [fst snd].
  2: { intros [= <- _]. right. left. split; [done|]. exists k.
       split; [done|]. right. congruence. }
  destruct (decide (m = mac)) as [->|Hne].
  - rewrite bool_decide_eq_true_2 by done.
    destruct (aesGcmDecrypt _ _ _ _) eqn:Hd; intros [= <- _].
    right. right. split; [done|]. by exists k.
  - rewrite bool_decide_eq_false_2 by done.
    intros [= <- _]. right. left. split; [done|]. exists k.
    split; [done|]. right. congruence.
Qed.

(** When the key image does not give the fields the handler shows the
    general message. *)
Lemma handleDecrypt_unreadable file image pin w c e :
  Validation.allValid
    (Validation.validateDecryptionInputs (Some file) (Some image) pin)
  = true ->
  loadImageToCanvas image = inr c ->
  extractDataFromImage c = inl e ->
  App.handleDecrypt (Some file) (Some image) pin w
  = (inr tt,
     logged w
       (entered "decrypt"
          ++ [Ui (UpdateProgress "decrypt");
              Ui (Announce "Extracting encryption key from image...")]
          ++ caught "decrypt" "Decryption error:"
               (extractPrefix ++ formatMessage)%string)).
Proof.
  intros Hvalid Himg Hx.
  assert (e = (extractPrefix ++ formatMessage)%string) as ->.
  { unfold extractDataFromImage in Hx.
    destruct (negb _) in Hx; [|done]. by injection Hx. }
  unfold App.handleDecrypt. run.
  rewrite Hvalid. run. rewrite Himg. run. rewrite Hx. run.
  reflexivity.
Qed.

(** C8, amended: [decryptFile] fails with one of three messages, and the
    message names the step that failed: the key derivation, the MAC check
    (a wrong PIN, or a changed salt, ciphertext or MAC) or the decryption
    itself (a changed iv).  The three messages differ.
    [getCryptoErrorMessage] makes one text of the three, and that text is
    what the dialog of [handleDecrypt] shows whenever [decryptFile] has
    failed, while the message itself goes to the console.  A key image
    that loads but does not give the fields is reported with another
    text. *)
Theorem C8_failure_messages :
  (forall (blob pin salt iv mac : list Z) (w w' : World) (e : Js.Error),
      Crypto.decryptFile blob pin salt iv mac w = (inl e, w') ->
      (e = "Failed to decrypt file: Failed to derive encryption key from PIN"%string
       /\ pbkdf2 (Js.encodeUtf8 pin) salt 100000 "SHA-256" 256 = None)
      \/ (e = "Failed to decrypt file: HMAC verification failed - data may be corrupted"%string
          /\ exists k,
               pbkdf2 (Js.encodeUtf8 pin) salt 100000 "SHA-256" 256 = Some k
               /\ (length k = 0%nat \/ hmacSha256 k blob <> Some mac))
      \/ (e = "Failed to decrypt file: Decryption failed - incorrect PIN or corrupted data"%string
          /\ exists k,
               pbkdf2 (Js.encodeUtf8 pin) salt 100000 "SHA-256" 256 = Some k
               /\ hmacSha256 k blob = Some mac
               /\ aesGcmDecrypt k iv 128 blob = None))
  /\ (forall (blob pin salt iv mac : list Z) (w w' : World) (e : Js.Error),
        Crypto.decryptFile blob pin salt iv mac w = (inl e, w') ->
        Crypto.getCryptoErrorMessage e
        = "Decryption failed - incorrect PIN or corrupted files"%string)
  /\ (forall (file image : Validation.File) (pin : list Z) (w : World)
             (c : Canvas) (x : Extracted) (e : Js.Error),
        Validation.allValid
          (Validation.validateDecryptionInputs (Some file) (Some image) pin)
        = true ->
        loadImageToCanvas image = inr c ->
        extractDataFromImage c = inr x ->
        fst (Crypto.decryptFile (Validation.content file) pin (Stego.salt x)
               (Stego.iv x) (Stego.hmac x) w) = inl e ->
        fst (App.handleDecrypt (Some file) (Some image) pin w) = inr tt
        /\ shownErrors
             (trace (snd (App.handleDecrypt (Some file) (Some image) pin w)))
           = shownErrors (trace w)
               ++ ["Decryption failed - incorrect PIN or corrupted files"%string]
        /\ ConsoleError "Decryption error:" e
           ∈ trace (snd (App.handleDecrypt (Some file) (Some image) pin w)))
  /\ (forall (file image : Validation.File) (pin : list Z) (w : World)
             (c : Canvas) (e : Js.Error),
        Validation.allValid
          (Validation.validateDecryptionInputs (Some file) (Some image) pin)
        = true ->
        loadImageToCanvas image = inr c ->
        extractDataFromImage c = inl e ->
        fst (App.handleDecrypt (Some file) (Some image) pin w) = inr tt
        /\ shownErrors
             (trace (snd (App.handleDecrypt (Some file) (Some image) pin w)))
           = shownErrors (trace w)
               ++ ["An encryption error occurred. Please try again."%string]).
Proof.
  assert (forall blob pin salt iv mac w e w',
             Crypto.decryptFile blob pin salt iv mac w = (inl e, w') ->
             Crypto.getCryptoErrorMessage e
             = "Decryption failed - incorrect PIN or corrupted files"%string)
    as Hone.
  { intros blob pin salt iv mac w e w' H.
    apply decryptFile_failures in H as [-> | [-> | ->]]; reflexivity. }
  split; [|split; [|split]].
  - intros blob pin salt iv mac w w' e H.
    by apply decryptFile_causes in H.
  - intros blob pin salt iv mac w w' e H. by apply Hone in H.
  - intros file image pin w c x e Hvalid Himg Hx He.
    assert (Crypto.getCryptoErrorMessage e
            = "Decryption failed - incorrect PIN or corrupted files"%string)
      as Hmsg.
    { destruct (Crypto.decryptFile _ _ _ _ _ w) as [r w'] eqn:E.
      cbn [fst] in He. subst r. by apply Hone in E. }
    rewrite decryptFile_run in He. cbn [fst] in He.
    rewrite (handleDecrypt_failed file image pin w c x e) by done.
    cbn [fst snd allocated trace logged].
    split; [done|]. split.
    + rewrite !shownErrors_app, shownErrors_decryptFile.
      cbn. by rewrite Hmsg.
    + unfold caught. in_trace.
  - intros file image pin w c e Hvalid Himg Hx.
    rewrite (handleDecrypt_unreadable file image pin w c e) by done.
    cbn [fst snd trace logged]. split; [done|].
    rewrite !shownErrors_app. reflexivity.
Qed.

End Indistinguishable.

Lemma C8_failure_messages_witness :
  (* a wrong PIN: the MAC does not match *)
  Crypto.getCryptoErrorMessage
    "Failed to decrypt file: HMAC verification failed - data may be corrupted"%string
  = "Decryption failed - incorrect PIN or corrupted files"%string
  /\ shownErrors
       (Platform.trace
          (snd (App.handleDecrypt (S := Toy.subtle) (B := Toy.browser)
                  (Some Toy.encryptedFile) (Some Toy.keyImage) Toy.otherPin
                  Toy.world)))
     = shownErrors (Platform.trace Toy.world)
         ++ ["Decryption failed - incorrect PIN or corrupted files"%string]
  /\ Platform.ConsoleError "Decryption error:"
       "Failed to decrypt file: HMAC verification failed - data may be corrupted"%string
     ∈ Platform.trace
         (snd (App.handleDecrypt (S := Toy.subtle) (B := Toy.browser)
                 (Some Toy.encryptedFile) (Some Toy.keyImage) Toy.otherPin
                 Toy.world)).
Proof.
  destruct (C8_failure_messages (S := Toy.subtle) (B := Toy.browser))
    as (_ & Hone & Hshown & _).
  split.
  - apply (Hone (Crypto.encrypted Toy.sealed) Toy.otherPin
             (Crypto.salt Toy.sealed) (Crypto.iv Toy.sealed)
             (Crypto.hmac Toy.sealed) Toy.world
             (snd (Crypto.decryptFile (S := Toy.subtle)
                     (Crypto.encrypted Toy.sealed) Toy.otherPin
                     (Crypto.salt Toy.sealed) (Crypto.iv Toy.sealed)
                     (Crypto.hmac Toy.sealed) Toy.world))).
    vm_compute. reflexivity.
  - apply (Hshown Toy.encryptedFile Toy.keyImage Toy.otherPin Toy.world
             (snd (embedDataInImage Sample.canvas (Crypto.salt Toy.sealed)
                     (Crypto.iv Toy.sealed) (Crypto.hmac Toy.sealed)
                     (Platform.raw (Crypto.key Toy.sealed))))
             {| salt := Crypto.salt Toy.sealed; iv := Crypto.iv Toy.sealed;
                keyBytes := Platform.raw (Crypto.key Toy.sealed);
                hmac := Crypto.hmac Toy.sealed |});
      vm_compute; reflexivity.
Defined.

(** * More of the code *)

(** ** The header number and its four bytes *)

Section NumberBytes.

Lemma land_255 a : Z.land a 0xFF = a mod 256.
Proof. change 0xFF with (Z.ones 8). by rewrite Z.land_ones. Qed.

Lemma numberToBytes_digits n :
  let N := Js.toInt32 n in
  numberToBytes n
  = [ (N / 2 ^ 24) mod 256; (N / 2 ^ 16) mod 256; (N / 2 ^ 8) mod 256;
      N mod 256 ].
Proof.
  intros N. pose proof (toInt32_range n) as HN. fold N in HN.
  unfold numberToBytes, Js.band, Js.sar. fold N.
  change (Js.toInt32 0xFF) with 0xFF.
  change (24 mod 32) with 24. change (16 mod 32) with 16.
  change (8 mod 32) with 8.
  rewrite !Z.shiftr_div_pow2 by lia.
  rewrite !toInt32_small by (change (2 ^ 31) with 2147483648;
                             change (2 ^ 24) with 16777216;
                             change (2 ^ 16) with 65536;
                             change (2 ^ 8) with 256; lia).
  by rewrite !land_255.
Qed.

(** X1: the four bytes of the header decode to the number they were made
    from, as a signed 32-bit number; and any four bytes are the bytes of
    the number they decode to. *)
Theorem number_bytes_round_trip (b0 b1 b2 b3 : Z) :
  Js.is_byte b0 -> Js.is_byte b1 -> Js.is_byte b2 -> Js.is_byte b3 ->
  numberToBytes (bytesToNumber [b0; b1; b2; b3]) = [b0; b1; b2; b3]
  /\ forall n,
       Js.bytes (numberToBytes n)
       /\ bytesToNumber (numberToBytes n) = Js.toInt32 n.
Proof.
  intros H0 H1 H2 H3. unfold Js.is_byte in *. split.
  - rewrite numberToBytes_digits. cbn zeta.
    rewrite bytesToNumber_big_endian by done. rewrite toInt32_idem.
    set (s := b0 * 2 ^ 24 + b1 * 2 ^ 16 + b2 * 2 ^ 8 + b3).
    assert (0 <= s < 2 ^ 32) as Hs by (subst s; lia).
    unfold Js.toInt32. rewrite (Z.mod_small s) by done.
    destruct (Z.ltb_spec s (2 ^ 31)); subst s;
      repeat f_equal; lia.
  - intros n. rewrite numberToBytes_digits. cbn zeta.
    pose proof (toInt32_range n) as HN.
    set (N := Js.toInt32 n) in *.
    split.
    + repeat constructor; lia.
    + rewrite bytesToNumber_big_endian by (unfold Js.is_byte; lia).
      transitivity (Js.toInt32 N); [|by apply toInt32_small].
      unfold Js.toInt32.
      replace (((N / 2 ^ 24) mod 256 * 2 ^ 24 + (N / 2 ^ 16) mod 256 * 2 ^ 16
                + (N / 2 ^ 8) mod 256 * 2 ^ 8 + N mod 256) mod 2 ^ 32)
        with (N mod 2 ^ 32); [done|].
      lia.
Qed.

Lemma number_bytes_round_trip_witness :
  numberToBytes (bytesToNumber [255; 0; 18; 92]) = [255; 0; 18; 92]
  /\ forall n,
       Js.bytes (numberToBytes n)
       /\ bytesToNumber (numberToBytes n) = Js.toInt32 n.
Proof.
  apply (number_bytes_round_trip 255 0 18 92); unfold Js.is_byte; lia.
Defined.

End NumberBytes.

(** ** Embedding again *)

Section EmbedAgain.

Lemma setLsb_setLsb v w w' :
  setLsb (setLsb v (Z.land w 1)) (Z.land w' 1) = setLsb v (Z.land w' 1).
Proof.
  unfold setLsb. apply Z.bits_inj'. intros n Hn.
  rewrite !Z.lor_spec, !Z.land_spec, !Z.lor_spec, !Z.land_spec.
  destruct (Z.eq_dec n 0) as [->|Hn0].
  - change (Z.testbit 0xFE 0) with false. by rewrite !andb_false_r.
  - assert (Z.testbit 1 n = false) as ->.
    { change 1 with (2 ^ 0). apply Z.pow2_bits_false. lia. }
    by rewrite !andb_false_r, !orb_false_r, <- andb_assoc, andb_diag.
Qed.

Lemma written_written d d' k px :
  written d' k (written d k px) = written d' k px.
Proof.
  apply list_eq. intros j. rewrite !lookup_written.
  destruct (px !! j) as [v|]; [|done]. cbn [fmap option_fmap option_map].
  destruct ((j mod 4 <? 3)%nat && (slot j <? k)%nat); [|done].
  unfold stegoBit. by rewrite setLsb_setLsb.
Qed.

Context {K : Context2D} {KL : Context2DLaws K}.

(** X2: on a canvas whose pixels are all opaque, embedding writes over
    what an earlier embedding left: after a successful embedding, embedding
    other fields gives the canvas that embedding them in the first place
    would have given; embedding the same fields once more changes
    nothing. *)
Theorem embed_overwrites (c c1 c1' : Canvas)
    (salt1 iv1 hmac1 keyBytes1 salt2 iv2 hmac2 keyBytes2 : list Z) :
  wellFormed c -> opaqueUpTo (pixelCount c) c ->
  embedDataInImage c salt1 iv1 hmac1 keyBytes1 = (inr c1, c1') ->
  fst (embedDataInImage c1 salt2 iv2 hmac2 keyBytes2)
  = fst (embedDataInImage c salt2 iv2 hmac2 keyBytes2)
  /\ embedDataInImage c1 salt1 iv1 hmac1 keyBytes1 = (inr c1, c1).
Proof.
  intros Hwf Hop H.
  apply embed_inv in H as (d & Hd & Hl & Hlen & -> & ->).
  assert (stored (written d 768 (data c)) = written d 768 (data c)) as Hst.
  { apply (stored_all_opaque _ (pixelCount c)).
    - rewrite length_written. exact Hwf.
    - intros p Hp. unfold opaqueAt. rewrite written_alpha. by apply Hop. }
  assert (putImageData c (written d 768 (data c))
          = {| width := width c; height := height c;
               data := written d 768 (data c) |}) as ->.
  { unfold putImageData. by rewrite Hst. }
  split.
  - unfold embedDataInImage.
    destruct (dataToEmbed salt2 iv2 hmac2 keyBytes2) as [d2|] eqn:Hd2;
      [|done].
    pose proof (length_dataToEmbed _ _ _ _ _ Hd2) as Hl2.
    unfold getImageData. cbn [data]. rewrite length_written.
    destruct (tooSmall _ _); [done|]. cbn [fst]. f_equal.
    unfold putImageData. cbn [width height]. f_equal. f_equal.
    rewrite !embedLoop_run by (rewrite ?length_written; lia).
    rewrite Hl2. cbn [embedAt pixels].
    change (8 * 96)%nat with 768%nat. apply written_written.
  - rewrite (embed_enough _ _ _ _ _ d Hd)
      by (cbn [data]; by rewrite length_written).
    unfold putImageData. cbn [data width height].
    by rewrite written_written, Hst.
Qed.

End EmbedAgain.

Lemma embed_overwrites_witness :
  let c1 := snd (embedDataInImage Sample.canvas Sample.salt Sample.iv
                   Sample.hmac Sample.keyBytes) in
  fst (embedDataInImage c1 Sample.iv Sample.salt Sample.hmac Sample.keyBytes)
  = fst (embedDataInImage Sample.canvas Sample.iv Sample.salt Sample.hmac
           Sample.keyBytes)
  /\ embedDataInImage c1 Sample.salt Sample.iv Sample.hmac Sample.keyBytes
     = (inr c1, c1).
Proof.
  cbn zeta.
  apply (embed_overwrites (K := Premultiplied.context2d) Sample.canvas
           (snd (embedDataInImage Sample.canvas Sample.salt Sample.iv
                   Sample.hmac Sample.keyBytes))
           (snd (embedDataInImage Sample.canvas Sample.salt Sample.iv
                   Sample.hmac Sample.keyBytes))
           Sample.salt Sample.iv Sample.hmac Sample.keyBytes
           Sample.iv Sample.salt Sample.hmac Sample.keyBytes).
  - reflexivity.
  - apply opaqueUpTo_check. vm_compute. reflexivity.
  - vm_compute. reflexivity.
Defined.

(** ** Extraction from a buffer of any size *)

Section ExtractAny.

Variable px : list Z.
Variables total P : nat.
Hypothesis Hlen : length px = (4 * P)%nat.

Local Abbreviation K := (8 * total)%nat.

(** The loop stops when the pixels or the bytes to fill run out, whichever
    comes first. *)
Lemma extractPixels_any fuel p :
  (p <= P)%nat -> (P <= p + fuel)%nat ->
  extractPixels fuel px total (4 * p) (readAt px total (Nat.min (3 * p) K))
  = readAt px total (Nat.min (3 * P) K).
Proof.
  revert p. induction fuel as [|fuel IH]; intros p Hp Hf;
    cbn [extractPixels].
  - by replace p with P by lia.
  - change (xDataIndex (readAt px total (Nat.min (3 * p) K)))
      with (Nat.min (3 * p) K / 8)%nat.
    rewrite Hlen.
    destruct (Nat.ltb_spec (4 * p) (4 * P)) as [Hlt|Hge]; cbn [andb].
    2: { by replace p with P by lia. }
    destruct (Nat.ltb_spec (3 * p) K) as [Hk|Hk].
    + replace (Nat.min (3 * p) K) with (3 * p + 0)%nat by lia.
      replace ((3 * p + 0) / 8 <? total)%nat with true
        by (symmetry; apply Nat.ltb_lt; lia).
      rewrite extractChannels_run by lia.
      replace (4 * p + 4)%nat with (4 * S p)%nat by lia.
      replace (3 * p + 3)%nat with (3 * S p)%nat by lia.
      apply IH; lia.
    + replace (Nat.min (3 * p) K) with K by lia.
      replace (K / 8 <? total)%nat with false
        by (symmetry; apply Nat.ltb_ge; lia).
      f_equal. lia.
Qed.

Lemma extractLoop_any :
  allBytes (extractLoop px total)
  = map (fun j => partialByte px j (Nat.min 8 (Nat.min (3 * P) K - 8 * j)))
      (seq 0 total).
Proof.
  unfold extractLoop. rewrite (readAt_0 px total).
  change 0%nat with (4 * 0)%nat at 1.
  change (readAt px total 0) with (readAt px total (Nat.min (3 * 0) K)).
  rewrite extractPixels_any by lia. reflexivity.
Qed.

End ExtractAny.

Section SmallImages.

Lemma land_1_cases w : Z.land w 1 = 0 \/ Z.land w 1 = 1.
Proof.
  assert (Z.land w 1 = w mod 2) as ->; [|lia].
  change 1 with (Z.ones 1). by rewrite Z.land_ones.
Qed.

(** Three bits are not enough for the last byte of the header. *)
Lemma partialByte_not_92 px j m : (m <= 3)%nat -> partialByte px j m <> 92.
Proof.
  intros Hm.
  assert (m = 0 \/ m = 1 \/ m = 2 \/ m = 3)%nat as [->|[->|[->| ->]]] by lia;
    cbn [partialByte];
    repeat match goal with
      | |- context [Z.land ?w 1] =>
          destruct (land_1_cases w) as [-> | ->]
      end; done.
Qed.

(** X3: [extractDataFromImage] does not check the size of the image.  A
    canvas of fewer than 10 pixels cannot spell the header, so it is always
    refused; from 10 pixels on a canvas can be accepted, and the bytes that
    its pixels do not reach are read as 0. *)
Theorem extract_small_image (c : Canvas) :
  wellFormed c ->
  ((pixelCount c < 10)%nat ->
   extractDataFromImage c = inl (extractPrefix ++ formatMessage)%string)
  /\ (forall j, (3 * pixelCount c <= 8 * j)%nat -> (j < 96)%nat ->
        allBytes (extractLoop (data c) 96) !! j = Some 0)
  /\ extractDataFromImage
       {| width := 10; height := 1;
          data := replicate 32 0 ++ [0; 1; 0; 255; 1; 1; 1; 255] |}
     = inr {| salt := replicate 16 0; iv := replicate 12 0;
              keyBytes := replicate 32 0; hmac := replicate 32 0 |}.
Proof.
  intros Hwf. unfold wellFormed in Hwf.
  pose proof (extractLoop_any (data c) 96 (pixelCount c) Hwf) as Hall.
  split_and!.
  - intros Hp.
    assert (extractDataFromImage c
            = if negb (bytesToNumber
                         (Js.slice (allBytes (extractLoop (data c) 96)) 0 4)
                       =? 92)
              then inl (extractPrefix ++ formatMessage)%string
              else inr {| salt := Js.slice (allBytes (extractLoop (data c) 96)) 4 20;
                          iv := Js.slice (allBytes (extractLoop (data c) 96)) 20 32;
                          keyBytes := Js.slice (allBytes (extractLoop (data c) 96)) 32 64;
                          hmac := Js.slice (allBytes (extractLoop (data c) 96)) 64 96 |})
      as -> by reflexivity.
    rewrite Hall.
    set (f := fun j => partialByte (data c) j _).
    change (Js.slice (map f (seq 0 96)) 0 4) with [f 0; f 1; f 2; f 3]%nat.
    destruct (Z.eqb_spec (bytesToNumber [f 0; f 1; f 2; f 3]%nat) 92)
      as [H92|]; [|done].
    apply bytesToNumber_92 in H92 as (_ & _ & _ & H3);
      try (subst f; apply partialByte_byte; lia).
    exfalso. revert H3. subst f. apply partialByte_not_92. lia.
  - intros j Hj Hj96. rewrite Hall.
    rewrite list_lookup_fmap, lookup_seq_lt by done. cbn [fmap option_fmap option_map Nat.add].
    by replace (Nat.min 8 (Nat.min (3 * pixelCount c) (8 * 96) - 8 * j))
      with 0%nat by lia.
  - vm_compute. reflexivity.
Qed.

Lemma extract_small_image_witness :
  extractDataFromImage
    {| width := 3; height := 3; data := replicate 36 255 |}
  = inl (extractPrefix ++ formatMessage)%string.
Proof.
  refine (proj1 (extract_small_image
                   {| width := 3; height := 3; data := replicate 36 255 |} _)
            _).
  - reflexivity.
  - vm_compute. lia.
Defined.

End SmallImages.

(** ** The self-test and the format check *)

Section SelfTest.

Context {K : Context2D} {KL : Context2DLaws K}.

(** X4: the self-test answers false for a canvas with fewer than the 1024
    bytes of 256 pixels and leaves it as it was; only a canvas with the
    1024 bytes can pass; one whose first 256 pixels are opaque does pass,
    and is left with the test fields embedded in it.  A large canvas need
    not pass: the transparent 64 x 64 canvas fails on a bitmap that keeps
    premultiplied colour. *)
Theorem testSteganography_spec (c : Canvas) :
  ((length (data c) < 1024)%nat ->
   StegoCheck.testSteganography c = (false, c))
  /\ (fst (StegoCheck.testSteganography c) = true ->
      (1024 <= length (data c))%nat)
  /\ ((1024 <= length (data c))%nat -> opaqueUpTo 256 c ->
      fst (StegoCheck.testSteganography c) = true
      /\ extractDataFromImage (snd (StegoCheck.testSteganography c))
         = inr {| salt := replicate 16 1; iv := replicate 12 2;
                  keyBytes := replicate 32 3; hmac := replicate 32 4 |})
  /\ fst (StegoCheck.testSteganography (K := Premultiplied.context2d)
            Sample.blackCanvas) = false.
Proof.
  set (d := [0; 0; 0; 92] ++ replicate 16 1 ++ replicate 12 2
              ++ replicate 32 3 ++ replicate 32 4).
  assert (dataToEmbed (replicate 16 1) (replicate 12 2) (replicate 32 4)
            (replicate 32 3) = Some d) as Hd by reflexivity.
  assert ((length (data c) < 1024)%nat ->
          StegoCheck.testSteganography c = (false, c)) as Hshort.
  { intros Hc. unfold StegoCheck.testSteganography.
    change (replicate SALT_SIZE 1) with (replicate 16 1).
    change (replicate IV_SIZE 2) with (replicate 12 2).
    change (replicate KEY_SIZE 3) with (replicate 32 3).
    change (replicate HMAC_SIZE 4) with (replicate 32 4).
    by rewrite (embed_short _ _ _ _ _ d Hd Hc). }
  split; [exact Hshort|]. split; [|split].
  - intros Htrue.
    destruct (Nat.le_gt_cases 1024 (length (data c))) as [Hc|Hc]; [done|].
    rewrite (Hshort Hc) in Htrue. done.
  - intros Hc Hop. unfold StegoCheck.testSteganography.
    change (replicate SALT_SIZE 1) with (replicate 16 1).
    change (replicate IV_SIZE 2) with (replicate 12 2).
    change (replicate KEY_SIZE 3) with (replicate 32 3).
    change (replicate HMAC_SIZE 4) with (replicate 32 4).
    rewrite (embed_enough _ _ _ _ _ d Hd Hc).
    assert (extractDataFromImage (putImageData c (written d 768 (data c)))
            = inr {| salt := replicate 16 1; iv := replicate 12 2;
                     keyBytes := replicate 32 3; hmac := replicate 32 4 |})
      as Hx.
    { apply extract_fields; try done. cbn [putImageData data].
      apply extractLoop_stored; [|done|done|done].
      apply bytes_check. reflexivity. }
    rewrite Hx. cbn [fst snd]. split; [|exact Hx]. done.
  - vm_compute. reflexivity.
Qed.

End SelfTest.

Lemma testSteganography_spec_witness :
  fst (StegoCheck.testSteganography Sample.canvas) = true
  /\ StegoCheck.testSteganography Sample.smallCanvas
     = (false, Sample.smallCanvas).
Proof.
  destruct (testSteganography_spec (K := Premultiplied.context2d)
              Sample.canvas) as (_ & _ & Hpass & _).
  destruct (testSteganography_spec (K := Premultiplied.context2d)
              Sample.smallCanvas) as (Hshort & _).
  split.
  - apply Hpass; [vm_compute; lia|].
    apply opaqueUpTo_check. vm_compute. reflexivity.
  - apply Hshort. vm_compute. lia.
Defined.

(** X5: [verifyImageFormat] accepts a file exactly when its type is
    image/png and its content starts with the bytes 89 50 4E 47; such a
    file is one that [validateKeyImage] accepts. *)
Theorem verifyImageFormat_spec (f : Validation.File) :
  (StegoCheck.verifyImageFormat f = true
   <-> Validation.type f = "image/png"%string
       /\ exists rest,
            Validation.content f = 0x89 :: 0x50 :: 0x4E :: 0x47 :: rest)
  /\ (StegoCheck.verifyImageFormat f = true ->
      Validation.valid (Validation.validateKeyImage (Some f)) = true).
Proof.
  assert (StegoCheck.verifyImageFormat f = true
          <-> Validation.type f = "image/png"%string
              /\ exists rest,
                   Validation.content f = 0x89 :: 0x50 :: 0x4E :: 0x47 :: rest)
    as Hspec.
  { unfold StegoCheck.verifyImageFormat.
    destruct (String.eqb_spec (Validation.type f) "image/png") as [Ht|Ht].
    2: { rewrite orb_true_r. split; [done|]. by intros [? _]. }
    rewrite Ht. cbn [String.eqb Ascii.eqb Bool.eqb orb negb].
    rewrite !andb_true_iff, !bool_decide_eq_true. unfold Js.slice.
    cbn [Nat.sub drop].
    destruct (Validation.content f) as [|b0 [|b1 [|b2 [|b3 rest]]]];
      cbn [take drop lookup list_lookup];
      (split;
       [ intros [[[? ?] ?] ?]; simplify_eq; eauto
       | intros (_ & ? & ?); by simplify_eq ]). }
  split; [exact Hspec|].
  intros H. apply Hspec in H as (Ht & rest & Hc).
  unfold Validation.validateKeyImage, Validation.size. rewrite Ht, Hc.
  cbn [String.eqb Ascii.eqb Bool.eqb String.prefix negb].
  replace (Z.of_nat (length (137 :: 80 :: 78 :: 71 :: rest)) =? 0) with false
    by (symmetry; apply Z.eqb_neq; cbn [length]; lia).
  by destruct (_ <? _).
Qed.

Lemma verifyImageFormat_spec_witness :
  Validation.valid
    (Validation.validateKeyImage
       (Some {| Validation.name := "key-image.png";
                Validation.type := "image/png";
                Validation.content := [0x89; 0x50; 0x4E; 0x47; 13; 10] |}))
  = true.
Proof.
  apply (proj2 (verifyImageFormat_spec
                  {| Validation.name := "key-image.png";
                     Validation.type := "image/png";
                     Validation.content := [0x89; 0x50; 0x4E; 0x47; 13; 10] |})).
  reflexivity.
Defined.

(** ** What the handlers show when validation fails *)

Section Rejected.

Import Platform.

Lemma validatePIN_cases pin :
  Validation.validatePIN pin
  ∈ [ Validation.fails "PIN is required";
      Validation.fails "PIN must be exactly 6 digits";
      Validation.fails "PIN must contain only numbers";
      Validation.warns
        "This PIN is weak. Consider using a more random combination.";
      Validation.ok ].
Proof.
  unfold Validation.validatePIN.
  repeat match goal with |- context [if ?b then _ else _] => destruct b end;
    set_solver.
Qed.

Lemma validateEncryptionFile_cases file :
  Validation.validateEncryptionFile file
  ∈ [ Validation.fails "No file selected";
      Validation.fails "File is empty";
      Validation.fails "File is too large. Maximum size is 1GB (1.0GB)";
      Validation.ok ].
Proof.
  unfold Validation.validateEncryptionFile. destruct file; [|set_solver].
  repeat match goal with |- context [if ?b then _ else _] => destruct b end;
    set_solver.
Qed.

Lemma validateEncryptedFile_cases file :
  Validation.validateEncryptedFile file
  ∈ [ Validation.fails "No encrypted file selected";
      Validation.fails "Encrypted file is empty";
      Validation.warns
        "File does not have .encrypted extension. Make sure this is the correct encrypted file.";
      Validation.ok ].
Proof.
  unfold Validation.validateEncryptedFile. destruct file; [|set_solver].
  repeat match goal with |- context [if ?b then _ else _] => destruct b end;
    set_solver.
Qed.

Lemma validateKeyImage_cases file :
  Validation.validateKeyImage file
  ∈ [ Validation.fails "No key image selected";
      Validation.fails "Key image is empty";
      Validation.fails "Selected file is not an image";
      Validation.fails
        "Key image must be PNG format. JPEG and other formats will not work.";
      Validation.warns
        "Image seems small. Make sure this is the correct key image.";
      Validation.ok ].
Proof.
  unfold Validation.validateKeyImage. destruct file; [|set_solver].
  repeat match goal with |- context [if ?b then _ else _] => destruct b end;
    set_solver.
Qed.

Lemma shownErrors_caught mode label e :
  shownErrors (caught mode label e) = [Crypto.getCryptoErrorMessage e].
Proof. reflexivity. Qed.

Lemma encryption_errors_general file pin :
  Crypto.getCryptoErrorMessage
    (Validation.formatValidationErrors
       (Validation.errors (Validation.validateEncryptionInputs file pin)))
  = "An encryption error occurred. Please try again."%string.
Proof.
  unfold Validation.validateEncryptionInputs. cbn [Validation.errors].
  pose proof (validateEncryptionFile_cases file) as Hf.
  pose proof (validatePIN_cases pin) as Hp.
  revert Hf Hp.
  generalize (Validation.validateEncryptionFile file).
  generalize (Validation.validatePIN pin).
  intros p f Hf Hp.
  repeat (apply elem_of_cons in Hf as [->|Hf]);
    [..|by apply elem_of_nil in Hf];
    repeat (apply elem_of_cons in Hp as [->|Hp]);
    try (by apply elem_of_nil in Hp);
    vm_compute; reflexivity.
Qed.

Lemma decryption_errors_general encryptedFile keyImage pin :
  Crypto.getCryptoErrorMessage
    (Validation.formatValidationErrors
       (Validation.errors
          (Validation.validateDecryptionInputs encryptedFile keyImage pin)))
  = "An encryption error occurred. Please try again."%string.
Proof.
  unfold Validation.validateDecryptionInputs. cbn [Validation.errors].
  pose proof (validateEncryptedFile_cases encryptedFile) as Hf.
  pose proof (validateKeyImage_cases keyImage) as Hk.
  pose proof (validatePIN_cases pin) as Hp.
  revert Hf Hk Hp.
  generalize (Validation.validateEncryptedFile encryptedFile).
  generalize (Validation.validateKeyImage keyImage).
  generalize (Validation.validatePIN pin).
  intros p k f Hf Hk Hp.
  repeat (apply elem_of_cons in Hf as [->|Hf]);
    [..|by apply elem_of_nil in Hf];
    repeat (apply elem_of_cons in Hk as [->|Hk]);
    try (by apply elem_of_nil in Hk);
    repeat (apply elem_of_cons in Hp as [->|Hp]);
    try (by apply elem_of_nil in Hp);
    vm_compute; reflexivity.
Qed.

Context {S : Subtle} {B : Browser} {K : Context2D}.

(** X6: when the validation of the inputs fails, a handler stops before
    anything else is done, and the dialog does not say what was wrong: for
    every way in which the file, the key image or the PIN can be invalid,
    the message shown is the general one of [getCryptoErrorMessage]. *)
Theorem validation_errors_hidden :
  (forall file pin w,
      Validation.allValid (Validation.validateEncryptionInputs file pin)
      = false ->
      exists message,
        App.handleEncrypt file pin w
        = (inr tt,
           logged w (entered "encrypt"
                       ++ caught "encrypt" "Encryption error:" message))
        /\ shownErrors (caught "encrypt" "Encryption error:" message)
           = ["An encryption error occurred. Please try again."%string])
  /\ (forall encryptedFile keyImage pin w,
        Validation.allValid
          (Validation.validateDecryptionInputs encryptedFile keyImage pin)
        = false ->
        exists message,
          App.handleDecrypt encryptedFile keyImage pin w
          = (inr tt,
             logged w (entered "decrypt"
                         ++ caught "decrypt" "Decryption error:" message))
          /\ shownErrors (caught "decrypt" "Decryption error:" message)
             = ["An encryption error occurred. Please try again."%string]).
Proof.
  split.
  - intros file pin w H. eexists. split.
    + unfold App.handleEncrypt. run. rewrite H. run. reflexivity.
    + by rewrite shownErrors_caught, encryption_errors_general.
  - intros ef ki pin w H. eexists. split.
    + unfold App.handleDecrypt. run. rewrite H. run. reflexivity.
    + by rewrite shownErrors_caught, decryption_errors_general.
Qed.

End Rejected.

Lemma validation_errors_hidden_witness :
  exists message,
    App.handleEncrypt (S := Toy.subtle) (B := Toy.browser)
      (Some Toy.emptyFile) Toy.pin Toy.world
    = (inr tt,
       Platform.logged Toy.world
         (entered "encrypt"
            ++ caught "encrypt" "Encryption error:" message))
    /\ shownErrors (caught "encrypt" "Encryption error:" message)
       = ["An encryption error occurred. Please try again."%string].
Proof.
  apply (proj1 (validation_errors_hidden (S := Toy.subtle)
                  (B := Toy.browser))).
  reflexivity.
Defined.

(** ** The PIN generator *)

Section RandomPIN.

Import Platform.

Lemma digit_of_byte n :
  0 <= n < 256 ->
  Js.str (Js.ofNat (Z.to_nat (Z.rem n 10))) = [48 + n mod 10].
Proof.
  intros Hn.
  apply (byte_cases
           (fun n => bool_decide
                       (Js.str (Js.ofNat (Z.to_nat (Z.rem n 10)))
                        = [48 + n mod 10]))) in Hn.
  - by apply bool_decide_eq_true in Hn.
  - vm_compute. reflexivity.
Qed.

Lemma pin_of_bytes (array : list Z) :
  Js.bytes array ->
  mjoin (map (fun n => Js.str (Js.ofNat (Z.to_nat (Z.rem n 10)))) array)
  = map (fun n => 48 + n mod 10) array.
Proof.
  induction 1 as [|n array Hn _ IH]; [done|].
  cbn [map]. change (mjoin (?x :: ?l)) with (x ++ mjoin l).
  by rewrite IH, digit_of_byte.
Qed.

Lemma bytes_randomBytes w n : Js.bytes (randomBytes w n).
Proof.
  unfold randomBytes. apply Forall_map, Forall_forall. intros i _.
  unfold Js.is_byte. lia.
Qed.

(** X8: the PIN that [generateRandomPIN] makes of six random bytes is one
    that [validatePIN] accepts: six decimal digits, digit [i] being byte
    [i] modulo 10.  Nothing keeps it from being one of the weak PINs. *)
Theorem generateRandomPIN_valid (w : World) :
  let pin := map (fun n => 48 + n mod 10) (randomBytes w 6) in
  ValidationTools.generateRandomPIN w
  = (inr pin, logged (draw w 6) [GetRandomValues 6])
  /\ Validation.valid (Validation.validatePIN pin) = true
  /\ ((forall i, entropy w i = 0) ->
      Validation.validatePIN pin
      = Validation.warns
          "This PIN is weak. Consider using a more random combination.").
Proof.
  intros pin. split_and!.
  - unfold ValidationTools.generateRandomPIN, getRandomValues. run.
    by rewrite pin_of_bytes by apply bytes_randomBytes.
  - apply validatePIN_spec. subst pin. split.
    + by rewrite length_map, length_randomBytes.
    + apply Forall_map, Forall_forall. intros n _. cbn. lia.
  - intros H0. subst pin. unfold randomBytes. rewrite map_map.
    cbn [seq map]. rewrite !H0. reflexivity.
Qed.

End RandomPIN.

Lemma generateRandomPIN_valid_witness :
  Validation.validatePIN
    (map (fun n => 48 + n mod 10)
       (Platform.randomBytes
          {| Platform.entropy := fun _ => 0; Platform.drawn := 0;
             Platform.heap := []; Platform.encryptedFileData := None;
             Platform.trace := [] |} 6))
  = Validation.warns
      "This PIN is weak. Consider using a more random combination.".
Proof.
  apply (proj2 (proj2 (generateRandomPIN_valid
                         {| Platform.entropy := fun _ => 0;
                            Platform.drawn := 0; Platform.heap := [];
                            Platform.encryptedFileData := None;
                            Platform.trace := [] |}))).
  intros i. reflexivity.
Defined.

(** ** File names *)

Section FileNames.

Lemma sanitized_safe c :
  FileHandler.unsafeChar (if FileHandler.unsafeChar c then 95 else c) = false.
Proof. by destruct (FileHandler.unsafeChar c) eqn:E. Qed.

Lemma existsb_unsafe_false (l : list Z) :
  Forall (fun c => FileHandler.unsafeChar c = false) l ->
  existsb FileHandler.unsafeChar l = false.
Proof.
  induction 1 as [|c l Hc _ IH]; [done|]. cbn [existsb]. by rewrite Hc, IH.
Qed.

Lemma map_safe (l : list Z) :
  Forall (fun c => FileHandler.unsafeChar c = false) l ->
  map (fun c => if FileHandler.unsafeChar c then 95 else c) l = l.
Proof.
  induction 1 as [|c l Hc _ IH]; [done|]. cbn [map]. by rewrite Hc, IH.
Qed.

(** X9: [sanitizeFilename] keeps the first 255 code units of a name and
    replaces each unsafe one by an underscore.  Its result holds no unsafe
    character, is left as it is by a second pass, and is accepted by
    [validateFilename] unless the name was empty; a name that
    [validateFilename] accepts is not changed. *)
Theorem sanitizeFilename_spec (filename : list Z) :
  let s := FileHandler.sanitizeFilename filename in
  length s = Nat.min 255 (length filename)
  /\ Forall (fun c => FileHandler.unsafeChar c = false) s
  /\ FileHandler.sanitizeFilename s = s
  /\ (Validation.valid (ValidationTools.validateFilename s) = true
      <-> filename <> [])
  /\ (Validation.valid (ValidationTools.validateFilename filename) = true ->
      s = filename).
Proof.
  intros s.
  assert (length s = Nat.min 255 (length filename)) as Hlen.
  { subst s. unfold FileHandler.sanitizeFilename.
    by rewrite length_take, length_map. }
  assert (Forall (fun c => FileHandler.unsafeChar c = false) s) as Hsafe.
  { subst s. unfold FileHandler.sanitizeFilename. apply Forall_take.
    apply Forall_map, Forall_forall. intros c _. apply sanitized_safe. }
  split_and!; try done.
  - unfold FileHandler.sanitizeFilename at 1. rewrite map_safe by done.
    apply take_ge. lia.
  - unfold ValidationTools.validateFilename.
    rewrite existsb_unsafe_false by done. rewrite Hlen.
    destruct filename as [|c l]; [done|]. cbn [length].
    replace (Nat.min 255 (S (length l)) =? 0)%nat with false
      by (symmetry; apply Nat.eqb_neq; lia).
    replace (255 <? Nat.min 255 (S (length l)))%nat with false
      by (symmetry; apply Nat.ltb_ge; lia).
    done.
  - unfold ValidationTools.validateFilename.
    destruct (length filename =? 0)%nat; [done|].
    destruct (Nat.ltb_spec 255 (length filename)); [done|].
    destruct (existsb FileHandler.unsafeChar filename) eqn:E; [done|].
    intros _. subst s. unfold FileHandler.sanitizeFilename.
    rewrite map_safe.
    + apply take_ge. lia.
    + apply Forall_forall. intros c Hc.
      destruct (FileHandler.unsafeChar c) eqn:Ec; [|done].
      assert (existsb FileHandler.unsafeChar filename = true) as E'
        by (apply existsb_exists; exists c; by rewrite <- list_elem_of_In).
      congruence.
Qed.

Lemma sanitizeFilename_spec_witness :
  FileHandler.sanitizeFilename (Js.str "notes.txt") = Js.str "notes.txt".
Proof.
  apply (proj2 (proj2 (proj2 (proj2
           (sanitizeFilename_spec (Js.str "notes.txt")))))).
  reflexivity.
Defined.

Lemma lastIndexOf_None (s : list Z) (c : Z) :
  c ∉ s -> JsWords.lastIndexOf s c = None.
Proof.
  induction s as [|x s IH]; [done|]. intros H.
  apply not_elem_of_cons in H as [Hx Hs]. cbn [JsWords.lastIndexOf].
  rewrite IH by done. destruct (Z.eqb_spec x c); congruence.
Qed.

Lemma lastIndexOf_app (stem ext : list Z) (c : Z) :
  c ∉ ext ->
  JsWords.lastIndexOf (stem ++ c :: ext) c = Some (length stem).
Proof.
  intros H. induction stem as [|x stem IH].
  - cbn [app JsWords.lastIndexOf length]. rewrite lastIndexOf_None by done.
    by rewrite Z.eqb_refl.
  - cbn [app JsWords.lastIndexOf length]. by rewrite IH.
Qed.

(** X10: [getFileExtension] returns what follows the last dot of a name,
    the dot included, and the empty string for a name without a dot. *)
Theorem getFileExtension_spec :
  (forall filename, 46 ∉ filename ->
                    FileHandler.getFileExtension filename = [])
  /\ (forall stem ext, 46 ∉ ext ->
        FileHandler.getFileExtension (stem ++ 46 :: ext) = 46 :: ext).
Proof.
  split.
  - intros filename H. unfold FileHandler.getFileExtension.
    by rewrite lastIndexOf_None.
  - intros stem ext H. unfold FileHandler.getFileExtension.
    rewrite lastIndexOf_app by done. by rewrite drop_app_length.
Qed.

Lemma getFileExtension_spec_witness :
  FileHandler.getFileExtension (Js.str "notes.txt" ++ 46 :: Js.str "encrypted")
  = 46 :: Js.str "encrypted".
Proof.
  apply (proj2 getFileExtension_spec).
  apply (bool_decide_unpack _). vm_compute. exact I.
Defined.

(** X11: the size check of fileHandler.js and the one of
    [validateEncryptionFile] accept the same files: those of 1 byte to
    1 GB. *)
Theorem validateFileSize_agrees (f : Validation.File) :
  FileHandler.validateFileSize f
  = Validation.valid (Validation.validateEncryptionFile (Some f))
  /\ (FileHandler.validateFileSize f = true
      <-> 1 <= Validation.size f <= 1073741824).
Proof.
  unfold FileHandler.validateFileSize, Validation.validateEncryptionFile,
    FileHandler.MAX_FILE_SIZE.
  change (1024 * 1024 * 1024) with 1073741824.
  assert (0 <= Validation.size f) by (unfold Validation.size; lia).
  destruct (Z.eqb_spec (Validation.size f) 0);
    destruct (Z.ltb_spec 1073741824 (Validation.size f));
    destruct (Z.ltb_spec 0 (Validation.size f));
    destruct (Z.leb_spec (Validation.size f) 1073741824);
    cbn; (split; [done || lia | split; (done || lia)]).
Qed.

End FileNames.

(** ** Reading a file in chunks *)

Section Chunks.

Lemma CHUNK_SIZE_pos : (0 < FileHandler.CHUNK_SIZE)%nat.
Proof. unfold FileHandler.CHUNK_SIZE. lia. Qed.

Lemma readNextChunk_run fuel content offset chunks calls :
  (offset <= length content)%nat -> (length content - offset < fuel)%nat ->
  let r := FileHandler.readNextChunk fuel content offset chunks calls in
  concat (fst r) = concat chunks ++ drop offset content
  /\ last (snd r) = Some (length content, length content).
Proof.
  pose proof CHUNK_SIZE_pos as Hc.
  revert offset chunks calls.
  induction fuel as [|fuel IH]; intros offset chunks calls Ho Hf; [lia|].
  cbn [FileHandler.readNextChunk]. unfold Js.slice.
  replace (offset + FileHandler.CHUNK_SIZE - offset)%nat
    with FileHandler.CHUNK_SIZE by lia.
  remember (take FileHandler.CHUNK_SIZE (drop offset content)) as r eqn:Er.
  assert (length r
          = Nat.min FileHandler.CHUNK_SIZE (length content - offset)) as Hr
    by (subst r; by rewrite length_take, length_drop).
  destruct (Nat.ltb_spec (offset + length r) (length content)) as [Hlt|Hge].
  - destruct (IH (offset + length r)%nat (chunks ++ [r])
                (calls ++ [((offset + length r)%nat, length content)]))
      as [IH1 IH2]; [lia|lia|].
    split; [|exact IH2]. rewrite IH1.
    rewrite concat_app. cbn [concat]. rewrite app_nil_r, <- app_assoc.
    f_equal. rewrite <- drop_drop, Hr. subst r.
    replace (Nat.min FileHandler.CHUNK_SIZE (length content - offset))
      with FileHandler.CHUNK_SIZE by lia.
    apply take_drop.
  - cbn [fst snd]. split.
    + rewrite concat_app. cbn [concat]. rewrite app_nil_r. f_equal.
      subst r. apply take_ge. rewrite length_drop. lia.
    + rewrite last_snoc.
      by replace (offset + length r)%nat with (length content) by lia.
Qed.

Lemma total_length (chunks : list (list Z)) (acc : nat) :
  fold_left (fun acc chunk => (acc + length chunk)%nat) chunks acc
  = (acc + length (concat chunks))%nat.
Proof.
  revert acc. induction chunks as [|chunk chunks IH]; intros acc;
    cbn [fold_left concat length].
  - lia.
  - rewrite IH, length_app. lia.
Qed.

Lemma combine_run (chunks : list (list Z)) (pre : list Z) :
  FileHandler.combine chunks
    (pre ++ Js.zeros (length (concat chunks))) (length pre)
  = Some (pre ++ concat chunks).
Proof.
  revert pre. induction chunks as [|chunk chunks IH]; intros pre.
  - cbn [FileHandler.combine concat length]. unfold Js.zeros.
    cbn [replicate]. done.
  - cbn [FileHandler.combine concat]. rewrite length_app.
    unfold Js.zeros. rewrite replicate_add.
    rewrite (set_app pre (replicate (length chunk) 0) _ chunk)
      by (rewrite ?length_replicate; done).
    cbn [mbind option_bind].
    specialize (IH (pre ++ chunk)). rewrite length_app in IH.
    unfold Js.zeros in IH. rewrite <- !app_assoc in IH. exact IH.
Qed.

(** X12: [readFileInChunks] returns the bytes of the file, whatever its
    size (the empty file too), and the last call of the progress callback
    reports all of them as read. *)
Theorem readFileInChunks_content (file : Validation.File) :
  fst (FileHandler.readFileInChunks file) = Some (Validation.content file)
  /\ last (snd (FileHandler.readFileInChunks file))
     = Some (length (Validation.content file),
             length (Validation.content file)).
Proof.
  unfold FileHandler.readFileInChunks.
  destruct (readNextChunk_run (S (length (Validation.content file)))
              (Validation.content file) 0 [] []) as [H1 H2]; [lia|lia|].
  cbn zeta in *.
  destruct (FileHandler.readNextChunk _ _ _ _ _) as [chunks calls].
  cbn [fst snd concat app] in *. rewrite drop_0 in H1. split; [|exact H2].
  rewrite total_length. cbn [Nat.add].
  rewrite <- H1. apply (combine_run chunks []).
Qed.

End Chunks.

(** ** Random bytes, MACs and imported keys *)

Section Keys.

Import Platform.
Context {S : Subtle}.

(** X13: [encryptFile] takes 28 random bytes, whether it succeeds or not:
    the salt is the next 16 bytes of the generator and the iv the 12 after
    them, so that two encryptions never share a byte of it.  It touches no
    array and not the saved result. *)
Theorem encryptFile_randomness (file : Validation.File) (pin : list Z)
    (w : World) :
  let w' := snd (Crypto.encryptFile file pin w) in
  drawn w' = (drawn w + 28)%nat
  /\ entropy w' = entropy w /\ heap w' = heap w
  /\ encryptedFileData w' = encryptedFileData w
  /\ forall r,
       fst (Crypto.encryptFile file pin w) = inr r ->
       Crypto.salt r
       = map (fun i => entropy w i mod 256) (seq (drawn w) 16)
       /\ Crypto.iv r
          = map (fun i => entropy w i mod 256) (seq (drawn w + 16) 12)
       /\ Js.bytes (Crypto.salt r) /\ Js.bytes (Crypto.iv r).
Proof.
  rewrite encryptFile_run. cbn zeta. cbn [fst snd].
  split_and!; try reflexivity.
  intros r. unfold encryptFileOutcome.
  destruct (pbkdf2 _ _ _ _ _) as [k|]; [|done].
  destruct (aesGcmEncrypt _ _ _ _) as [c|]; [|done].
  destruct (fst (signed k c)); [|done].
  intros [= <-]. cbn [Crypto.salt Crypto.iv].
  split_and!; try reflexivity; apply bytes_randomBytes.
Qed.

Lemma computeHMAC_any data key w :
  fst (Crypto.computeHMAC data key w)
  = if extractable key
    then if (length (raw key) =? 0)%nat then inl Crypto.hmacMessage
         else match hmacSha256 (raw key) data with
              | Some m => inr m
              | None => inl Crypto.hmacMessage
              end
    else inl Crypto.hmacMessage.
Proof.
  unfold Crypto.computeHMAC, Platform.exportKey, importKey, sign. run.
  destruct (extractable key); run; [|reflexivity].
  destruct (length (raw key) =? 0)%nat; run; [reflexivity|].
  cbn [algorithm raw]. destruct (hmacSha256 _ _); run; reflexivity.
Qed.

Lemma verifyHMAC_any data signature key w :
  fst (Crypto.verifyHMAC data signature key w)
  = inr (extractable key && negb (length (raw key) =? 0)%nat
         && bool_decide (hmacSha256 (raw key) data = Some signature)).
Proof.
  unfold Crypto.verifyHMAC, Platform.exportKey, importKey, verify. run.
  destruct (extractable key); run; [|reflexivity].
  destruct (length (raw key) =? 0)%nat; run; [reflexivity|].
  cbn [algorithm raw andb negb].
  destruct (hmacSha256 _ _) as [m|]; run; [|reflexivity].
  cbn [fst]. f_equal. apply bool_decide_ext. split; congruence.
Qed.

(** X14: [verifyHMAC] never throws, an error of the platform being
    answered with false, and it accepts a signature exactly when
    [computeHMAC] returns that signature for the same data and key. *)
Theorem verifyHMAC_accepts (data signature : list Z) (key : CryptoKey)
    (w1 w2 : World) :
  (exists answer,
      fst (Crypto.verifyHMAC data signature key w1) = inr answer)
  /\ (fst (Crypto.verifyHMAC data signature key w1) = inr true
      <-> fst (Crypto.computeHMAC data key w2) = inr signature).
Proof.
  rewrite verifyHMAC_any, computeHMAC_any. split; [by eexists|].
  destruct (extractable key); cbn [andb]; [|split; discriminate].
  destruct (length (raw key) =? 0)%nat; cbn [andb negb];
    [split; discriminate|].
  destruct (hmacSha256 _ _) as [m|].
  - split.
    + intros [= H]. apply bool_decide_eq_true in H. congruence.
    + intros [= ->]. by rewrite bool_decide_eq_true_2.
  - split; [|discriminate].
    intros [= H]; by apply bool_decide_eq_true in H.
Qed.

Lemma importKey_accepts (keyBytes : list Z) (w : World) :
  length keyBytes ∈ [16; 24; 32]%nat ->
  fst (CryptoKeys.importKey keyBytes w)
  = inr {| algorithm := AES_GCM; extractable := false; raw := keyBytes |}.
Proof.
  intros Hl. unfold CryptoKeys.importKey, importKey. run.
  replace ((length keyBytes =? 16)%nat || (length keyBytes =? 24)%nat
           || (length keyBytes =? 32)%nat) with true; [run; reflexivity|].
  symmetry. rewrite !orb_true_iff, !Nat.eqb_eq.
  repeat (apply elem_of_cons in Hl as [Hl|Hl]; [auto|]).
  by apply elem_of_nil in Hl.
Qed.

Lemma decryptData_any blob key iv w :
  algorithm key = AES_GCM ->
  fst (Crypto.decryptData blob key iv w)
  = match aesGcmDecrypt (raw key) iv 128 blob with
    | Some d => inr d
    | None => inl Crypto.decryptMessage
    end.
Proof.
  intros Ha. unfold Crypto.decryptData, decrypt. run. rewrite Ha.
  destruct (aesGcmDecrypt _ _ _ _); run; reflexivity.
Qed.

(** X15: [importKey] takes raw keys of 16, 24 or 32 bytes and refuses all
    others.  The key it returns stands for the bytes given and cannot be
    exported again; so [computeHMAC] fails on it and [verifyHMAC] answers
    false, while [decryptData] decrypts with it. *)
Theorem importKey_not_extractable (keyBytes : list Z) (w : World) :
  (length keyBytes ∈ [16; 24; 32]%nat ->
   exists key,
     fst (CryptoKeys.importKey keyBytes w) = inr key
     /\ raw key = keyBytes /\ extractable key = false
     /\ (forall w', fst (Crypto.exportKey key w') = inl Crypto.exportMessage)
     /\ (forall data w',
           fst (Crypto.computeHMAC data key w') = inl Crypto.hmacMessage)
     /\ (forall data signature w',
           fst (Crypto.verifyHMAC data signature key w') = inr false)
     /\ (forall data iv w',
           fst (Crypto.decryptData data key iv w')
           = match aesGcmDecrypt keyBytes iv 128 data with
             | Some d => inr d
             | None => inl Crypto.decryptMessage
             end))
  /\ (length keyBytes ∉ [16; 24; 32]%nat ->
      fst (CryptoKeys.importKey keyBytes w) = inl CryptoKeys.importMessage).
Proof.
  split.
  - intros Hl. eexists. split; [by apply importKey_accepts|].
    cbn [raw extractable]. split_and!; try done.
    intros blob iv w'. by rewrite decryptData_any.
  - intros Hl. unfold CryptoKeys.importKey, importKey. run.
    replace ((length keyBytes =? 16)%nat || (length keyBytes =? 24)%nat
             || (length keyBytes =? 32)%nat) with false; [run; reflexivity|].
    symmetry. rewrite !orb_false_iff, !Nat.eqb_neq.
    rewrite !not_elem_of_cons in Hl. tauto.
Qed.

End Keys.

Lemma encryptFile_randomness_witness :
  Crypto.salt Toy.sealed
  = map (fun i => Platform.entropy Toy.world i mod 256)
      (seq (Platform.drawn Toy.world) 16)
  /\ Crypto.iv Toy.sealed
     = map (fun i => Platform.entropy Toy.world i mod 256)
         (seq (Platform.drawn Toy.world + 16) 12)
  /\ Js.bytes (Crypto.salt Toy.sealed) /\ Js.bytes (Crypto.iv Toy.sealed).
Proof.
  apply (proj2 (proj2 (proj2 (proj2
           (encryptFile_randomness (S := Toy.subtle) Toy.file Toy.pin
              Toy.world))))).
  vm_compute. reflexivity.
Defined.

Lemma importKey_not_extractable_witness :
  fst (CryptoKeys.importKey (Js.str "short") Toy.world)
  = inl CryptoKeys.importMessage.
Proof.
  apply (proj2 (importKey_not_extractable (S := Toy.subtle) (Js.str "short")
                  Toy.world)).
  apply (bool_decide_unpack _). vm_compute. exact I.
Defined.

(** ** Encrypting and decrypting on the page *)

Section Page.

Import Platform PlatformLaws.

Lemma inputs_valid_encrypt file pin :
  Validation.valid (Validation.validateEncryptionFile file) = true ->
  Validation.valid (Validation.validatePIN pin) = true ->
  Validation.allValid (Validation.validateEncryptionInputs file pin) = true.
Proof.
  intros Hf Hp. unfold Validation.validateEncryptionInputs, Validation.push.
  by rewrite Hf, Hp.
Qed.

Lemma inputs_valid_decrypt encryptedFile keyImage pin :
  Validation.content encryptedFile <> [] ->
  Validation.content keyImage <> [] ->
  Validation.type keyImage = "image/png"%string ->
  Validation.valid (Validation.validatePIN pin) = true ->
  Validation.allValid
    (Validation.validateDecryptionInputs (Some encryptedFile)
       (Some keyImage) pin) = true.
Proof.
  intros He Hk Ht Hp.
  assert (forall f, Validation.content f <> [] ->
                    (Validation.size f =? 0) = false) as Hsize.
  { intros f Hf. apply Z.eqb_neq. unfold Validation.size.
    destruct (Validation.content f); [done|]. cbn [length]. lia. }
  unfold Validation.validateDecryptionInputs, Validation.push.
  assert (Validation.valid
            (Validation.validateEncryptedFile (Some encryptedFile)) = true)
    as ->.
  { unfold Validation.validateEncryptedFile. rewrite Hsize by done.
    by destruct (_ && _). }
  assert (Validation.valid (Validation.validateKeyImage (Some keyImage))
          = true) as ->.
  { unfold Validation.validateKeyImage. rewrite Hsize, Ht by done.
    cbn [String.prefix String.eqb Ascii.eqb Bool.eqb negb].
    by destruct (_ <? _). }
  by rewrite Hp.
Qed.

Context {S : Subtle} {B : Browser} {K : Context2D}.
Context {L : SubtleLaws S} {LB : SubtleBytes S}.
Context {LK : Context2DLaws K} {LP : BrowserLaws B}.

(** A picture that has the bytes of the canvas in the first 256 pixels
    carries the payload of the canvas. *)
Lemma extractLoop_copy d c px :
  Js.bytes d -> length d = 96%nat -> (1024 <= length (data c))%nat ->
  opaqueUpTo 256 c ->
  length px = length (data c) ->
  (forall p channel,
      (p < 256)%nat -> (channel < 4)%nat ->
      px !! (4 * p + channel)%nat
      = stored (written d 768 (data c)) !! (4 * p + channel)%nat) ->
  allBytes (extractLoop px 96) = d.
Proof.
  intros Hb Hlen Hcap Hop Hpx Hsame.
  rewrite (extractLoop_ext (written d 768 (data c))).
  - by apply extractLoop_written.
  - rewrite length_written. lia.
  - by rewrite length_written.
  - intros k Hk. unfold chanIndex. rewrite Hsame by lia.
    apply stored_written; [lia|]. apply Hop. lia.
Qed.

(** What a successful encryption leaves behind when the first 256 pixels
    of the cover art are opaque: the key [k], the ciphertext [c], its MAC
    [m] and the PNG [blob] of a canvas that carries salt, iv, key and
    MAC. *)
Lemma handleEncrypt_saves (file : Validation.File) (pin : list Z)
    (w : World) :
  Validation.valid (Validation.validateEncryptionFile (Some file)) = true ->
  Validation.valid (Validation.validatePIN pin) = true ->
  opaqueUpTo 256 generateAbstractImage ->
  let salt := randomBytes w 16 in
  let iv := randomBytes (draw w 16) 12 in
  exists k c m blob w1,
    pbkdf2 (Js.encodeUtf8 pin) salt 100000 "SHA-256" 256 = Some k
    /\ length k = 32%nat
    /\ aesGcmEncrypt k iv 128 (Validation.content file) = Some c
    /\ hmacSha256 k c = Some m
    /\ c <> [] /\ blob <> []
    /\ (forall name,
          exists canvas,
            loadImageToCanvas
              {| Validation.name := name; Validation.type := "image/png";
                 Validation.content := blob |} = inr canvas
            /\ extractDataFromImage canvas
               = inr {| Stego.salt := salt; Stego.iv := iv;
                        Stego.keyBytes := k; Stego.hmac := m |})
    /\ App.handleEncrypt (Some file) pin w = (inr tt, w1)
    /\ encryptedFileData w1
       = Some {| savedEncrypted := c; savedImage := blob;
                 originalFilename := Validation.name file |}
    /\ heap w1 = heap w ++ [replicate 32 0].
Proof.
  intros Hfile Hpin Hop salt iv.
  destruct (encryptFile_succeeds file pin w) as (k & c & m & H).
  cbn zeta in H. destruct H as (Hk & Hlen & Hc & Hm & Hrun).
  fold salt iv in Hk, Hc, Hrun.
  destruct (mac_bytes _ _ _ Hm) as [Hmlen Hmb].
  pose proof (key_bytes _ _ _ _ _ _ Hk) as Hkb.
  pose proof (ciphertext_length _ _ _ _ Hc) as Hclen.
  set (d := [0; 0; 0; 92] ++ salt ++ iv ++ k ++ m).
  assert (dataToEmbed salt iv m k = Some d) as Hd
    by (apply dataToEmbed_layout; subst salt iv;
        by rewrite ?length_randomBytes).
  assert (Js.bytes d) as Hdb.
  { subst d. repeat apply bytes_app; try done.
    - apply bytes_check. reflexivity.
    - apply bytes_randomBytes.
    - apply bytes_randomBytes. }
  pose proof art_wellFormed as Hwf. pose proof art_capacity as Hcap.
  set (art := generateAbstractImage) in *.
  assert (1024 <= length (data art))%nat as Hroom
    by (unfold wellFormed in Hwf; lia).
  set (c' := putImageData art (written d 768 (data art))).
  assert (length (data c') = length (data art)) as Hlen'.
  { subst c'. cbn [putImageData data].
    by rewrite stored_length, length_written. }
  destruct (png_opaque c') as (blob & Hblob & Hne & Hload).
  { unfold wellFormed, pixelCount. rewrite Hlen'. exact Hwf. }
  { unfold pixelCount in *. subst c'. cbn [putImageData width height]. lia. }
  rewrite encryptFile_run in Hrun. cbn zeta in Hrun. cbn [fst] in Hrun.
  fold salt iv in Hrun.
  exists k, c, m, blob. eexists.
  split_and!; try done.
  - intros ->. cbn [length] in Hclen. lia.
  - intros name. destruct (Hload name) as (canvas & Hcanvas & Hsize & Hsame).
    exists canvas. split; [exact Hcanvas|].
    apply extract_fields; subst salt iv;
      rewrite ?length_randomBytes; try done.
    apply (extractLoop_copy d art);
      [exact Hdb | exact (length_dataToEmbed _ _ _ _ _ Hd) | exact Hroom
      | exact Hop | congruence | ].
    intros p channel Hp Hch. rewrite Hsame; [done|done|].
    unfold opaqueAt. subst c'. cbn [putImageData data].
    rewrite stored_alpha, written_alpha. by apply Hop.
  - unfold App.handleEncrypt. run.
    rewrite inputs_valid_encrypt by done. run.
    rewrite encryptFile_run. cbn zeta.
    repeat first
      [ progress change (randomBytes (logged ?x ?t) ?n)
          with (randomBytes x n)
      | progress change (draw (logged ?x ?t) ?n) with (logged (draw x n) t) ].
    fold salt iv. rewrite Hrun. run.
    unfold Crypto.exportKey, Platform.exportKey. run.
    cbn [Crypto.key Crypto.salt Crypto.iv Crypto.hmac Crypto.encrypted
           derivedKey extractable raw]. run.
    unfold alloc, load. run.
    cbn [heap allocated logged draw].
    rewrite list_lookup_middle by done. cbn [default from_option id].
    fold art. rewrite (embed_enough _ _ _ _ _ d Hd Hroom). cbn [fst]. run.
    fold c'. rewrite Hblob. run.
    unfold save, Crypto.clearSensitiveData, fill0. run.
    reflexivity.
  - reflexivity.
  - cbn [heap cleared logged saved allocated draw].
    rewrite alter_app_r_alt by done. rewrite Nat.sub_diag.
    cbn [alter list_alter]. by rewrite Hlen.
Qed.

(** What [handleDecrypt] does once the inputs are valid and the key image
    was read: it runs [decryptFile] with the PIN and the salt, iv and MAC
    of the image, and hands the result to the download or the error to the
    dialog. *)
Lemma handleDecrypt_run file image pin w c x :
  Validation.allValid
    (Validation.validateDecryptionInputs (Some file) (Some image) pin)
  = true ->
  loadImageToCanvas image = inr c ->
  extractDataFromImage c = inr x ->
  let outcome :=
    decryptFileOutcome (Validation.content file) pin (Stego.salt x)
      (Stego.iv x) (Stego.hmac x) in
  let before :=
    entered "decrypt"
      ++ [Ui (UpdateProgress "decrypt");
          Ui (Announce "Extracting encryption key from image...");
          Ui (Announce "Decrypting file...")]
      ++ snd outcome in
  App.handleDecrypt (Some file) (Some image) pin w
  = (inr tt,
     match fst outcome with
     | inr decrypted =>
         cleared
           (allocated
              (logged w
                 (before
                    ++ [Ui (DownloadBlob decrypted
                              (Js.replace (Validation.name file)
                                 ".encrypted" ""));
                        Ui (HideProgress "decrypt");
                        Ui (Announce "Decryption complete! File downloaded.");
                        Ui (ShowToast "File decrypted successfully!");
                        Ui ResetFormLater;
                        Ui (SetProcessing false);
                        Ui (SetButtonLoading "decrypt" false);
                        Ui UpdateButtonStates]))
              (Stego.keyBytes x))
           (length (heap w))
     | inl e =>
         allocated
           (logged w (before ++ caught "decrypt" "Decryption error:" e))
           (Stego.keyBytes x)
     end).
Proof.
  intros Hvalid Himg Hx outcome before. subst before outcome.
  unfold App.handleDecrypt. run.
  rewrite Hvalid. run. rewrite Himg. run. rewrite Hx. run.
  unfold alloc. run. rewrite decryptFile_run.
  destruct (fst (decryptFileOutcome _ _ _ _ _)) as [e|decrypted]; run.
  - unfold allocated, logged, entered, caught. cbn. f_equal. f_equal.
    same_trace.
  - unfold Crypto.clearSensitiveData, fill0. run.
    unfold cleared, allocated, logged, entered. cbn. f_equal. f_equal.
    same_trace.
Qed.

(** X16: when the first 256 pixels of the cover art are opaque, a file
    that passes validation, encrypted on the page with a valid PIN, comes
    back from the page: [handleEncrypt] succeeds, saves the ciphertext and
    the key image and leaves the exported key zero-filled; [handleDecrypt],
    given a file with the saved ciphertext, a PNG file with the saved image
    and the same PIN, hands the bytes of the original file to the download
    and shows no error.  The picture of [generateWavePattern] is not such a
    cover art, and with it the file does not come back: on a bitmap that
    keeps premultiplied colour [handleEncrypt] succeeds and saves, and
    [handleDecrypt], given what was saved and the same PIN, ends in the
    error dialog. *)
Theorem handlers_round_trip :
  (forall (file : Validation.File) (pin : list Z) (w : World),
      Validation.valid (Validation.validateEncryptionFile (Some file))
      = true ->
      Validation.valid (Validation.validatePIN pin) = true ->
      opaqueUpTo 256 generateAbstractImage ->
      exists w1 s,
        App.handleEncrypt (Some file) pin w = (inr tt, w1)
        /\ encryptedFileData w1 = Some s
        /\ originalFilename s = Validation.name file
        /\ heap w1 = heap w ++ [replicate 32 0]
        /\ forall (encryptedFile keyImage : Validation.File) (w2 : World),
             Validation.content encryptedFile = savedEncrypted s ->
             Validation.type keyImage = "image/png"%string ->
             Validation.content keyImage = savedImage s ->
             exists w3,
               App.handleDecrypt (Some encryptedFile) (Some keyImage) pin w2
               = (inr tt, w3)
               /\ Ui (DownloadBlob (Validation.content file)
                        (Js.replace (Validation.name encryptedFile)
                           ".encrypted" ""))
                  ∈ trace w3
               /\ shownErrors (trace w3) = shownErrors (trace w2)
               /\ heap w3 = heap w2 ++ [replicate 32 0])
  /\ (let w1 :=
        snd (App.handleEncrypt (S := Toy.subtle) (B := ToyPage.waveBrowser)
               (K := Premultiplied.context2d)
               (Some Toy.file) Toy.pin Toy.world) in
      exists s,
        encryptedFileData w1 = Some s
        /\ shownErrors (trace w1) = []
        /\ shownErrors
             (trace
                (snd (App.handleDecrypt (S := Toy.subtle)
                        (B := ToyPage.waveBrowser)
                        (Some {| Validation.name := "notes.txt.encrypted";
                                 Validation.type := "";
                                 Validation.content := savedEncrypted s |})
                        (Some {| Validation.name := "key-image.png";
                                 Validation.type := "image/png";
                                 Validation.content := savedImage s |})
                        Toy.pin w1)))
           = ["An encryption error occurred. Please try again."%string]).
Proof.
  split.
  2: { cbv zeta. eexists. split; [vm_compute; reflexivity|].
       split; vm_compute; reflexivity. }
  intros file pin w Hfile Hpin Hop.
  destruct (handleEncrypt_saves file pin w Hfile Hpin Hop)
    as (k & c & m & blob & w1 & Hk & Hlen & Hc & Hm & Hcne & Hbne
        & Hload & Hrun & Hsaved & Hheap).
  eexists w1, _. split_and!; [exact Hrun|exact Hsaved|reflexivity|exact Hheap|].
  intros ef ki w2 Hef Hkt Hki. cbn [savedEncrypted savedImage] in Hef, Hki.
  destruct ki as [kname ktype kcontent]. cbn in Hkt, Hki.
  subst ktype kcontent.
  destruct (Hload kname) as (canvas & Hcanvas & Hx).
  pose proof (decrypt_encrypt _ _ _ _ Hc) as Hdec.
  rewrite (handleDecrypt_run ef _ pin w2 canvas _) by
    (try done; apply inputs_valid_decrypt; try done; by rewrite Hef).
  cbn [Stego.salt Stego.iv Stego.hmac Stego.keyBytes].
  unfold decryptFileOutcome, verified. rewrite Hef, Hk, Hlen, Hm, Hdec.
  cbn [Nat.eqb fst snd]. rewrite bool_decide_eq_true_2 by done.
  cbn [fst snd].
  eexists. split_and!; [reflexivity| | |].
  - cbn [trace cleared logged allocated]. in_trace.
  - cbn [trace cleared logged allocated].
    rewrite !shownErrors_app. cbn. by rewrite !app_nil_r.
  - cbn [heap cleared logged allocated].
    rewrite alter_app_r_alt by done. rewrite Nat.sub_diag.
    cbn [alter list_alter]. by rewrite Hlen.
Qed.

(** X17: the key image alone opens the file.  When the first 256 pixels of
    the cover art are opaque, the key image carries the key that the PIN
    was stretched into, so whoever holds the two downloads of a successful
    encryption decrypts the file without the PIN: [importKey] on the key
    bytes extracted from the image gives a key with which [decryptData]
    returns the bytes of the original file. *)
Theorem key_image_decrypts_without_pin (file : Validation.File)
    (pin : list Z) (w : World) :
  Validation.valid (Validation.validateEncryptionFile (Some file)) = true ->
  Validation.valid (Validation.validatePIN pin) = true ->
  opaqueUpTo 256 generateAbstractImage ->
  exists w1 s,
    App.handleEncrypt (Some file) pin w = (inr tt, w1)
    /\ encryptedFileData w1 = Some s
    /\ forall (name : string) (w2 : World),
         exists canvas x key,
           loadImageToCanvas
             {| Validation.name := name; Validation.type := "image/png";
                Validation.content := savedImage s |} = inr canvas
           /\ extractDataFromImage canvas = inr x
           /\ fst (CryptoKeys.importKey (Stego.keyBytes x) w2) = inr key
           /\ forall w3,
                fst (Crypto.decryptData (savedEncrypted s) key (Stego.iv x)
                       w3)
                = inr (Validation.content file).
Proof.
  intros Hfile Hpin Hop.
  destruct (handleEncrypt_saves file pin w Hfile Hpin Hop)
    as (k & c & m & blob & w1 & Hk & Hlen & Hc & Hm & Hcne & Hbne
        & Hload & Hrun & Hsaved & Hheap).
  eexists w1, _. split_and!; [exact Hrun|exact Hsaved|].
  intros name w2. cbn [savedImage savedEncrypted].
  destruct (Hload name) as (canvas & Hcanvas & Hx).
  eexists canvas, _, _. split_and!; [exact Hcanvas|exact Hx| |].
  - cbn [Stego.keyBytes]. apply importKey_accepts. rewrite Hlen.
    do 2 apply list_elem_of_further. apply list_elem_of_here.
  - intros w3. cbn [Stego.iv]. rewrite decryptData_any by done.
    cbn [raw]. by rewrite (decrypt_encrypt _ _ _ _ Hc).
Qed.

(** X18: [handleDecrypt] makes no use of the key bytes of the image: for
    two key images that hold the same salt, iv and MAC, whatever their key
    bytes, it calls the same functions with the same arguments, shows the
    same messages and downloads the same bytes. *)
Theorem handleDecrypt_ignores_stored_key
    (file image1 image2 : Validation.File) (pin : list Z) (w : World)
    (c1 c2 : Canvas) (x1 x2 : Extracted) :
  Validation.allValid
    (Validation.validateDecryptionInputs (Some file) (Some image1) pin)
  = true ->
  Validation.allValid
    (Validation.validateDecryptionInputs (Some file) (Some image2) pin)
  = true ->
  loadImageToCanvas image1 = inr c1 ->
  loadImageToCanvas image2 = inr c2 ->
  extractDataFromImage c1 = inr x1 ->
  extractDataFromImage c2 = inr x2 ->
  Stego.salt x1 = Stego.salt x2 -> Stego.iv x1 = Stego.iv x2 ->
  Stego.hmac x1 = Stego.hmac x2 ->
  fst (App.handleDecrypt (Some file) (Some image1) pin w)
  = fst (App.handleDecrypt (Some file) (Some image2) pin w)
  /\ trace (snd (App.handleDecrypt (Some file) (Some image1) pin w))
     = trace (snd (App.handleDecrypt (Some file) (Some image2) pin w)).
Proof.
  intros Hv1 Hv2 Hl1 Hl2 Hx1 Hx2 Hs Hi Hm.
  rewrite (handleDecrypt_run file image1 pin w c1 x1) by done.
  rewrite (handleDecrypt_run file image2 pin w c2 x2) by done.
  rewrite Hs, Hi, Hm. split; [reflexivity|]. cbn [snd].
  by destruct (fst (decryptFileOutcome _ _ _ _ _)).
Qed.

End Page.

(** ** The sample platform keeps the other laws too *)

Section ToyPageLaws.

Lemma bytes_stretch seed n : Js.bytes (Toy.stretch seed n).
Proof.
  unfold Toy.stretch. apply Forall_map, Forall_forall. intros i _.
  unfold Js.is_byte. lia.
Qed.

End ToyPageLaws.

#[export] Instance toy_bytes : PlatformLaws.SubtleBytes Toy.subtle.
Proof.
  split.
  - intros password salt iterations hash bits k [= <-]. apply bytes_stretch.
  - intros k data m [= <-]. split; [apply length_stretch|apply bytes_stretch].
  - intros k iv data c [= <-]. rewrite length_app, length_map.
    unfold Toy.tag. by rewrite length_stretch.
Qed.

#[export] Instance toy_page_laws : PlatformLaws.BrowserLaws ToyPage.browser.
Proof.
  split.
  - reflexivity.
  - vm_compute. lia.
  - intros [w h px] Hwf _. unfold wellFormed, pixelCount in Hwf.
    cbn [width height data] in Hwf.
    eexists. split; [reflexivity|]. split; [done|]. intros name.
    exists {| width := w; height := h; data := px |}.
    split; [|done].
    cbn [Platform.loadImageToCanvas ToyPage.browser Toy.decode
           Validation.content width height data].
    rewrite !Nat2Z.id, Hwf, Nat.eqb_refl. reflexivity.
Qed.

Lemma handlers_round_trip_witness :
  exists w1 s,
    App.handleEncrypt (S := Toy.subtle) (B := ToyPage.browser)
      (Some Toy.file) Toy.pin Toy.world = (inr tt, w1)
    /\ Platform.encryptedFileData w1 = Some s
    /\ Platform.originalFilename s = Validation.name Toy.file
    /\ Platform.heap w1 = Platform.heap Toy.world ++ [replicate 32 0]
    /\ forall (encryptedFile keyImage : Validation.File)
              (w2 : Platform.World),
         Validation.content encryptedFile = Platform.savedEncrypted s ->
         Validation.type keyImage = "image/png"%string ->
         Validation.content keyImage = Platform.savedImage s ->
         exists w3,
           App.handleDecrypt (S := Toy.subtle) (B := ToyPage.browser)
             (Some encryptedFile) (Some keyImage) Toy.pin w2
           = (inr tt, w3)
           /\ Platform.Ui
                (Platform.DownloadBlob (Validation.content Toy.file)
                   (Js.replace (Validation.name encryptedFile)
                      ".encrypted" ""))
              ∈ Platform.trace w3
           /\ shownErrors (Platform.trace w3) = shownErrors (Platform.trace w2)
           /\ Platform.heap w3 = Platform.heap w2 ++ [replicate 32 0].
Proof.
  apply (proj1 (handlers_round_trip (S := Toy.subtle) (B := ToyPage.browser)
                  (K := Premultiplied.context2d))
           Toy.file Toy.pin Toy.world);
    [reflexivity | reflexivity | ].
  apply opaqueUpTo_check. vm_compute. reflexivity.
Defined.

Lemma key_image_decrypts_without_pin_witness :
  exists w1 s,
    App.handleEncrypt (S := Toy.subtle) (B := ToyPage.browser)
      (Some Toy.file) Toy.pin Toy.world = (inr tt, w1)
    /\ Platform.encryptedFileData w1 = Some s
    /\ forall (name : string) (w2 : Platform.World),
         exists canvas x key,
           Platform.loadImageToCanvas (Browser := ToyPage.browser)
             {| Validation.name := name; Validation.type := "image/png";
                Validation.content := Platform.savedImage s |} = inr canvas
           /\ extractDataFromImage canvas = inr x
           /\ fst (CryptoKeys.importKey (Stego.keyBytes x) w2) = inr key
           /\ forall w3,
                fst (Crypto.decryptData (S := Toy.subtle)
                       (Platform.savedEncrypted s) key (Stego.iv x) w3)
                = inr (Validation.content Toy.file).
Proof.
  apply (key_image_decrypts_without_pin (S := Toy.subtle)
           (B := ToyPage.browser) (K := Premultiplied.context2d)
           Toy.file Toy.pin Toy.world);
    [reflexivity | reflexivity | ].
  apply opaqueUpTo_check. vm_compute. reflexivity.
Defined.

Lemma handleDecrypt_ignores_stored_key_witness :
  let decrypted keyBytes :=
    App.handleDecrypt (S := Toy.subtle) (B := ToyPage.browser)
      (Some ToyPage.encryptedFile) (Some (ToyPage.keyImage keyBytes))
      Toy.pin Toy.world in
  fst (decrypted (Platform.raw (Crypto.key Toy.sealed)))
  = fst (decrypted (replicate 32 7))
  /\ Platform.trace (snd (decrypted (Platform.raw (Crypto.key Toy.sealed))))
     = Platform.trace (snd (decrypted (replicate 32 7))).
Proof.
  cbn zeta.
  apply (handleDecrypt_ignores_stored_key (S := Toy.subtle)
           (B := ToyPage.browser) ToyPage.encryptedFile
           (ToyPage.keyImage (Platform.raw (Crypto.key Toy.sealed)))
           (ToyPage.keyImage (replicate 32 7)) Toy.pin Toy.world
           (snd (embedDataInImage ToyPage.art (Crypto.salt Toy.sealed)
                   (Crypto.iv Toy.sealed) (Crypto.hmac Toy.sealed)
                   (Platform.raw (Crypto.key Toy.sealed))))
           (snd (embedDataInImage ToyPage.art (Crypto.salt Toy.sealed)
                   (Crypto.iv Toy.sealed) (Crypto.hmac Toy.sealed)
                   (replicate 32 7)))
           {| salt := Crypto.salt Toy.sealed; iv := Crypto.iv Toy.sealed;
              keyBytes := Platform.raw (Crypto.key Toy.sealed);
              hmac := Crypto.hmac Toy.sealed |}
           {| salt := Crypto.salt Toy.sealed; iv := Crypto.iv Toy.sealed;
              keyBytes := replicate 32 7;
              hmac := Crypto.hmac Toy.sealed |});
    vm_compute; reflexivity.
Defined.

(** ** CRC-32 *)

Section Crc.

Import JsWords.

Lemma toUint32_range z : 0 <= toUint32 z < 2 ^ 32.
Proof. unfold toUint32. lia. Qed.

Lemma toUint32_small z : 0 <= z < 2 ^ 32 -> toUint32 z = z.
Proof. unfold toUint32. intros. by apply Z.mod_small. Qed.

Lemma toUint32_toInt32 z : toUint32 (Js.toInt32 z) = toUint32 z.
Proof.
  unfold toUint32, Js.toInt32.
  destruct (z mod 2 ^ 32 <? 2 ^ 31); lia.
Qed.

Lemma toUint32_testbit z n :
  0 <= n -> Z.testbit (toUint32 z) n = (n <? 32) && Z.testbit z n.
Proof.
  intros Hn. unfold toUint32. destruct (Z.ltb_spec n 32).
  - by rewrite Z.mod_pow2_bits_low.
  - by rewrite Z.mod_pow2_bits_high.
Qed.

Lemma toUint32_lxor x y :
  toUint32 (Z.lxor x y) = Z.lxor (toUint32 x) (toUint32 y).
Proof.
  apply Z.bits_inj'. intros n Hn.
  rewrite Z.lxor_spec, !toUint32_testbit, Z.lxor_spec by done.
  by destruct (n <? 32).
Qed.

Lemma toUint32_bxor a b :
  toUint32 (bxor a b) = Z.lxor (toUint32 a) (toUint32 b).
Proof. unfold bxor. by rewrite toUint32_lxor, !toUint32_toInt32. Qed.

Lemma band_1_odd c : (Js.band c 1 =? 0) = negb (Z.odd (toUint32 c)).
Proof.
  unfold Js.band. change (Js.toInt32 1) with (Z.ones 1).
  rewrite Z.land_ones by lia. change (2 ^ 1) with 2.
  rewrite <- Z.bit0_odd, <- (toUint32_toInt32 c).
  rewrite toUint32_testbit by lia. cbn [Z.ltb Z.compare andb].
  rewrite Z.bit0_odd. rewrite Zodd_mod.
  destruct (Z.eqb_spec (Js.toInt32 c mod 2) 0) as [->|H]; [done|].
  replace (Js.toInt32 c mod 2) with 1 by lia. done.
Qed.

Lemma toUint32_crcShift c :
  toUint32 (Zip.crcShift c) = ZipSpec.shiftWord (toUint32 c).
Proof.
  unfold Zip.crcShift, ZipSpec.shiftWord.
  rewrite toUint32_bxor, band_1_odd.
  assert (toUint32 (shr c 1) = Z.shiftr (toUint32 c) 1) as ->.
  { unfold shr. change (1 mod 32) with 1. apply toUint32_small.
    pose proof (toUint32_range c). rewrite Z.shiftr_div_pow2 by lia.
    change (2 ^ 1) with 2. lia. }
  by destruct (Z.odd (toUint32 c)).
Qed.

Lemma toUint32_iter n c :
  toUint32 (Nat.iter n Zip.crcShift c)
  = Nat.iter n ZipSpec.shiftWord (toUint32 c).
Proof.
  induction n as [|n IH]; [done|]. rewrite !Nat.iter_succ.
  by rewrite toUint32_crcShift, IH.
Qed.

Lemma toUint32_crcByte c b :
  Js.is_byte b ->
  toUint32 (Zip.crcByte c b)
  = Nat.iter 8 ZipSpec.shiftWord (Z.lxor (toUint32 c) b).
Proof.
  intros Hb. unfold Zip.crcByte.
  rewrite toUint32_iter, toUint32_bxor.
  by rewrite (toUint32_small b) by (unfold Js.is_byte in Hb; lia).
Qed.

Lemma fold_left_step {A B} (f : A -> B -> A) (x : B) (l : list B) (a : A) :
  fold_left f (x :: l) a = fold_left f l (f a x).
Proof. reflexivity. Qed.

Lemma toUint32_fold (data : list Z) c :
  Js.bytes data ->
  toUint32 (fold_left Zip.crcByte data c)
  = fold_left (fun c byte => Nat.iter 8 ZipSpec.shiftWord (Z.lxor c byte))
      data (toUint32 c).
Proof.
  intros H. revert c. induction H as [|b data Hb _ IH]; intros c.
  - reflexivity.
  - rewrite !fold_left_step, IH, toUint32_crcByte by done. reflexivity.
Qed.

(** X19: [crc32] is the CRC-32 of ZIP: on bytes, the signed 32-bit
    arithmetic of the bitwise operators computes what the register
    computes on unsigned words, the result is an unsigned 32-bit number,
    and the check value of the nine digits is 0xCBF43926. *)
Theorem crc32_unsigned (data : list Z) :
  Js.bytes data ->
  Zip.crc32 data = ZipSpec.crcWord data
  /\ 0 <= Zip.crc32 data < 2 ^ 32
  /\ Zip.crc32 [] = 0
  /\ Zip.crc32 (Js.str "123456789") = 0xCBF43926.
Proof.
  intros H.
  assert (Zip.crc32 data
          = toUint32 (bxor (fold_left Zip.crcByte data 0xFFFFFFFF)
                        0xFFFFFFFF)) as Hcrc.
  { unfold Zip.crc32, shr. change (0 mod 32) with 0.
    by rewrite Z.shiftr_0_r. }
  split; [|split; [|split]].
  - rewrite Hcrc, toUint32_bxor, toUint32_fold by done.
    change (toUint32 0xFFFFFFFF) with 0xFFFFFFFF. reflexivity.
  - rewrite Hcrc. apply toUint32_range.
  - vm_compute. reflexivity.
  - vm_compute. reflexivity.
Qed.

Lemma crc32_unsigned_witness :
  Zip.crc32 [80; 75; 3; 4] = ZipSpec.crcWord [80; 75; 3; 4]
  /\ 0 <= Zip.crc32 [80; 75; 3; 4] < 2 ^ 32
  /\ Zip.crc32 [] = 0
  /\ Zip.crc32 (Js.str "123456789") = 0xCBF43926.
Proof.
  apply (crc32_unsigned [80; 75; 3; 4]).
  apply bytes_check. reflexivity.
Defined.

End Crc.

(** ** The archive *)

Section Archive.

Import JsWords.

Lemma length_littleEndian width v : length (littleEndian width v) = width.
Proof. unfold littleEndian. by rewrite length_map, length_seq. Qed.

Lemma littleEndian_4 v : exists a b c d, littleEndian 4 v = [a; b; c; d].
Proof. by eexists _, _, _, _. Qed.

Lemma littleEndian_2 v : exists a b, littleEndian 2 v = [a; b].
Proof. by eexists _, _. Qed.

Lemma toUint32_crc32 (data : list Z) :
  toUint32 (Zip.crc32 data) = Zip.crc32 data.
Proof.
  unfold Zip.crc32, shr. change (0 mod 32) with 0. rewrite Z.shiftr_0_r.
  apply toUint32_small, toUint32_range.
Qed.

Lemma set_tail (pre src : list Z) :
  Js.set (pre ++ Js.zeros (length src)) src (length pre) = Some (pre ++ src).
Proof.
  rewrite <- (app_nil_r (Js.zeros (length src))).
  rewrite (set_app pre (Js.zeros (length src)) [] src)
    by (unfold Js.zeros; by rewrite ?length_replicate).
  by rewrite app_nil_r.
Qed.

Ltac fields :=
  repeat match goal with
    | |- context [littleEndian 4 ?v] =>
        let E := fresh in
        destruct (littleEndian_4 v) as (? & ? & ? & ? & E); rewrite !E;
        clear E
    | |- context [littleEndian 2 ?v] =>
        let E := fresh in
        destruct (littleEndian_2 v) as (? & ? & E); rewrite !E; clear E
    end.

Lemma localHeader_layout (f : Zip.ZipFile) :
  Zip.localHeader (ZipSpec.nameBytes f) (Zip.crc32 (Zip.data f))
    (length (Zip.data f))
  = Some (ZipSpec.localFields f ++ ZipSpec.nameBytes f).
Proof.
  unfold Zip.localHeader, ZipSpec.localFields, setUint32, setUint16.
  rewrite toUint32_crc32.
  change (littleEndian 4 (toUint32 0x04034b50)) with [0x50; 0x4B; 0x03; 0x04].
  change (littleEndian 2 (20 mod 2 ^ 16)) with [20; 0].
  change (littleEndian 2 (0 mod 2 ^ 16)) with [0; 0].
  generalize (ZipSpec.nameBytes f). intros nb. fields.
  match goal with
  | |- _ = Some (?F ++ _) =>
      transitivity (Js.set (F ++ Js.zeros (length nb)) nb 30);
      [reflexivity | exact (set_tail F nb)]
  end.
Qed.

Lemma cdEntry_layout (f : Zip.ZipFile) (offset : nat) :
  Zip.cdEntry (ZipSpec.nameBytes f) (Zip.crc32 (Zip.data f))
    (length (Zip.data f)) offset
  = Some (ZipSpec.centralPart f offset).
Proof.
  unfold Zip.cdEntry, ZipSpec.centralPart, ZipSpec.centralFields,
    setUint32, setUint16.
  rewrite toUint32_crc32.
  change (littleEndian 4 (toUint32 0x02014b50)) with [0x50; 0x4B; 0x01; 0x02].
  change (littleEndian 4 (toUint32 0)) with [0; 0; 0; 0].
  change (littleEndian 2 (20 mod 2 ^ 16)) with [20; 0].
  change (littleEndian 2 (0 mod 2 ^ 16)) with [0; 0].
  generalize (ZipSpec.nameBytes f). intros nb. fields.
  match goal with
  | |- _ = Some (?F ++ _) =>
      transitivity (Js.set (F ++ Js.zeros (length nb)) nb 46);
      [reflexivity | exact (set_tail F nb)]
  end.
Qed.

Lemma endOfCentralDirectory_layout (count cdSize offset : nat) :
  Zip.endOfCentralDirectory count cdSize offset
  = Some (ZipSpec.endRecord count cdSize offset).
Proof.
  unfold Zip.endOfCentralDirectory, ZipSpec.endRecord, setUint32, setUint16.
  change (littleEndian 4 (toUint32 0x06054b50)) with [0x50; 0x4B; 0x05; 0x06].
  change (littleEndian 2 (0 mod 2 ^ 16)) with [0; 0].
  fields. reflexivity.
Qed.

Lemma length_localFields f : length (ZipSpec.localFields f) = 30%nat.
Proof. unfold ZipSpec.localFields. fields. reflexivity. Qed.

Lemma length_centralFields f offset :
  length (ZipSpec.centralFields f offset) = 46%nat.
Proof. unfold ZipSpec.centralFields. fields. reflexivity. Qed.

Lemma length_endRecord count cdSize offset :
  length (ZipSpec.endRecord count cdSize offset) = 22%nat.
Proof. unfold ZipSpec.endRecord. fields. reflexivity. Qed.

Lemma length_localPart f :
  length (ZipSpec.localPart f) = ZipSpec.localSize f.
Proof.
  unfold ZipSpec.localPart, ZipSpec.localSize.
  rewrite !length_app, length_localFields. lia.
Qed.

Lemma length_centralPart f offset :
  length (ZipSpec.centralPart f offset) = ZipSpec.centralSize f.
Proof.
  unfold ZipSpec.centralPart, ZipSpec.centralSize.
  by rewrite length_app, length_centralFields.
Qed.

Lemma total_app size (l1 l2 : list Zip.ZipFile) :
  ZipSpec.total size (l1 ++ l2)
  = (ZipSpec.total size l1 + ZipSpec.total size l2)%nat.
Proof.
  induction l1 as [|f l1 IH]; [done|]. cbn [app ZipSpec.total foldr].
  fold (ZipSpec.total size (l1 ++ l2)). fold (ZipSpec.total size l1).
  rewrite IH. lia.
Qed.

Lemma length_localParts (files : list Zip.ZipFile) :
  length (concat (map ZipSpec.localPart files))
  = ZipSpec.total ZipSpec.localSize files.
Proof.
  induction files as [|f files IH]; [done|].
  cbn [map concat ZipSpec.total foldr].
  fold (ZipSpec.total ZipSpec.localSize files).
  by rewrite length_app, length_localPart, IH.
Qed.

Lemma length_centralParts (files : list Zip.ZipFile) (offset : nat) :
  length (ZipSpec.centralParts files offset)
  = ZipSpec.total ZipSpec.centralSize files.
Proof.
  revert offset. induction files as [|f files IH]; intros offset; [done|].
  cbn [ZipSpec.centralParts ZipSpec.total foldr].
  fold (ZipSpec.total ZipSpec.centralSize files).
  by rewrite length_app, length_centralPart, IH.
Qed.

Lemma centralParts_app (l1 l2 : list Zip.ZipFile) (offset : nat) :
  ZipSpec.centralParts (l1 ++ l2) offset
  = ZipSpec.centralParts l1 offset
      ++ ZipSpec.centralParts l2
           (offset + ZipSpec.total ZipSpec.localSize l1).
Proof.
  revert offset. induction l1 as [|f l1 IH]; intros offset.
  - cbn [app ZipSpec.centralParts ZipSpec.total foldr].
    by rewrite Nat.add_0_r.
  - cbn [app ZipSpec.centralParts ZipSpec.total foldr].
    fold (ZipSpec.total ZipSpec.localSize l1).
    rewrite IH, <- app_assoc. do 3 f_equal. lia.
Qed.

(** The loop over the files. *)
Lemma addFiles_run (files : list Zip.ZipFile) (s : Zip.ZipState) :
  exists s',
    Zip.addFiles files s = Some s'
    /\ concat (Zip.parts s')
       = concat (Zip.parts s) ++ concat (map ZipSpec.localPart files)
    /\ concat (Zip.centralDir s')
       = concat (Zip.centralDir s)
           ++ ZipSpec.centralParts files (Zip.offset s)
    /\ Zip.offset s'
       = (Zip.offset s + ZipSpec.total ZipSpec.localSize files)%nat.
Proof.
  revert s. induction files as [|f files IH]; intros s.
  - exists s. cbn [Zip.addFiles map concat ZipSpec.centralParts
                     ZipSpec.total foldr].
    rewrite !app_nil_r. split_and!; [done..|lia].
  - cbn [Zip.addFiles].
    change (Js.encodeUtf8 (Zip.name f)) with (ZipSpec.nameBytes f).
    rewrite localHeader_layout, cdEntry_layout. cbn [mbind option_bind].
    destruct (IH {| Zip.parts :=
                      Zip.parts s
                        ++ [ZipSpec.localFields f ++ ZipSpec.nameBytes f;
                            Zip.data f];
                    Zip.centralDir :=
                      Zip.centralDir s
                        ++ [ZipSpec.centralPart f (Zip.offset s)];
                    Zip.offset :=
                      (Zip.offset s
                       + (length (ZipSpec.localFields f
                                    ++ ZipSpec.nameBytes f)
                          + length (Zip.data f)))%nat |})
      as (s' & Hs & Hp & Hc & Ho).
    cbn [Zip.parts Zip.centralDir Zip.offset] in Hp, Hc, Ho.
    assert ((length (ZipSpec.localFields f ++ ZipSpec.nameBytes f)
             + length (Zip.data f))%nat = ZipSpec.localSize f) as Hsize.
    { unfold ZipSpec.localSize. by rewrite length_app, length_localFields. }
    rewrite Hsize in Hc, Ho.
    exists s'. split_and!; [exact Hs| | |].
    + rewrite Hp, !concat_app. cbn [map concat]. unfold ZipSpec.localPart.
      rewrite !app_nil_r, <- !app_assoc. done.
    + rewrite Hc, !concat_app. cbn [concat ZipSpec.centralParts].
      by rewrite !app_nil_r, <- !app_assoc.
    + rewrite Ho. cbn [ZipSpec.total foldr].
      fold (ZipSpec.total ZipSpec.localSize files). lia.
Qed.

Lemma createZip_closed (files : list Zip.ZipFile) :
  Zip.createZip files
  = Some (concat (map ZipSpec.localPart files)
            ++ ZipSpec.centralParts files 0
            ++ ZipSpec.endRecord (length files)
                 (ZipSpec.total ZipSpec.centralSize files)
                 (ZipSpec.total ZipSpec.localSize files)).
Proof.
  unfold Zip.createZip.
  destruct (addFiles_run files
              {| Zip.parts := []; Zip.centralDir := []; Zip.offset := 0 |})
    as (s & Hs & Hp & Hc & Ho).
  cbn [Zip.parts Zip.centralDir Zip.offset concat app Nat.add] in Hp, Hc, Ho.
  rewrite Hs. cbn [mbind option_bind].
  rewrite (total_length (Zip.centralDir s) 0). cbn [Nat.add].
  rewrite Hc, length_centralParts, Ho, endOfCentralDirectory_layout.
  cbn [mbind option_bind]. rewrite !concat_app, Hp, Hc. cbn [concat].
  by rewrite app_nil_r.
Qed.

Lemma slice_inner (z x : list Z) (a n i j : nat) :
  Js.slice z a (a + n) = x -> (i <= j)%nat -> (j <= n)%nat ->
  Js.slice z (a + i) (a + j) = Js.slice x i j.
Proof.
  intros <- Hij Hjn. unfold Js.slice.
  replace (a + n - a)%nat with n by lia.
  replace (a + j - (a + i))%nat with (j - i)%nat by lia.
  rewrite <- drop_drop. generalize (drop a z). intros l.
  replace n with (i + (n - i))%nat at 1 by lia.
  rewrite <- take_drop_commute, take_take. f_equal. lia.
Qed.

Lemma leValue_4 v :
  0 <= v < 2 ^ 32 -> ZipSpec.leValue (littleEndian 4 v) = v.
Proof.
  intros Hv. unfold littleEndian, ZipSpec.leValue. cbn [map seq foldr].
  change (256 ^ Z.of_nat 0) with 1. change (256 ^ Z.of_nat 1) with 256.
  change (256 ^ Z.of_nat 2) with 65536.
  change (256 ^ Z.of_nat 3) with 16777216. lia.
Qed.

Lemma leValue_2 v :
  0 <= v < 2 ^ 16 -> ZipSpec.leValue (littleEndian 2 v) = v.
Proof.
  intros Hv. unfold littleEndian, ZipSpec.leValue. cbn [map seq foldr].
  change (256 ^ Z.of_nat 0) with 1. change (256 ^ Z.of_nat 1) with 256. lia.
Qed.

Lemma centralFields_offset f offset nb :
  Js.slice (ZipSpec.centralFields f offset ++ nb) 42 46
  = littleEndian 4 (toUint32 (Z.of_nat offset)).
Proof.
  unfold ZipSpec.centralFields.
  remember (littleEndian 4 (toUint32 (Z.of_nat offset))) as x eqn:E.
  apply (f_equal length) in E. rewrite length_littleEndian in E.
  do 4 (destruct x as [|? x]; [discriminate E|]).
  destruct x; [clear E|discriminate E].
  fields. reflexivity.
Qed.

Lemma endRecord_fields count cdSize offset :
  let e := ZipSpec.endRecord count cdSize offset in
  Js.slice e 8 10 = littleEndian 2 (Z.of_nat count mod 2 ^ 16)
  /\ Js.slice e 12 16 = littleEndian 4 (toUint32 (Z.of_nat cdSize))
  /\ Js.slice e 16 20 = littleEndian 4 (toUint32 (Z.of_nat offset)).
Proof.
  unfold ZipSpec.endRecord.
  destruct (littleEndian_2 (Z.of_nat count mod 2 ^ 16)) as (? & ? & ->).
  destruct (littleEndian_4 (toUint32 (Z.of_nat cdSize)))
    as (? & ? & ? & ? & ->).
  destruct (littleEndian_4 (toUint32 (Z.of_nat offset)))
    as (? & ? & ? & ? & ->).
  done.
Qed.

(** X20: the archive that [createZip] builds.  For every file of the list,
    its local header, name and bytes stand where the offsets of the files
    before it lead, and its entry in the central directory, which follows
    the last file, records that offset; the end record closes the archive
    and, for an archive of less than 4 GB and 65536 files, holds the number
    of files and the size and the place of the central directory.  The
    archive of no files is the end record alone. *)
Theorem createZip_layout (pre post : list Zip.ZipFile) (f : Zip.ZipFile) :
  let files := pre ++ f :: post in
  let offset := ZipSpec.total ZipSpec.localSize pre in
  let L := ZipSpec.total ZipSpec.localSize files in
  let C := ZipSpec.total ZipSpec.centralSize files in
  let entry := (L + ZipSpec.total ZipSpec.centralSize pre)%nat in
  Zip.createZip [] = Some (ZipSpec.endRecord 0 0 0)
  /\ exists z,
       Zip.createZip files = Some z
       /\ length z = (L + C + 22)%nat
       /\ Js.slice z offset (offset + ZipSpec.localSize f)
          = ZipSpec.localFields f ++ ZipSpec.nameBytes f ++ Zip.data f
       /\ Js.slice z entry (entry + ZipSpec.centralSize f)
          = ZipSpec.centralFields f offset ++ ZipSpec.nameBytes f
       /\ Js.slice z (L + C) (L + C + 22)
          = ZipSpec.endRecord (length files) C L
       /\ (Z.of_nat (L + C) < 2 ^ 32 -> Z.of_nat (length files) < 2 ^ 16 ->
           ZipSpec.leValue (Js.slice z (entry + 42) (entry + 46))
           = Z.of_nat offset
           /\ ZipSpec.leValue (Js.slice z (L + C + 8) (L + C + 10))
              = Z.of_nat (length files)
           /\ ZipSpec.leValue (Js.slice z (L + C + 12) (L + C + 16))
              = Z.of_nat C
           /\ ZipSpec.leValue (Js.slice z (L + C + 16) (L + C + 20))
              = Z.of_nat L).
Proof.
  intros files offset L C entry. split; [apply createZip_closed|].
  eexists. split; [apply createZip_closed|]. fold L C.
  set (e := ZipSpec.endRecord (length files) C L).
  assert (length (concat (map ZipSpec.localPart files)) = L) as HL
    by apply length_localParts.
  assert (length (ZipSpec.centralParts files 0) = C) as HC
    by apply length_centralParts.
  assert (L = (offset + (ZipSpec.localSize f
                         + ZipSpec.total ZipSpec.localSize post))%nat) as HLs.
  { subst L files offset. rewrite total_app. reflexivity. }
  assert (Js.slice
            (concat (map ZipSpec.localPart files)
               ++ ZipSpec.centralParts files 0 ++ e)
            entry (entry + ZipSpec.centralSize f)
          = ZipSpec.centralFields f offset ++ ZipSpec.nameBytes f) as Hentry.
  { subst files. rewrite centralParts_app. cbn [ZipSpec.centralParts].
    cbn [Nat.add]. fold offset. fold (ZipSpec.centralPart f offset).
    rewrite <- !app_assoc.
    rewrite (app_assoc (concat _) (ZipSpec.centralParts pre 0)).
    apply slice_app.
    - rewrite length_app, HL, length_centralParts. reflexivity.
    - by rewrite length_centralPart. }
  assert (Js.slice
            (concat (map ZipSpec.localPart files)
               ++ ZipSpec.centralParts files 0 ++ e)
            (L + C) (L + C + 22) = e) as Hend.
  { rewrite app_assoc, <- (app_nil_r e) at 1. apply slice_app.
    - by rewrite length_app, HL, HC.
    - subst e. by rewrite length_endRecord. }
  split_and!.
  - rewrite !length_app, HL, HC. subst e. rewrite length_endRecord. lia.
  - subst files. rewrite map_app, concat_app. cbn [map concat].
    rewrite <- !app_assoc. fold (ZipSpec.localPart f). apply slice_app.
    + symmetry. apply length_localParts.
    + by rewrite length_localPart.
  - exact Hentry.
  - exact Hend.
  - intros Hsmall Hcount.
    assert (Z.of_nat offset < 2 ^ 32) by lia.
    destruct (endRecord_fields (length files) C L) as (H8 & H12 & H16).
    cbn zeta in H8, H12, H16. fold e in H8, H12, H16.
    rewrite (slice_inner _ _ entry (ZipSpec.centralSize f) 42 46 Hentry)
      by (unfold ZipSpec.centralSize; lia).
    rewrite (slice_inner _ _ (L + C) 22 8 10 Hend) by lia.
    rewrite (slice_inner _ _ (L + C) 22 12 16 Hend) by lia.
    rewrite (slice_inner _ _ (L + C) 22 16 20 Hend) by lia.
    rewrite centralFields_offset, H8, H12, H16.
    rewrite !toUint32_small by lia. rewrite Z.mod_small by lia.
    rewrite !leValue_4, leValue_2 by lia. done.
Qed.

Lemma createZip_layout_witness :
  let encrypted :=
    {| Zip.name := Js.str "notes.txt.encrypted"; Zip.data := [7; 0; 255] |} in
  let image :=
    {| Zip.name := Js.str "key-image.png";
       Zip.data := [0x89; 0x50; 0x4E; 0x47] |} in
  exists z,
    Zip.createZip [encrypted; image] = Some z
    /\ ZipSpec.leValue (Js.slice z (164 + 42) (164 + 46)) = 52
    /\ ZipSpec.leValue (Js.slice z (223 + 8) (223 + 10)) = 2
    /\ ZipSpec.leValue (Js.slice z (223 + 12) (223 + 16)) = 124
    /\ ZipSpec.leValue (Js.slice z (223 + 16) (223 + 20)) = 99.
Proof.
  intros encrypted image.
  destruct (createZip_layout [encrypted] [] image)
    as (_ & z & Hz & _ & _ & _ & _ & Hnumbers).
  exists z. split; [exact Hz|]. apply Hnumbers; vm_compute; reflexivity.
Defined.

End Archive.

(** ** Fields of the wrong length *)

Section FieldLengths.

Lemma set_cases (dst src : list Z) (offset : nat) :
  ((offset + length src <= length dst)%nat
   /\ exists r, Js.set dst src offset = Some r /\ length r = length dst)
  \/ ((length dst < offset + length src)%nat
      /\ Js.set dst src offset = None).
Proof.
  destruct (Js.set dst src offset) as [r|] eqn:E.
  - left. pose proof (length_set _ _ _ _ E) as Hl. split; [|by eexists].
    unfold Js.set in E.
    destruct (Nat.leb_spec (offset + length src) (length dst)); [done|].
    discriminate.
  - right. split; [|done]. unfold Js.set in E.
    destruct (Nat.leb_spec (offset + length src) (length dst)); [|done].
    discriminate.
Qed.

Context {K : Context2D}.

(** X21: [embedDataInImage] does not check the lengths of its fields.
    Each field is written at its fixed place, 4, 20, 32 and 64; the call
    fails, leaving the canvas as it was, exactly when a field reaches
    beyond byte 96 of the payload, and in every other case the payload has
    96 bytes. *)
Theorem embed_field_lengths (salt iv hmac keyBytes : list Z) :
  (dataToEmbed salt iv hmac keyBytes = None
   <-> (92 < length salt \/ 76 < length iv \/ 64 < length keyBytes
        \/ 32 < length hmac)%nat)
  /\ (forall c,
        dataToEmbed salt iv hmac keyBytes = None ->
        exists e, embedDataInImage c salt iv hmac keyBytes = (inl e, c))
  /\ (forall d, dataToEmbed salt iv hmac keyBytes = Some d ->
                length d = 96%nat).
Proof.
  split; [|split].
  - unfold dataToEmbed, HEADER_SIZE, SALT_SIZE, IV_SIZE, KEY_SIZE, HMAC_SIZE.
    cbn [Nat.add].
    destruct (set_cases (Js.zeros 96) (numberToBytes (Z.of_nat 92)) 0)
      as [(_ & d0 & -> & H0)|(H0 & _)];
      [|unfold Js.zeros in H0; rewrite length_replicate in H0;
        cbn [numberToBytes length] in H0; lia].
    unfold Js.zeros in H0. rewrite length_replicate in H0.
    cbn [mbind option_bind].
    destruct (set_cases d0 salt 4) as [(Hs & d1 & -> & H1)|(Hs & ->)];
      cbn [mbind option_bind]; [|split; [lia|done]].
    destruct (set_cases d1 iv 20) as [(Hi & d2 & -> & H2)|(Hi & ->)];
      cbn [mbind option_bind]; [|split; [lia|done]].
    destruct (set_cases d2 keyBytes 32) as [(Hk & d3 & -> & H3)|(Hk & ->)];
      cbn [mbind option_bind]; [|split; [lia|done]].
    destruct (set_cases d3 hmac 64) as [(Hh & d4 & -> & H4)|(Hh & ->)];
      [|split; [lia|done]].
    split; [done|lia].
  - intros c H. unfold embedDataInImage. rewrite H. by eexists.
  - apply length_dataToEmbed.
Qed.

End FieldLengths.

Lemma embed_field_lengths_witness :
  exists e,
    embedDataInImage Sample.canvas Sample.salt Sample.iv
      (Sample.hmac ++ [0]) Sample.keyBytes
    = (inl e, Sample.canvas).
Proof.
  apply (proj1 (proj2 (embed_field_lengths Sample.salt Sample.iv
                         (Sample.hmac ++ [0]) Sample.keyBytes))).
  reflexivity.
Defined.

(** ** Examples *)

(** The test vector of the specification: the header and 92 bytes 0xAA
    embedded in a black canvas of 64 x 64 opaque pixels come back. *)
Example known_vector :
  extractDataFromImage
    (snd (embedDataInImage Sample.opaqueBlackCanvas (replicate 16 0xAA)
            (replicate 12 0xAA) (replicate 32 0xAA) (replicate 32 0xAA)))
  = inr {| salt := replicate 16 0xAA; iv := replicate 12 0xAA;
           keyBytes := replicate 32 0xAA; hmac := replicate 32 0xAA |}.
Proof. vm_compute. reflexivity. Qed.

(** They come back from the buffer of 64 x 64 x 4 bytes 0 as well, as long
    as it is read before a canvas has held it. *)
Example known_vector_buffer :
  allBytes
    (extractLoop
       (pixels
          (embedLoop ([0; 0; 0; 92] ++ replicate 92 0xAA)
             (data Sample.blackCanvas)))
       96)
  = [0; 0; 0; 92] ++ replicate 92 0xAA.
Proof. vm_compute. reflexivity. Qed.

(** A header that is not 0,0,0,92: nothing was embedded in the canvas. *)
Example no_payload :
  extractDataFromImage Sample.blackCanvas
  = inl "Failed to extract data from image: Invalid data length - image may not contain valid encryption data"%string.
Proof. vm_compute. reflexivity. Qed.

(** Decoding is signed: four bytes 255 are -1. *)
Example bytesToNumber_signed : bytesToNumber [255; 255; 255; 255] = -1.
Proof. reflexivity. Qed.

(** The empty file goes through encryption and decryption. *)
Example empty_file_round_trip :
  match fst (Crypto.encryptFile (S := Toy.subtle) Toy.emptyFile Toy.pin
               Toy.world) with
  | inr r =>
      fst (Crypto.decryptFile (S := Toy.subtle) (Crypto.encrypted r) Toy.pin
             (Crypto.salt r) (Crypto.iv r) (Crypto.hmac r) Toy.world)
  | inl e => inl e
  end = inr [].
Proof. vm_compute. reflexivity. Qed.

(** Encrypting on the page and decrypting with the key image and the PIN
    hands the file back under its old name. *)
Example page_round_trip :
  Platform.Ui (Platform.DownloadBlob (Validation.content Toy.file) "notes.txt")
  ∈ Platform.trace
      (snd (App.handleDecrypt (S := Toy.subtle) (B := Toy.browser)
              (Some Toy.encryptedFile) (Some Toy.keyImage) Toy.pin
              Toy.afterEncrypt)).
Proof. apply list_elem_of_In. vm_compute. tauto. Qed.

(** A header damaged in the key image is reported with the general message,
    not with the one of a failed decryption. *)
Example damaged_header_message :
  Crypto.getCryptoErrorMessage
    "Failed to extract data from image: Invalid data length - image may not contain valid encryption data"%string
  = "An encryption error occurred. Please try again."%string.
Proof. reflexivity. Qed.
